(** * External camera provider: device discovery and presence registry

    A shallow embedding of the two external camera providers of
    hardware/interfaces:

    - [Aidl]: camera/provider/default/ExternalCameraProvider.cpp
    - [Hidl]: camera/provider/2.4/default/ExternalCameraProviderImpl_2_4.cpp

    The provider object is a record, its member functions are programs of a
    small state monad over that record, and everything the code asks the
    kernel (open, ioctl, sysfs attributes, directory listings, inotify) is
    answered by an explicit [World].  An effect trace, kept as a ghost field,
    records the calls made on the callback, the log lines and the system
    calls in program order. *)

From Stdlib Require Import ZArith Ascii String List Lia.
From stdpp Require Import gmap strings list fin_maps.

Local Open Scope string_scope.
Local Open Scope Z_scope.

(** ** The C and C++ library functions the providers call *)

Module CLib.

(** What the build fixes from outside the two source files: the data
    model of the target (width of [long] and of a data pointer), and the
    declared type of ExternalCameraConfig::cameraIdOffset.  The struct is
    declared in ExternalCameraUtils.h, which is not among the sources; the
    type is taken as a parameter, [int] or [uint32_t], and decides how the
    sum the names are formed from is computed and printed. *)
Record ABI := {
  long_bits : Z;
  sizeof_pointer : nat;
  cameraIdOffset_unsigned : bool
}.

(** The two data models, with the [uint32_t] the header declares
    upstream. *)
Definition LP64 : ABI :=
  {| long_bits := 64; sizeof_pointer := 8; cameraIdOffset_unsigned := true |}.
Definition ILP32 : ABI :=
  {| long_bits := 32; sizeof_pointer := 4; cameraIdOffset_unsigned := true |}.

Definition code (c : ascii) : Z := Z.of_N (N_of_ascii c).

Definition isdigit (c : ascii) : bool := (48 <=? code c) && (code c <=? 57).

(** [isspace] in the C locale: space, \t, \n, \v, \f, \r. *)
Definition isspace (c : ascii) : bool :=
  (code c =? 32) || ((9 <=? code c) && (code c <=? 13)).

Definition digit_value (c : ascii) : Z := code c - 48.

Definition digit_char (d : Z) : ascii := ascii_of_N (Z.to_N (48 + d)).

(** [int] is 32 bits wide on both targets; a value that does not fit is
    reduced modulo 2^32 (what the hardware and the conversion from [long]
    do). *)
Definition INT_MIN : Z := - 2 ^ 31.
Definition INT_MAX : Z := 2 ^ 31 - 1.
Definition int_cast (z : Z) : Z := (z + 2 ^ 31) mod 2 ^ 32 - 2 ^ 31.
Definition int_add (a b : Z) : Z := int_cast (a + b).
Definition int_sub (a b : Z) : Z := int_cast (a - b).

(** Conversion to [uint32_t]. *)
Definition uint_cast (z : Z) : Z := z mod 2 ^ 32.

(** [mCfg.cameraIdOffset + n] for an [int] n, as std::to_string receives
    it: an [int] when the offset is declared [int], and otherwise, by the
    usual arithmetic conversions, an [unsigned int]. *)
Definition offset_add (abi : ABI) (cameraIdOffset n : Z) : Z :=
  if cameraIdOffset_unsigned abi then uint_cast (cameraIdOffset + n)
  else int_add cameraIdOffset n.

(** std::string(s.c_str()) for a hidl_string [s]: the characters before
    its first NUL. *)
Fixpoint hidl_c_str (s : string) : string :=
  match s with
  | String c s' => if Ascii.eqb c Ascii.zero then EmptyString else String c (hidl_c_str s')
  | EmptyString => EmptyString
  end.

Fixpoint skip_space (s : string) : string :=
  match s with
  | String c s' => if isspace c then skip_space s' else s
  | EmptyString => s
  end.

(** The digit loop of strtol, base 10: accumulates while digits last. *)
Fixpoint digits_value (acc : Z) (s : string) : Z :=
  match s with
  | String c s' => if isdigit c then digits_value (acc * 10 + digit_value c) s' else acc
  | EmptyString => acc
  end.

Definition starts_with_digit (s : string) : bool :=
  match s with
  | String c _ => isdigit c
  | EmptyString => false
  end.

Definition split_sign (s : string) : bool * string :=
  match s with
  | String c s' =>
      if Ascii.eqb c "-" then (true, s')
      else if Ascii.eqb c "+" then (false, s')
      else (false, s)
  | EmptyString => (false, s)
  end.

(** The number strtol(s, &end, 10) reads, before any clamping: [None] when
    no conversion is performed (end == s). *)
Definition strtol_exact (s : string) : option Z :=
  let '(neg, body) := split_sign (skip_space s) in
  if starts_with_digit body
  then Some (if neg then - digits_value 0 body else digits_value 0 body)
  else None.

Definition clamp (lo hi z : Z) : Z := Z.max lo (Z.min hi z).

(** strtol: 0 when nothing converts, LONG_MIN/LONG_MAX on overflow. *)
Definition strtol (abi : ABI) (s : string) : Z :=
  match strtol_exact s with
  | Some z => clamp (- 2 ^ (long_bits abi - 1)) (2 ^ (long_bits abi - 1) - 1) z
  | None => 0
  end.

(** bionic: int atoi(const char* s) { return (int) strtol(s, NULL, 10); } *)
Definition atoi (abi : ABI) (s : string) : Z := int_cast (strtol abi s).

Inductive exception := invalid_argument | out_of_range.

(** std::stoi(str): throws std::invalid_argument when no conversion could
    be performed and std::out_of_range when the value is not an [int];
    characters after the number are ignored. *)
Definition stoi (s : string) : exception + Z :=
  match strtol_exact s with
  | None => inl invalid_argument
  | Some z => if (INT_MIN <=? z) && (z <=? INT_MAX) then inr z else inl out_of_range
  end.

(** Decimal digits of a non-negative number, most significant first,
    pushed in front of [acc]. *)
Fixpoint to_digits (fuel : nat) (n : Z) (acc : string) : string :=
  match fuel with
  | O => acc
  | S fuel' =>
      let acc' := String (digit_char (n mod 10)) acc in
      if n / 10 =? 0 then acc' else to_digits fuel' (n / 10) acc'
  end.

(** A number below 2^k has at most k decimal digits. *)
Definition digits_bound (n : Z) : nat := S (Z.to_nat (Z.log2 n)).

(** std::to_string(int): what printf's %d prints. *)
Definition to_string (n : Z) : string :=
  if n <? 0
  then String "-" (to_digits (digits_bound (- n)) (- n) "")
  else to_digits (digits_bound n) n "".

(** [s + n] for a C string [s].  For a string of fewer than [n]
    characters the C expression points past the terminator, into whatever
    the array behind it holds (so for every /dev/video<N> of fewer than
    four digits when the HIDL provider is built with 8-byte pointers).
    The model does not follow such reads: it yields the empty string, and
    what is proved about the names the providers form is stated where the
    pointer stays inside the string. *)
Fixpoint advance (n : nat) (s : string) : string :=
  match n, s with
  | O, _ => s
  | S n', String _ s' => advance n' s'
  | S _, EmptyString => s
  end.

(** strncmp(p, s, strlen(p)) == 0 *)
Definition has_prefix (p s : string) : bool := String.prefix p s.

(** strstr(hay, needle) != NULL *)
Fixpoint strstr (hay needle : string) : bool :=
  String.prefix needle hay ||
  match hay with
  | String _ hay' => strstr hay' needle
  | EmptyString => false
  end.

(** p.compare(0, p.length(), s, 0, p.length()) == 0: the first
    p.length() characters of [s] (fewer if [s] is shorter) equal [p]. *)
Definition compare_prefix (p s : string) : bool := String.prefix p s.

End CLib.

(** ** The device-name pattern

    const std::regex kDeviceNameRE("device@([0-9]+\\.[0-9]+)/external/(.+)");  *)

Module Regex.

Inductive regex :=
| Chr (c : ascii)                 (* a literal character *)
| Digit                           (* [0-9] *)
| AnyChar                         (* . : any character but a line terminator *)
| Cat (r1 r2 : regex)
| Plus (r : regex).

Fixpoint Lit (s : string) : regex -> regex :=
  match s with
  | String c s' => fun k => Cat (Chr c) (Lit s' k)
  | EmptyString => fun k => k
  end.

(** ECMAScript's [.] excludes the line terminators; over [char] these are
    \n and \r. *)
Definition is_line_terminator (c : ascii) : bool :=
  (CLib.code c =? 10) || (CLib.code c =? 13).

(** The language of a pattern. *)
Inductive matches : regex -> string -> Prop :=
| m_chr c : matches (Chr c) (String c "")
| m_digit c : CLib.isdigit c = true -> matches Digit (String c "")
| m_any c : is_line_terminator c = false -> matches AnyChar (String c "")
| m_cat r1 r2 s1 s2 : matches r1 s1 -> matches r2 s2 -> matches (Cat r1 r2) (s1 +:+ s2)
| m_plus_one r s : matches r s -> matches (Plus r) s
| m_plus_more r s1 s2 : matches r s1 -> matches (Plus r) s2 -> matches (Plus r) (s1 +:+ s2).

(** The two capture groups and the whole pattern. *)
Definition re_version : regex := Cat (Plus Digit) (Cat (Chr ".") (Plus Digit)).
Definition re_id : regex := Plus AnyChar.
Definition kDeviceNameRE : regex :=
  Lit "device@" (Cat re_version (Lit "/external/" re_id)).

(** *** The matcher, specialised to [kDeviceNameRE] *)

Fixpoint strip_prefix (p s : string) : option string :=
  match p, s with
  | EmptyString, _ => Some s
  | String a p', String b s' => if Ascii.eqb a b then strip_prefix p' s' else None
  | String _ _, EmptyString => None
  end.

(** Longest run of digits at the front of [s], and what follows it. *)
Fixpoint span_digits (s : string) : string * string :=
  match s with
  | String c s' =>
      if CLib.isdigit c
      then let r := span_digits s' in (String c (fst r), snd r)
      else (EmptyString, s)
  | EmptyString => (EmptyString, EmptyString)
  end.

Fixpoint string_forall (P : ascii -> bool) (s : string) : bool :=
  match s with
  | String c s' => P c && string_forall P s'
  | EmptyString => true
  end.

Definition any_char (c : ascii) : bool := negb (is_line_terminator c).
Definition all_any_char (s : string) : bool := string_forall any_char s.
Definition all_digits (s : string) : bool := string_forall CLib.isdigit s.

Definition is_empty (s : string) : bool :=
  match s with EmptyString => true | _ => false end.

(** std::regex_match(s, sm, kDeviceNameRE): [Some (sm[1], sm[2])] when the
    whole of [s] matches. *)
Definition regex_match (s : string) : option (string * string) :=
  match strip_prefix "device@" s with
  | None => None
  | Some r0 =>
      let (major, r1) := span_digits r0 in
      if is_empty major then None else
      match strip_prefix "." r1 with
      | None => None
      | Some r2 =>
          let (minor, r3) := span_digits r2 in
          if is_empty minor then None else
          match strip_prefix "/external/" r3 with
          | None => None
          | Some id =>
              if is_empty id || negb (all_any_char id) then None
              else Some (major +:+ "." +:+ minor, id)
          end
      end
  end.

End Regex.

(** ** Kernel interface, effects and the program monad *)

Module Sys.

(** android.hardware.camera.common: the status codes the providers return
    and the presence states they report. *)
Inductive Status := OK | ILLEGAL_ARGUMENT | INTERNAL_ERROR | OPERATION_NOT_SUPPORTED.
Inductive CameraDeviceStatus := NOT_PRESENT | PRESENT | ENUMERATING.

#[global] Instance Status_eq_dec : EqDecision Status.
Proof. solve_decision. Defined.
#[global] Instance CameraDeviceStatus_eq_dec : EqDecision CameraDeviceStatus.
Proof. solve_decision. Defined.

(** Constants of the Linux headers. *)
Definition O_RDWR : Z := 2.
Definition O_NONBLOCK : Z := 2048.
Definition V4L2_CAP_VIDEO_CAPTURE : Z := 1.
Definition V4L2_CAP_VIDEO_CAPTURE_MPLANE : Z := 4096.
Definition IN_CREATE : Z := 256.
Definition IN_DELETE : Z := 512.
Definition POLLIN : Z := 1.
Definition POLLERR : Z := 8.
Definition POLLHUP : Z := 16.
Definition POLLNVAL : Z := 32.

(** [x & mask] used as a condition. *)
Definition has_bits (x mask : Z) : bool := negb (Z.land x mask =? 0).

Record v4l2_capability := { driver : string; device_caps : Z }.
Record inotify_event := { wd : Z; mask : Z; name : string }.

Inductive IoctlRequest := VIDIOC_QUERYCAP | VIDIOC_ENUM_FMT.

(** An ICameraProviderCallback, named by an identifier. *)
Definition Callback : Type := nat.

(** The device implementations a provider can construct: the AIDL one and
    the three HIDL versions. *)
Inductive DeviceClass := Device_aidl | Device_3_4 | Device_3_5 | Device_3_6.

(** The object an ExternalCameraDevice constructor leaves behind. *)
Record ExternalCameraDevice := { devicePath : string; isInitFailed : bool }.

(** What the kernel and the device implementation answer while one call of
    the provider runs; a later call may meet another world. *)
Record World := {
  (** base::ReadFileToString(path, &out): the content, [None] on failure *)
  ReadFileToString : string -> option string;
  (** open(path, flags) returns a descriptor (true) or -1 (false) *)
  open_ok : string -> Z -> bool;
  (** ioctl(fd, VIDIOC_QUERYCAP, &cap) on the node: [None] when it fails *)
  ioctl_querycap : string -> option v4l2_capability;
  (** ioctl(fd, VIDIOC_ENUM_FMT, &desc) with index 0 returns 0 *)
  ioctl_enum_fmt_ok : string -> bool;
  (** opendir("/dev/") and the d_name of each entry readdir then yields,
      in order; [None] when opendir fails *)
  dev_entries : option (list string);
  (** constructing an ExternalCameraDevice of the class on the path;
      [None] is a null pointer *)
  make_device : DeviceClass -> string -> option ExternalCameraDevice;
  inotify_init_ret : Z;
  inotify_add_watch_ret : Z;
  (** poll(&mPollFd, 1, 250): return value and revents *)
  poll_ret : Z;
  poll_revents : Z;
  (** read(mINotifyFD, buf, sizeof buf): the records of a read that
      returned at least one whole record, [None] for a shorter one *)
  read_events : option (list inotify_event)
}.

(** deviceImpl == nullptr || deviceImpl->isInitFailed() *)
Definition construction_fails (w : World) (cls : DeviceClass) (path : string) : bool :=
  match make_device w cls path with
  | None => true
  | Some deviceImpl => isInitFailed deviceImpl
  end.

(** What a run leaves observable, in program order. *)
Inductive Effect :=
| cameraDeviceStatusChange (cb : Callback) (deviceName : string) (st : CameraDeviceStatus)
| ALOGE (msg : string)
| ALOGW (msg : string)
| ALOGI (msg : string)
| sys_open (path : string) (flags : Z)
| sys_ioctl (path : string) (request : IoctlRequest)
| sys_ReadFileToString (path : string)
| sys_opendir (path : string)
| sys_usleep (usec : Z)
| sys_inotify_init
| sys_inotify_add_watch (path : string) (mask : Z)
| sys_poll (timeout : Z)
| sys_read
| new_ExternalCameraDevice (cls : DeviceClass) (path : string).

#[global] Instance DeviceClass_eq_dec : EqDecision DeviceClass.
Proof. solve_decision. Defined.
#[global] Instance IoctlRequest_eq_dec : EqDecision IoctlRequest.
Proof. solve_decision. Defined.
#[global] Instance Effect_eq_dec : EqDecision Effect.
Proof. solve_decision. Defined.

(** A provider object of type [P] together with the trace of its run. *)
Record Machine (P : Type) := { object : P; trace : list Effect }.
Arguments object {P} _.
Arguments trace {P} _.

Definition Prog (P A : Type) : Type := Machine P -> A * Machine P.

#[global] Instance Prog_ret {P} : MRet (Prog P) := fun A a m => (a, m).
#[global] Instance Prog_bind {P} : MBind (Prog P) :=
  fun A B f c m => let r := c m in f (fst r) (snd r).

Definition get {P} : Prog P P := fun m => (object m, m).
Definition modify {P} (f : P -> P) : Prog P unit :=
  fun m => (tt, {| object := f (object m); trace := trace m |}).
Definition emit {P} (e : Effect) : Prog P unit :=
  fun m => (tt, {| object := object m; trace := trace m ++ [e] |}).

(** Running a program from a provider object and an empty trace. *)
Definition start {P} (p : P) : Machine P := {| object := p; trace := [] |}.

(** The calls delivered to callbacks, oldest first. *)
Definition is_notification (e : Effect) : bool :=
  match e with cameraDeviceStatusChange _ _ _ => true | _ => false end.
Definition notifications (t : list Effect) : list Effect := List.filter is_notification t.

(** A program preserves a property of the provider object. *)
Definition preserves {P A} (I : P -> Prop) (c : Prog P A) : Prop :=
  forall m, I (object m) -> I (object (snd (c m))).

(** A program leaves the provider object alone and calls no callback. *)
Definition quiet {P A} (c : Prog P A) : Prop :=
  forall m, object (snd (c m)) = object m
            /\ notifications (trace (snd (c m))) = notifications (trace m).

(** ExternalCameraConfig, as far as discovery reads it.  [cameraIdOffset]
    holds the field as the [int] parameter of matchDeviceName receives
    it; for a [uint32_t] field that conversion moves the value by a
    multiple of 2^32 at most, which the unsigned sum of [offset_add] does
    not see. *)
Record ExternalCameraConfig := {
  cameraIdOffset : Z;
  mInternalDevices : gset string
}.

Definition kMaxDevicePathLen : nat := 256.
Definition kPrefix : string := "video".
Definition kPrefixLen : nat := 5.   (* sizeof(kPrefix) - 1 *)
Definition kDevicePathStr : string := "/dev/".

Definition NUL : ascii := Ascii.zero.

(** A char array read as a C string: the bytes before the first NUL. *)
Fixpoint c_str (buf : list ascii) : string :=
  match buf with
  | c :: buf' => if Ascii.eqb c NUL then EmptyString else String c (c_str buf')
  | [] => EmptyString
  end.

(** strncpy(dst, src, strlen(src)): the bytes of [src] over the front of
    [dst], and no terminator after them. *)
Definition strncpy_strlen (dst : list ascii) (src : string) : list ascii :=
  let bytes := list_ascii_of_string src in
  bytes ++ drop (length bytes) dst.

End Sys.

(** ** camera/provider/default/ExternalCameraProvider.cpp *)

Module Aidl.
Import CLib Sys.

(** sizeof(kDevicePath) for [constexpr char kDevicePath[] = "/dev/"]. *)
Definition sizeof_kDevicePath : nat := 6.
Definition kDevicePrefixLen : nat := sizeof_kDevicePath + kPrefixLen - 1.

Record HotplugThread := {
  t_mInternalDevices : gset string;
  mIsInitialized : bool;
  mINotifyFD : Z;
  mWd : Z
}.

(** The members of the class the functions below use.  mCameraStatusMap
    maps a device name to its status; the order in which a loop over it
    meets the entries is that of [map_to_list], and no property below
    depends on it. *)
Record ExternalCameraProvider := {
  mCfg : ExternalCameraConfig;
  mCameraStatusMap : gmap string CameraDeviceStatus;
  mCallback : option Callback;
  mHotPlugThread : HotplugThread
}.

Definition set_mCameraStatusMap (f : gmap string CameraDeviceStatus -> gmap string CameraDeviceStatus)
    (p : ExternalCameraProvider) : ExternalCameraProvider :=
  {| mCfg := mCfg p; mCameraStatusMap := f (mCameraStatusMap p);
     mCallback := mCallback p; mHotPlugThread := mHotPlugThread p |}.

Definition set_mCallback (cb : option Callback) (p : ExternalCameraProvider) : ExternalCameraProvider :=
  {| mCfg := mCfg p; mCameraStatusMap := mCameraStatusMap p;
     mCallback := cb; mHotPlugThread := mHotPlugThread p |}.

Definition set_mHotPlugThread (f : HotplugThread -> HotplugThread)
    (p : ExternalCameraProvider) : ExternalCameraProvider :=
  {| mCfg := mCfg p; mCameraStatusMap := mCameraStatusMap p;
     mCallback := mCallback p; mHotPlugThread := f (mHotPlugThread p) |}.

(** The constructor: an empty status map, no callback, and a hot-plug
    thread holding a copy of the configured internal devices. *)
Definition construct (cfg : ExternalCameraConfig) : ExternalCameraProvider :=
  {| mCfg := cfg; mCameraStatusMap := ∅; mCallback := None;
     mHotPlugThread := {| t_mInternalDevices := mInternalDevices cfg;
                          mIsInitialized := false; mINotifyFD := -1; mWd := -1 |} |}.

Abbreviation Prog := (Sys.Prog ExternalCameraProvider).

(** The result of a call that an uncaught C++ exception may end. *)
Definition Outcome (A : Type) : Type := exception + A.

(** matchDeviceName: the two out-parameters are given by their pointee
    ([None] for a null pointer) and returned as the call leaves them. *)
Definition matchDeviceName (cameraIdOffset : Z) (deviceName : string)
    (deviceVersion cameraDevicePath : option string)
    : Outcome (bool * option string * option string) :=
  match Regex.regex_match deviceName with
  | Some (sm1, sm2) =>
      let deviceVersion' := match deviceVersion with Some _ => Some sm1 | None => None end in
      match cameraDevicePath with
      | Some _ =>
          match stoi sm2 with
          | inl e => inl e
          | inr n => inr (true, deviceVersion',
                          Some ("/dev/video" +:+ to_string (int_sub n cameraIdOffset)))
          end
      | None => inr (true, deviceVersion', None)
      end
  | None => inr (false, deviceVersion, cameraDevicePath)
  end.

Fixpoint for_each_status (cb : Callback) (l : list (string * CameraDeviceStatus)) : Prog unit :=
  match l with
  | [] => mret tt
  | kv :: l' =>
      emit (cameraDeviceStatusChange cb (fst kv) (snd kv));;
      for_each_status cb l'
  end.

Definition setCallback (in_callback : option Callback) : Prog Status :=
  modify (set_mCallback in_callback);;
  p ← get;
  match mCallback p with
  | None => mret OK
  | Some cb =>
      for_each_status cb (map_to_list (mCameraStatusMap p));;
      mret OK
  end.

(** Out-parameter [_aidl_return]: [None] for a null pointer, otherwise its
    pointee; the function returns the status and the pointee afterwards. *)
Definition getVendorTags (_aidl_return : option (list string))
    : Prog (Status * option (list string)) :=
  match _aidl_return with
  | None => mret (ILLEGAL_ARGUMENT, None)
  | Some _ => mret (OK, Some [])
  end.

Definition getCameraIdList (_aidl_return : option (list string))
    : Prog (Status * option (list string)) :=
  match _aidl_return with
  | None => mret (ILLEGAL_ARGUMENT, None)
  | Some _ => mret (OK, Some [])
  end.

Definition notifyDeviceStateChange (newState : Z) : Prog Status := mret OK.

Definition getConcurrentCameraIds (_aidl_return : option (list (list string)))
    : Prog (Status * option (list (list string))) :=
  match _aidl_return with
  | None => mret (ILLEGAL_ARGUMENT, None)
  | Some _ => mret (OK, Some [])
  end.

Definition isConcurrentStreamCombinationSupported (_aidl_return : option bool)
    : Prog (Status * option bool) :=
  match _aidl_return with
  | None => mret (ILLEGAL_ARGUMENT, None)
  | Some _ => mret (OK, Some false)
  end.

(** [_aidl_return] points to a shared_ptr<ICameraDevice>, itself null
    ([Some None]) or a device. *)
Definition getCameraDeviceInterface (w : World) (in_cameraDeviceName : string)
    (_aidl_return : option (option ExternalCameraDevice))
    : Prog (Outcome (Status * option (option ExternalCameraDevice))) :=
  match _aidl_return with
  | None => mret (inr (ILLEGAL_ARGUMENT, None))
  | Some _ =>
      p ← get;
      match matchDeviceName (cameraIdOffset (mCfg p)) in_cameraDeviceName (Some "") (Some "") with
      | inl e => mret (inl e)
      | inr (match_, deviceVersion, cameraDevicePath) =>
          if negb match_ then mret (inr (ILLEGAL_ARGUMENT, Some None))
          else if bool_decide (mCameraStatusMap p !! in_cameraDeviceName = None)
                  || negb (bool_decide (mCameraStatusMap p !! in_cameraDeviceName = Some PRESENT))
          then mret (inr (ILLEGAL_ARGUMENT, Some None))
          else
            let path := default "" cameraDevicePath in
            emit (new_ExternalCameraDevice Device_aidl path);;
            match make_device w Device_aidl path with
            | None =>
                emit (ALOGE ("getCameraDeviceInterface: camera device " +:+ path +:+ " init failed!"));;
                mret (inr (INTERNAL_ERROR, Some None))
            | Some deviceImpl =>
                if isInitFailed deviceImpl
                then emit (ALOGE ("getCameraDeviceInterface: camera device " +:+ path +:+ " init failed!"));;
                     mret (inr (INTERNAL_ERROR, Some None))
                else mret (inr (OK, Some (Some deviceImpl)))
            end
      end
  end.

Section Build.
(** The target's data model, and ExternalCameraDevice::kDeviceVersion,
    which ExternalCameraDevice.h declares. *)
Variable abi : ABI.
Variable kDeviceVersion : string.

(** The logical name addExternalCamera and deviceRemoved derive from a
    node path. *)
Definition deviceNameOf (cameraIdOffset : Z) (devName : string) : string :=
  let cameraId :=
    to_string (offset_add abi cameraIdOffset (atoi abi (advance kDevicePrefixLen devName))) in
  "device@" +:+ kDeviceVersion +:+ "/external/" +:+ cameraId.

Definition addExternalCamera (devName : string) : Prog unit :=
  p ← get;
  let deviceName := deviceNameOf (cameraIdOffset (mCfg p)) devName in
  modify (set_mCameraStatusMap (insert deviceName PRESENT));;
  match mCallback p with
  | Some cb => emit (cameraDeviceStatusChange cb deviceName PRESENT)
  | None => mret tt
  end.

Definition deviceAdded (w : World) (devName : string) : Prog unit :=
  emit (sys_open devName O_RDWR);;
  if negb (open_ok w devName O_RDWR)
  then emit (ALOGE ("deviceAdded open v4l2 device " +:+ devName +:+ " failed"))
  else
    emit (sys_ioctl devName VIDIOC_QUERYCAP);;
    match ioctl_querycap w devName with
    | None => emit (ALOGE ("deviceAdded v4l2 QUERYCAP " +:+ devName +:+ " failed"))
    | Some capability =>
        if negb (has_bits (device_caps capability)
                          (Z.lor V4L2_CAP_VIDEO_CAPTURE V4L2_CAP_VIDEO_CAPTURE_MPLANE))
        then emit (ALOGW ("deviceAdded device " +:+ devName +:+ " does not support VIDEO_CAPTURE"))
        else
          emit (new_ExternalCameraDevice Device_aidl devName);;
          match make_device w Device_aidl devName with
          | None =>
              emit (ALOGW ("deviceAdded: Attempt to init camera device " +:+ devName +:+ " failed!"))
          | Some deviceImpl =>
              if isInitFailed deviceImpl
              then emit (ALOGW ("deviceAdded: Attempt to init camera device " +:+ devName +:+ " failed!"))
              else addExternalCamera devName
          end
    end.

(** std::unordered_map::erase(key): the number of elements removed. *)
Definition erase (key : string) (m : gmap string CameraDeviceStatus)
    : Z * gmap string CameraDeviceStatus :=
  match m !! key with
  | Some _ => (1, delete key m)
  | None => (0, m)
  end.

Definition deviceRemoved (devName : string) : Prog unit :=
  p ← get;
  let deviceName := deviceNameOf (cameraIdOffset (mCfg p)) devName in
  let erased := erase deviceName (mCameraStatusMap p) in
  modify (set_mCameraStatusMap (fun _ => snd erased));;
  if fst erased =? 0
  then emit (ALOGE ("deviceRemoved: cannot find camera device to remove " +:+ devName))
  else
    match mCallback p with
    | Some cb => emit (cameraDeviceStatusChange cb deviceName NOT_PRESENT)
    | None => mret tt
    end.

(** snprintf(buf, kMaxDevicePathLen, "%s%s", kDevicePath, d_name): at
    most kMaxDevicePathLen - 1 characters are kept. *)
Definition snprintf_path (d_name : string) : string :=
  string_of_list_ascii
    (take (kMaxDevicePathLen - 1) (list_ascii_of_string (kDevicePathStr +:+ d_name))).

(** sprintf(buf, "/sys/class/video4linux/%s/name", d_name) *)
Definition sprintf_sysclass (d_name : string) : string :=
  "/sys/class/video4linux/" +:+ d_name +:+ "/name".

(** The name attribute of a node of the hardware codec: it starts with
    the decoder or the encoder name. *)
Definition is_codec_name (video_name : string) : bool :=
  compare_prefix "amphion-vpu-decoder" video_name
  || compare_prefix "amphion-vpu-encoder" video_name.

(** isExternalDevice: [isHdmiRx] is the pointee of the out-parameter
    ([None] for NULL); the result pairs the return value with the
    pointee afterwards. *)
Definition isExternalDevice (w : World) (devName sysClassName : string)
    (isHdmiRx : option bool) : Prog (bool * option bool) :=
  let isHdmiRx := match isHdmiRx with Some _ => Some false | None => None end in
  let video_decoder_name := "amphion-vpu-decoder" in
  let video_encoder_name := "amphion-vpu-encoder" in
  emit (sys_ReadFileToString sysClassName);;
  match ReadFileToString w sysClassName with
  | None => emit (ALOGE "can't read video device name");; mret (false, isHdmiRx)
  | Some video_name =>
      if compare_prefix video_decoder_name video_name
         || compare_prefix video_encoder_name video_name
      then mret (false, isHdmiRx)
      else
        emit (sys_open devName (Z.lor O_RDWR O_NONBLOCK));;
        if negb (open_ok w devName (Z.lor O_RDWR O_NONBLOCK))
        then emit (ALOGE ("isExternalDevice open dev path:" +:+ devName +:+ " failed"));;
             mret (false, isHdmiRx)
        else
          emit (sys_ioctl devName VIDIOC_QUERYCAP);;
          match ioctl_querycap w devName with
          | None =>
              emit (ALOGE ("isExternalDevice QUERYCAP dev path:" +:+ devName +:+ " failed"));;
              mret (false, isHdmiRx)
          | Some vidCap =>
              if strstr (driver vidCap) "uvc" then
                emit (sys_ioctl devName VIDIOC_ENUM_FMT);;
                if ioctl_enum_fmt_ok w devName then mret (true, isHdmiRx)
                else
                  emit (ALOGE ("Although " +:+ devName
                               +:+ " driver name has uvc, but it's a uvc meta device"));;
                  mret (false, isHdmiRx)
              else if strstr (driver vidCap) "cap" then
                let propName := "mxc_isi.6.capture" in
                emit (sys_ReadFileToString sysClassName);;
                match ReadFileToString w sysClassName with
                | None => emit (ALOGE "can't read video device name");; mret (false, isHdmiRx)
                | Some buffer =>
                    if compare_prefix propName buffer
                    then mret (true, match isHdmiRx with Some _ => Some true | None => None end)
                    else mret (false, isHdmiRx)
                end
              else mret (false, isHdmiRx)
          end
  end.

(** The readdir loop of updateAttachedCameras. *)
Fixpoint scan_entries (w : World) (entries : list string) : Prog unit :=
  match entries with
  | [] => mret tt
  | d_name :: rest =>
      (if has_prefix kPrefix d_name then
         let deviceId := advance kPrefixLen d_name in
         p ← get;
         if bool_decide (deviceId ∈ mInternalDevices (mCfg p)) then mret tt
         else
           let v4l2DevicePath := snprintf_path d_name in
           let mCamDevice := sprintf_sysclass d_name in
           '(ext, _) ← isExternalDevice w v4l2DevicePath mCamDevice None;
           if ext : bool then deviceAdded w v4l2DevicePath else mret tt
       else mret tt);;
      scan_entries w rest
  end.

Definition updateAttachedCameras (w : World) : Prog unit :=
  emit (sys_opendir kDevicePathStr);;
  match dev_entries w with
  | None => emit (ALOGE "updateAttachedCameras: cannot open /dev/! Exiting threadloop")
  | Some entries => scan_entries w entries
  end.

(** *** HotplugThread *)

Definition initialize (w : World) : Prog bool :=
  updateAttachedCameras w;;
  emit sys_inotify_init;;
  modify (set_mHotPlugThread (fun t =>
    {| t_mInternalDevices := t_mInternalDevices t; mIsInitialized := mIsInitialized t;
       mINotifyFD := inotify_init_ret w; mWd := mWd t |}));;
  if inotify_init_ret w <? 0
  then emit (ALOGE "initialize: inotify init failed! Exiting threadloop");; mret false
  else
    emit (sys_inotify_add_watch kDevicePathStr (Z.lor IN_CREATE IN_DELETE));;
    modify (set_mHotPlugThread (fun t =>
      {| t_mInternalDevices := t_mInternalDevices t; mIsInitialized := mIsInitialized t;
         mINotifyFD := mINotifyFD t; mWd := inotify_add_watch_ret w |}));;
    if inotify_add_watch_ret w <? 0
    then emit (ALOGE "initialize: inotify add watch failed! Exiting threadloop");; mret false
    else
      modify (set_mHotPlugThread (fun t =>
        {| t_mInternalDevices := t_mInternalDevices t; mIsInitialized := true;
           mINotifyFD := mINotifyFD t; mWd := mWd t |}));;
      mret true.

(** The readdir loop a CREATE of a cec entry starts: it stops at the
    first node that classifies as HDMI-RX, after copying its path into
    [mHdmiRxNode]; the result is the array afterwards. *)
Fixpoint cec_scan (w : World) (entries : list string) (mHdmiRxNode : list ascii)
    : Prog (list ascii) :=
  match entries with
  | [] => mret mHdmiRxNode
  | d_name :: rest =>
      if has_prefix kPrefix d_name then
        let v4l2DevicePath := snprintf_path d_name in
        let mCamDevice := sprintf_sysclass d_name in
        emit (sys_usleep 800000);;
        '(ext, isHdmiRx) ← isExternalDevice w v4l2DevicePath mCamDevice (Some false);
        if (ext : bool) && default false isHdmiRx then
          let mHdmiRxNode' := strncpy_strlen mHdmiRxNode v4l2DevicePath in
          deviceAdded w v4l2DevicePath;;
          emit (ALOGI ("threadLoop: add mHdmiRxNode------:" +:+ c_str mHdmiRxNode'));;
          mret mHdmiRxNode'
        else cec_scan w rest mHdmiRxNode
      else cec_scan w rest mHdmiRxNode
  end.

(** The part of the event loop for an entry named cec*: [None] when the
    thread loop returns false from inside it. *)
Definition cec_event (w : World) (event : inotify_event) (mHdmiRxNode : list ascii)
    : Prog (option (list ascii)) :=
  if has_bits (mask event) IN_CREATE then
    emit (sys_opendir kDevicePathStr);;
    match dev_entries w with
    | None =>
        emit (ALOGE "threadLoop: cannot open /dev/! Exiting threadloop");;
        mret None
    | Some entries =>
        buf ← cec_scan w entries mHdmiRxNode;
        mret (Some buf)
    end
  else if has_bits (mask event) IN_DELETE then
    deviceRemoved (c_str mHdmiRxNode);;
    emit (ALOGI ("threadLoop: rmv mHdmiRxNode-------:" +:+ c_str mHdmiRxNode));;
    mret (Some mHdmiRxNode)
  else mret (Some mHdmiRxNode).

(** The part of the event loop for an entry named video*. *)
Definition video_event (w : World) (event : inotify_event) : Prog unit :=
  let deviceId := advance kPrefixLen (name event) in
  p ← get;
  if bool_decide (deviceId ∈ t_mInternalDevices (mHotPlugThread p)) then mret tt
  else
    let v4l2DevicePath := snprintf_path (name event) in
    let mCamDevice := sprintf_sysclass (name event) in
    if has_bits (mask event) IN_CREATE then
      emit (sys_usleep 100000);;
      '(ext, _) ← isExternalDevice w v4l2DevicePath mCamDevice None;
      if ext : bool then deviceAdded w v4l2DevicePath else mret tt
    else if has_bits (mask event) IN_DELETE then
      deviceRemoved v4l2DevicePath
    else mret tt.

(** The while loop over the records of one read. *)
Fixpoint event_loop (w : World) (events : list inotify_event) (mHdmiRxNode : list ascii)
    : Prog bool :=
  match events with
  | [] => mret true
  | event :: rest =>
      p ← get;
      if negb (wd event =? mWd (mHotPlugThread p)) then event_loop w rest mHdmiRxNode
      else
        emit (ALOGI ("threadLoop inotify_event " +:+ name event));;
        r ← (if has_prefix "cec" (name event)
             then cec_event w event mHdmiRxNode
             else mret (Some mHdmiRxNode));
        match r with
        | None => mret false
        | Some mHdmiRxNode' =>
            (if negb (has_prefix kPrefix (name event)) then mret tt
             else video_event w event);;
            event_loop w rest mHdmiRxNode'
        end
  end.

(** One call of threadLoop.  [mHdmiRxNode] is a local array of the
    function and is not initialised: [stack] is what the frame holds
    when the call begins.  [read_events w = None] is a read of fewer
    bytes than one record; a failed read, whose -1 the unsigned
    comparison with sizeof lets through, is not modelled. *)
Definition threadLoop (w : World) (stack : list ascii) : Prog bool :=
  p ← get;
  initialized ← (if mIsInitialized (mHotPlugThread p) then mret true else initialize w);
  if negb initialized then mret true
  else
    emit (sys_poll 250);;
    if poll_ret w =? 0 then mret true
    else if poll_ret w <? 0 then
      emit (ALOGE "threadLoop: error while polling for /dev/*");; mret true
    else if has_bits (poll_revents w) POLLERR then
      emit (ALOGE "threadLoop: polling /dev/ returned POLLERR");; mret true
    else if has_bits (poll_revents w) POLLHUP then
      emit (ALOGE "threadLoop: polling /dev/ returned POLLHUP");; mret true
    else if has_bits (poll_revents w) POLLNVAL then
      emit (ALOGE "threadLoop: polling /dev/ returned POLLNVAL");; mret true
    else
      emit sys_read;;
      match read_events w with
      | None => mret true
      | Some events => event_loop w events stack
      end.

End Build.
End Aidl.

(** ** camera/provider/2.4/default/ExternalCameraProviderImpl_2_4.cpp *)

Module Hidl.
Import CLib Sys.

Record HotplugThread := {
  t_mInternalDevices : gset string;
  mINotifyFD : Z;
  mWd : Z
}.

Record ExternalCameraProviderImpl_2_4 := {
  mCfg : ExternalCameraConfig;
  mCameraStatusMap : gmap string CameraDeviceStatus;
  mCallbacks : option Callback;
  mPreferredHal3MinorVersion : Z;
  mHotPlugThread : HotplugThread
}.

Definition set_mCameraStatusMap (f : gmap string CameraDeviceStatus -> gmap string CameraDeviceStatus)
    (p : ExternalCameraProviderImpl_2_4) : ExternalCameraProviderImpl_2_4 :=
  {| mCfg := mCfg p; mCameraStatusMap := f (mCameraStatusMap p); mCallbacks := mCallbacks p;
     mPreferredHal3MinorVersion := mPreferredHal3MinorVersion p;
     mHotPlugThread := mHotPlugThread p |}.

Definition set_mCallbacks (cb : option Callback) (p : ExternalCameraProviderImpl_2_4)
    : ExternalCameraProviderImpl_2_4 :=
  {| mCfg := mCfg p; mCameraStatusMap := mCameraStatusMap p; mCallbacks := cb;
     mPreferredHal3MinorVersion := mPreferredHal3MinorVersion p;
     mHotPlugThread := mHotPlugThread p |}.

Definition set_mHotPlugThread (f : HotplugThread -> HotplugThread)
    (p : ExternalCameraProviderImpl_2_4) : ExternalCameraProviderImpl_2_4 :=
  {| mCfg := mCfg p; mCameraStatusMap := mCameraStatusMap p; mCallbacks := mCallbacks p;
     mPreferredHal3MinorVersion := mPreferredHal3MinorVersion p;
     mHotPlugThread := f (mHotPlugThread p) |}.

(** The constructor; [hal3TrebleMinorVersion] is what
    property_get_int32("ro.vendor.camera.external.hal3TrebleMinorVersion", 4)
    returns. *)
Definition construct (cfg : ExternalCameraConfig) (hal3TrebleMinorVersion : Z)
    : ExternalCameraProviderImpl_2_4 :=
  {| mCfg := cfg; mCameraStatusMap := ∅; mCallbacks := None;
     mPreferredHal3MinorVersion :=
       if (hal3TrebleMinorVersion =? 4) || (hal3TrebleMinorVersion =? 5)
          || (hal3TrebleMinorVersion =? 6)
       then hal3TrebleMinorVersion else 4;
     mHotPlugThread := {| t_mInternalDevices := mInternalDevices cfg;
                          mINotifyFD := -1; mWd := -1 |} |}.

Abbreviation Prog := (Sys.Prog ExternalCameraProviderImpl_2_4).

Definition Outcome (A : Type) : Type := exception + A.

Definition matchDeviceName (cameraIdOffset : Z) (deviceName : string)
    (deviceVersion cameraDevicePath : option string)
    : Outcome (bool * option string * option string) :=
  let deviceNameStd := hidl_c_str deviceName in
  match Regex.regex_match deviceNameStd with
  | Some (sm1, sm2) =>
      let deviceVersion' := match deviceVersion with Some _ => Some sm1 | None => None end in
      match cameraDevicePath with
      | Some _ =>
          match stoi sm2 with
          | inl e => inl e
          | inr n => inr (true, deviceVersion',
                          Some ("/dev/video" +:+ to_string (int_sub n cameraIdOffset)))
          end
      | None => inr (true, deviceVersion', None)
      end
  | None => inr (false, deviceVersion, cameraDevicePath)
  end.

Fixpoint for_each_status (cb : Callback) (l : list (string * CameraDeviceStatus)) : Prog unit :=
  match l with
  | [] => mret tt
  | kv :: l' =>
      emit (cameraDeviceStatusChange cb (fst kv) (snd kv));;
      for_each_status cb l'
  end.

Definition setCallback (callback : option Callback) : Prog Status :=
  modify (set_mCallbacks callback);;
  p ← get;
  match mCallbacks p with
  | None => mret OK
  | Some cb =>
      for_each_status cb (map_to_list (mCameraStatusMap p));;
      mret OK
  end.

(** The HIDL methods hand their results to [_hidl_cb]; the model returns
    the arguments of that call. *)
Definition getVendorTags : Prog (Status * list string) := mret (OK, []).

Definition getCameraIdList : Prog (Status * list string) := mret (OK, []).

Definition isSetTorchModeSupported : Prog (Status * bool) := mret (OK, true).

Definition getCameraDeviceInterface_V1_x (cameraDeviceName : string)
    : Prog (Status * option ExternalCameraDevice) :=
  mret (OPERATION_NOT_SUPPORTED, None).

(** The switch on mPreferredHal3MinorVersion that picks the device class;
    [None] is its default branch. *)
Definition device_class (minor : Z) : option DeviceClass :=
  if minor =? 4 then Some Device_3_4
  else if minor =? 5 then Some Device_3_5
  else if minor =? 6 then Some Device_3_6
  else None.

Definition getCameraDeviceInterface_V3_x (w : World) (cameraDeviceName : string)
    : Prog (Outcome (Status * option ExternalCameraDevice)) :=
  p ← get;
  match matchDeviceName (cameraIdOffset (mCfg p)) cameraDeviceName (Some "") (Some "") with
  | inl e => mret (inl e)
  | inr (match_, deviceVersion, cameraDevicePath) =>
      if negb match_ then mret (inr (ILLEGAL_ARGUMENT, None))
      else if bool_decide (mCameraStatusMap p !! cameraDeviceName = None)
              || negb (bool_decide (mCameraStatusMap p !! cameraDeviceName = Some PRESENT))
      then mret (inr (ILLEGAL_ARGUMENT, None))
      else
        let path := default "" cameraDevicePath in
        match device_class (mPreferredHal3MinorVersion p) with
        | None =>
            emit (ALOGE "getCameraDeviceInterface_V3_x: Unknown HAL minor version!");;
            mret (inr (INTERNAL_ERROR, None))
        | Some cls =>
            emit (new_ExternalCameraDevice cls path);;
            match make_device w cls path with
            | None =>
                emit (ALOGE ("getCameraDeviceInterface_V3_x: camera device " +:+ path
                             +:+ " init failed!"));;
                mret (inr (INTERNAL_ERROR, None))
            | Some deviceImpl =>
                if isInitFailed deviceImpl
                then emit (ALOGE ("getCameraDeviceInterface_V3_x: camera device " +:+ path
                                  +:+ " init failed!"));;
                     mret (inr (INTERNAL_ERROR, None))
                else mret (inr (OK, Some deviceImpl))
            end
        end
  end.

Section Build.
Variable abi : ABI.

(** sizeof(kDevicePath) for [const char* kDevicePath = "/dev/"]: the size
    of a pointer. *)
Definition sizeof_kDevicePath : nat := sizeof_pointer abi.
Definition kDevicePrefixLen : nat := sizeof_kDevicePath + kPrefixLen + 1.

(** The version in the names the provider forms, by the same tests on
    mPreferredHal3MinorVersion as below. *)
Definition version_2_4 (minor : Z) : string :=
  if minor =? 6 then "3.6" else if minor =? 5 then "3.5" else "3.4".

Definition deviceNameOf (mPreferredHal3MinorVersion cameraIdOffset : Z) (devName : string)
    : string :=
  let cameraId :=
    to_string (offset_add abi cameraIdOffset (atoi abi (advance kDevicePrefixLen devName))) in
  if mPreferredHal3MinorVersion =? 6 then "device@3.6/external/" +:+ cameraId
  else if mPreferredHal3MinorVersion =? 5 then "device@3.5/external/" +:+ cameraId
  else "device@3.4/external/" +:+ cameraId.

Definition addExternalCamera (devName : string) : Prog unit :=
  emit (ALOGI ("ExtCam: adding " +:+ devName +:+ " to External Camera HAL!"));;
  p ← get;
  let deviceName := deviceNameOf (mPreferredHal3MinorVersion p) (cameraIdOffset (mCfg p)) devName in
  modify (set_mCameraStatusMap (insert deviceName PRESENT));;
  match mCallbacks p with
  | Some cb => emit (cameraDeviceStatusChange cb deviceName PRESENT)
  | None => mret tt
  end.

Definition deviceAdded (w : World) (devName : string) : Prog unit :=
  emit (sys_open devName O_RDWR);;
  if negb (open_ok w devName O_RDWR)
  then emit (ALOGE ("deviceAdded open v4l2 device " +:+ devName +:+ " failed"))
  else
    emit (sys_ioctl devName VIDIOC_QUERYCAP);;
    match ioctl_querycap w devName with
    | None => emit (ALOGE ("deviceAdded v4l2 QUERYCAP " +:+ devName +:+ " failed"))
    | Some capability =>
        if negb (has_bits (device_caps capability)
                          (Z.lor V4L2_CAP_VIDEO_CAPTURE V4L2_CAP_VIDEO_CAPTURE_MPLANE))
        then emit (ALOGW ("deviceAdded device " +:+ devName +:+ " does not support VIDEO_CAPTURE"))
        else
          emit (new_ExternalCameraDevice Device_3_4 devName);;
          match make_device w Device_3_4 devName with
          | None =>
              emit (ALOGW ("deviceAdded: Attempt to init camera device " +:+ devName +:+ " failed!"))
          | Some deviceImpl =>
              if isInitFailed deviceImpl
              then emit (ALOGW ("deviceAdded: Attempt to init camera device " +:+ devName +:+ " failed!"))
              else addExternalCamera devName
          end
    end.

Definition deviceRemoved (devName : string) : Prog unit :=
  p ← get;
  let deviceName := deviceNameOf (mPreferredHal3MinorVersion p) (cameraIdOffset (mCfg p)) devName in
  if bool_decide (is_Some (mCameraStatusMap p !! deviceName)) then
    modify (set_mCameraStatusMap (delete deviceName));;
    match mCallbacks p with
    | Some cb => emit (cameraDeviceStatusChange cb deviceName NOT_PRESENT)
    | None => mret tt
    end
  else emit (ALOGE ("deviceRemoved: cannot find camera device " +:+ devName)).

Definition snprintf_path (d_name : string) : string :=
  string_of_list_ascii
    (take (kMaxDevicePathLen - 1) (list_ascii_of_string (kDevicePathStr +:+ d_name))).

Definition sprintf_sysclass (d_name : string) : string :=
  "/sys/class/video4linux/" +:+ d_name +:+ "/name".

Definition isExternalDevice (w : World) (devName sysClassName : string)
    (isHdmiRx : option bool) : Prog (bool * option bool) :=
  let isHdmiRx := match isHdmiRx with Some _ => Some false | None => None end in
  emit (sys_open devName (Z.lor O_RDWR O_NONBLOCK));;
  if negb (open_ok w devName (Z.lor O_RDWR O_NONBLOCK))
  then emit (ALOGE ("isExternalDevice open dev path:" +:+ devName +:+ " failed"));;
       mret (false, isHdmiRx)
  else
    emit (sys_ioctl devName VIDIOC_QUERYCAP);;
    match ioctl_querycap w devName with
    | None =>
        emit (ALOGE ("isExternalDevice QUERYCAP dev path:" +:+ devName +:+ " failed"));;
        mret (false, isHdmiRx)
    | Some vidCap =>
        if strstr (driver vidCap) "uvc" then
          emit (sys_ioctl devName VIDIOC_ENUM_FMT);;
          if ioctl_enum_fmt_ok w devName then mret (true, isHdmiRx)
          else
            emit (ALOGE ("Although " +:+ devName
                         +:+ " driver name has uvc, but it's a uvc meta device"));;
            mret (false, isHdmiRx)
        else if strstr (driver vidCap) "cap" then
          let propName := "mxc_isi.6.capture" in
          emit (sys_ReadFileToString sysClassName);;
          match ReadFileToString w sysClassName with
          | None => emit (ALOGE "can't read video device name");; mret (false, isHdmiRx)
          | Some buffer =>
              if compare_prefix propName buffer
              then mret (true, match isHdmiRx with Some _ => Some true | None => None end)
              else mret (false, isHdmiRx)
          end
        else mret (false, isHdmiRx)
    end.

(** *** HotplugThread::threadLoop *)

(** The readdir loop over the nodes that exist before watching starts. *)
Fixpoint scan_entries (w : World) (entries : list string) : Prog unit :=
  match entries with
  | [] => mret tt
  | d_name :: rest =>
      (if has_prefix kPrefix d_name then
         let deviceId := advance kPrefixLen d_name in
         p ← get;
         if bool_decide (deviceId ∈ t_mInternalDevices (mHotPlugThread p)) then mret tt
         else
           let v4l2DevicePath := snprintf_path d_name in
           let mCamDevice := sprintf_sysclass d_name in
           '(ext, _) ← isExternalDevice w v4l2DevicePath mCamDevice None;
           if ext : bool then deviceAdded w v4l2DevicePath else mret tt
       else mret tt);;
      scan_entries w rest
  end.

(** threadLoop up to the watch loop: [Some b] when it returns [b] before
    watching, [None] when it goes on to watch. *)
Definition threadLoop_begin (w : World) : Prog (option bool) :=
  emit (sys_opendir kDevicePathStr);;
  match dev_entries w with
  | None =>
      emit (ALOGE "threadLoop: cannot open /dev/! Exiting threadloop");;
      mret (Some false)
  | Some entries =>
      scan_entries w entries;;
      emit sys_inotify_init;;
      modify (set_mHotPlugThread (fun t =>
        {| t_mInternalDevices := t_mInternalDevices t;
           mINotifyFD := inotify_init_ret w; mWd := mWd t |}));;
      if inotify_init_ret w <? 0
      then emit (ALOGE "threadLoop: inotify init failed! Exiting threadloop");;
           mret (Some true)
      else
        emit (sys_inotify_add_watch kDevicePathStr (Z.lor IN_CREATE IN_DELETE));;
        modify (set_mHotPlugThread (fun t =>
          {| t_mInternalDevices := t_mInternalDevices t;
             mINotifyFD := mINotifyFD t; mWd := inotify_add_watch_ret w |}));;
        if inotify_add_watch_ret w <? 0
        then emit (ALOGE "threadLoop: inotify add watch failed! Exiting threadloop");;
             mret (Some true)
        else
          emit (ALOGI "threadLoop start monitoring new V4L2 devices");;
          mret None
  end.

Fixpoint cec_scan (w : World) (entries : list string) (mHdmiRxNode : list ascii)
    : Prog (list ascii) :=
  match entries with
  | [] => mret mHdmiRxNode
  | d_name :: rest =>
      if has_prefix kPrefix d_name then
        let v4l2DevicePath := snprintf_path d_name in
        let mCamDevice := sprintf_sysclass d_name in
        emit (sys_usleep 800000);;
        '(ext, isHdmiRx) ← isExternalDevice w v4l2DevicePath mCamDevice (Some false);
        if (ext : bool) && default false isHdmiRx then
          let mHdmiRxNode' := strncpy_strlen mHdmiRxNode v4l2DevicePath in
          deviceAdded w v4l2DevicePath;;
          emit (ALOGI ("threadLoop: add mHdmiRxNode------:" +:+ c_str mHdmiRxNode'));;
          mret mHdmiRxNode'
        else cec_scan w rest mHdmiRxNode
      else cec_scan w rest mHdmiRxNode
  end.

Definition video_event (w : World) (event : inotify_event) : Prog unit :=
  let deviceId := advance kPrefixLen (name event) in
  p ← get;
  if bool_decide (deviceId ∈ t_mInternalDevices (mHotPlugThread p)) then mret tt
  else
    let v4l2DevicePath := snprintf_path (name event) in
    let mCamDevice := sprintf_sysclass (name event) in
    (if has_bits (mask event) IN_CREATE then
       emit (sys_usleep 100000);;
       '(ext, _) ← isExternalDevice w v4l2DevicePath mCamDevice None;
       if ext : bool then deviceAdded w v4l2DevicePath else mret tt
     else mret tt);;
    if has_bits (mask event) IN_DELETE then deviceRemoved v4l2DevicePath else mret tt.

Definition cec_event (w : World) (event : inotify_event) (mHdmiRxNode : list ascii)
    : Prog (option (list ascii)) :=
  if has_bits (mask event) IN_CREATE then
    emit (sys_opendir kDevicePathStr);;
    match dev_entries w with
    | None =>
        emit (ALOGE "threadLoop: cannot open /dev/! Exiting threadloop");;
        mret None
    | Some entries =>
        buf ← cec_scan w entries mHdmiRxNode;
        mret (Some buf)
    end
  else if has_bits (mask event) IN_DELETE then
    deviceRemoved (c_str mHdmiRxNode);;
    emit (ALOGI ("threadLoop: rmv mHdmiRxNode-------:" +:+ c_str mHdmiRxNode));;
    mret (Some mHdmiRxNode)
  else mret (Some mHdmiRxNode).

(** The inner while loop over the records of one read: [None] when
    threadLoop returns false from inside it, otherwise [mHdmiRxNode]
    afterwards. *)
Fixpoint event_loop (w : World) (events : list inotify_event) (mHdmiRxNode : list ascii)
    : Prog (option (list ascii)) :=
  match events with
  | [] => mret (Some mHdmiRxNode)
  | event :: rest =>
      p ← get;
      if wd event =? mWd (mHotPlugThread p) then
        emit (ALOGI ("threadLoop: hot-plug event->name:" +:+ name event));;
        r ← (if has_prefix kPrefix (name event) then
               video_event w event;; mret (Some mHdmiRxNode)
             else if has_prefix "cec" (name event) then cec_event w event mHdmiRxNode
             else mret (Some mHdmiRxNode));
        match r with
        | None => mret None
        | Some mHdmiRxNode' => event_loop w rest mHdmiRxNode'
        end
      else event_loop w rest mHdmiRxNode
  end.

(** One iteration of [while (!done)]: a read and its records. *)
Definition watch_iteration (w : World) (mHdmiRxNode : list ascii)
    : Prog (option (list ascii)) :=
  emit sys_read;;
  match read_events w with
  | None => mret (Some mHdmiRxNode)
  | Some events => event_loop w events mHdmiRxNode
  end.

(** [done] is never set: the watch loop runs for as long as there are
    reads, one world for each; [None] while it is still running. *)
Fixpoint watch_loop (ws : list World) (mHdmiRxNode : list ascii) : Prog (option bool) :=
  match ws with
  | [] => mret None
  | w :: ws' =>
      r ← watch_iteration w mHdmiRxNode;
      match r with
      | None => mret (Some false)
      | Some mHdmiRxNode' => watch_loop ws' mHdmiRxNode'
      end
  end.

(** threadLoop: the initial scan under [w0], then the watch loop.
    [mHdmiRxNode] is a local array, not initialised: [stack] is what the
    frame holds when the function is entered. *)
Definition threadLoop (w0 : World) (ws : list World) (stack : list ascii)
    : Prog (option bool) :=
  r ← threadLoop_begin w0;
  match r with
  | Some b => mret (Some b)
  | None => watch_loop ws stack
  end.

End Build.
End Hidl.

(** ** Runs of the AIDL provider *)

Module AidlRun.
Import CLib Sys Aidl.

(** The calls that reach a provider object: the ICameraProvider methods
    from the camera service, threadLoop from the hot-plug thread, and the
    member functions the thread calls. *)
Inductive Call :=
| call_setCallback (in_callback : option Callback)
| call_getVendorTags (_aidl_return : option (list string))
| call_getCameraIdList (_aidl_return : option (list string))
| call_getCameraDeviceInterface (w : World) (in_cameraDeviceName : string)
    (_aidl_return : option (option ExternalCameraDevice))
| call_notifyDeviceStateChange (newState : Z)
| call_getConcurrentCameraIds (_aidl_return : option (list (list string)))
| call_isConcurrentStreamCombinationSupported (_aidl_return : option bool)
| call_threadLoop (w : World) (stack : list ascii)
| call_updateAttachedCameras (w : World)
| call_deviceAdded (w : World) (devName : string)
| call_deviceRemoved (devName : string)
| call_addExternalCamera (devName : string).

(** No entry of the status map holds anything but PRESENT. *)
Definition no_tombstone (p : ExternalCameraProvider) : Prop :=
  forall id st, mCameraStatusMap p !! id = Some st -> st = PRESENT.

Section Build.
Variable abi : ABI.
Variable kDeviceVersion : string.

Definition exec (c : Call) (m : Machine ExternalCameraProvider)
    : Machine ExternalCameraProvider :=
  match c with
  | call_setCallback cb => snd (setCallback cb m)
  | call_getVendorTags out => snd (getVendorTags out m)
  | call_getCameraIdList out => snd (getCameraIdList out m)
  | call_getCameraDeviceInterface w n out => snd (getCameraDeviceInterface w n out m)
  | call_notifyDeviceStateChange st => snd (notifyDeviceStateChange st m)
  | call_getConcurrentCameraIds out => snd (getConcurrentCameraIds out m)
  | call_isConcurrentStreamCombinationSupported out =>
      snd (isConcurrentStreamCombinationSupported out m)
  | call_threadLoop w stack => snd (threadLoop abi kDeviceVersion w stack m)
  | call_updateAttachedCameras w => snd (updateAttachedCameras abi kDeviceVersion w m)
  | call_deviceAdded w d => snd (deviceAdded abi kDeviceVersion w d m)
  | call_deviceRemoved d => snd (deviceRemoved abi kDeviceVersion d m)
  | call_addExternalCamera d => snd (addExternalCamera abi kDeviceVersion d m)
  end.

(** The states a provider constructed with [cfg] can be in. *)
Inductive reachable (cfg : ExternalCameraConfig) : Machine ExternalCameraProvider -> Prop :=
| reach_construct : reachable cfg (start (construct cfg))
| reach_call m c : reachable cfg m -> reachable cfg (exec c m).
End Build.
End AidlRun.

(** ** What a subscriber sees, and what a node must answer *)

Module Observer.
Import CLib Sys.

(** What the receiver of cameraDeviceStatusChange calls makes of one call
    when it keeps a status map of its own: the status it is told, under the
    name it is told, and no entry for a name reported NOT_PRESENT. *)
Definition apply_notification (e : Effect) (view : gmap string CameraDeviceStatus)
    : gmap string CameraDeviceStatus :=
  match e with
  | cameraDeviceStatusChange _ deviceName NOT_PRESENT => delete deviceName view
  | cameraDeviceStatusChange _ deviceName st => <[deviceName := st]> view
  | _ => view
  end.

(** Its map after the calls of a trace, oldest first. *)
Definition subscriber_view (t : list Effect) (view : gmap string CameraDeviceStatus)
    : gmap string CameraDeviceStatus :=
  fold_left (fun v e => apply_notification e v) t view.

(** A callback call goes to [cb]; other effects go to nobody. *)
Definition addressed_to (cb : Callback) (e : Effect) : Prop :=
  match e with
  | cameraDeviceStatusChange cb' _ _ => cb' = cb
  | _ => True
  end.

(** Every run of a program relates the machine before to the machine
    after by [R]. *)
Definition steps {P A} (R : Machine P -> Machine P -> Prop) (c : Prog P A) : Prop :=
  forall m, R m (snd (c m)).

(** The capability test of deviceAdded, on the world: the node opens with
    O_RDWR, answers VIDIOC_QUERYCAP with one of the two capture bits, and a
    device object of class [cls] initialises on it. *)
Definition capture_ready (w : World) (cls : DeviceClass) (devName : string) : bool :=
  open_ok w devName O_RDWR
  && match ioctl_querycap w devName with
     | Some capability =>
         has_bits (device_caps capability)
                  (Z.lor V4L2_CAP_VIDEO_CAPTURE V4L2_CAP_VIDEO_CAPTURE_MPLANE)
     | None => false
     end
  && negb (construction_fails w cls devName).

(** The system calls deviceAdded makes on a node that passes the test. *)
Definition capture_probe (cls : DeviceClass) (devName : string) : list Effect :=
  [sys_open devName O_RDWR; sys_ioctl devName VIDIOC_QUERYCAP;
   new_ExternalCameraDevice cls devName].

End Observer.

Module AidlSpec.
Import CLib Sys Aidl AidlRun Observer.

(** The decision of Aidl.isExternalDevice as a function of the world: the
    value it returns, and what it leaves in *isHdmiRx. *)
Definition classify (w : World) (devName sysClassName : string) : bool * bool :=
  match ReadFileToString w sysClassName with
  | None => (false, false)
  | Some video_name =>
      if is_codec_name video_name then (false, false)
      else if negb (open_ok w devName (Z.lor O_RDWR O_NONBLOCK)) then (false, false)
      else
        match ioctl_querycap w devName with
        | None => (false, false)
        | Some vidCap =>
            if strstr (driver vidCap) "uvc" then (ioctl_enum_fmt_ok w devName, false)
            else if strstr (driver vidCap) "cap"
            then (compare_prefix "mxc_isi.6.capture" video_name,
                  compare_prefix "mxc_isi.6.capture" video_name)
            else (false, false)
        end
  end.

(** The directory entry [d_name] is one the initial scan registers: a
    video node, not internal, external, and ready for capture. *)
Definition scan_registers (w : World) (cfg : ExternalCameraConfig) (d_name : string) : bool :=
  has_prefix kPrefix d_name
  && negb (bool_decide (advance kPrefixLen d_name ∈ mInternalDevices cfg))
  && fst (classify w (snprintf_path d_name) (sprintf_sysclass d_name))
  && capture_ready w Device_aidl (snprintf_path d_name).

(** The directory entry [d_name] is one the rescan after a cec CREATE
    takes for the HDMI receiver. *)
Definition is_receiver (w : World) (d_name : string) : bool :=
  has_prefix kPrefix d_name
  && fst (classify w (snprintf_path d_name) (sprintf_sysclass d_name))
  && snd (classify w (snprintf_path d_name) (sprintf_sysclass d_name)).

(** The callback is the same before and after, and what was added to the
    trace was addressed to it and tells it how the status map changed;
    with no callback, nothing was delivered. *)
Definition delivered (m m' : Machine ExternalCameraProvider) : Prop :=
  mCfg (object m') = mCfg (object m)
  /\ mCallback (object m') = mCallback (object m)
  /\ exists t, trace m' = (trace m ++ t)%list
       /\ match mCallback (object m) with
          | Some cb =>
              Forall (addressed_to cb) t
              /\ subscriber_view t (mCameraStatusMap (object m))
                 = mCameraStatusMap (object m')
          | None => notifications t = []
          end.

Definition is_setCallback (c : Call) : bool :=
  match c with call_setCallback _ => true | _ => false end.

(** The two system calls by which initialize sets up the watch. *)
Definition is_inotify_setup (e : Effect) : bool :=
  match e with
  | sys_inotify_init | sys_inotify_add_watch _ _ => true
  | _ => false
  end.

(** The hot-plug thread's members are as before, and what was added to the
    trace sets up no watch. *)
Definition keeps_watch (m m' : Machine ExternalCameraProvider) : Prop :=
  mHotPlugThread (object m') = mHotPlugThread (object m)
  /\ exists t, trace m' = (trace m ++ t)%list
       /\ forallb (fun e => negb (is_inotify_setup e)) t = true.

End AidlSpec.

(** ** Runs of the HIDL provider *)

Module HidlRun.
Import CLib Sys Hidl.

(** The calls that reach a provider object: the ICameraProvider methods,
    threadLoop from the hot-plug thread, and the member functions the
    thread calls. *)
Inductive Call :=
| call_setCallback (callback : option Callback)
| call_getVendorTags
| call_getCameraIdList
| call_isSetTorchModeSupported
| call_getCameraDeviceInterface_V1_x (cameraDeviceName : string)
| call_getCameraDeviceInterface_V3_x (w : World) (cameraDeviceName : string)
| call_threadLoop (w0 : World) (ws : list World) (stack : list ascii)
| call_deviceAdded (w : World) (devName : string)
| call_deviceRemoved (devName : string)
| call_addExternalCamera (devName : string).

Definition is_setCallback (c : Call) : bool :=
  match c with call_setCallback _ => true | _ => false end.

(** No entry of the status map holds anything but PRESENT. *)
Definition no_tombstone (p : ExternalCameraProviderImpl_2_4) : Prop :=
  forall id st, mCameraStatusMap p !! id = Some st -> st = PRESENT.

Section Build.
Variable abi : ABI.

Definition exec (c : Call) (m : Machine ExternalCameraProviderImpl_2_4)
    : Machine ExternalCameraProviderImpl_2_4 :=
  match c with
  | call_setCallback cb => snd (setCallback cb m)
  | call_getVendorTags => snd (getVendorTags m)
  | call_getCameraIdList => snd (getCameraIdList m)
  | call_isSetTorchModeSupported => snd (isSetTorchModeSupported m)
  | call_getCameraDeviceInterface_V1_x n => snd (getCameraDeviceInterface_V1_x n m)
  | call_getCameraDeviceInterface_V3_x w n => snd (getCameraDeviceInterface_V3_x w n m)
  | call_threadLoop w0 ws stack => snd (threadLoop abi w0 ws stack m)
  | call_deviceAdded w d => snd (deviceAdded abi w d m)
  | call_deviceRemoved d => snd (deviceRemoved abi d m)
  | call_addExternalCamera d => snd (addExternalCamera abi d m)
  end.

(** The states of a provider constructed with [cfg] when the system
    property reads [hal3TrebleMinorVersion]. *)
Inductive reachable (cfg : ExternalCameraConfig) (hal3TrebleMinorVersion : Z)
    : Machine ExternalCameraProviderImpl_2_4 -> Prop :=
| reach_construct : reachable cfg hal3TrebleMinorVersion
                      (start (construct cfg hal3TrebleMinorVersion))
| reach_call m c : reachable cfg hal3TrebleMinorVersion m ->
                   reachable cfg hal3TrebleMinorVersion (exec c m).

(** A name of the form the provider gives a node: its preferred version
    and the decimal form of an int or, when the offset is declared
    unsigned, of a uint32_t. *)
Definition formed (minor : Z) (deviceName : string) : Prop :=
  exists n, INT_MIN <= n < 2 ^ 32
            /\ (cameraIdOffset_unsigned abi = false -> n <= INT_MAX)
            /\ deviceName = "device@" +:+ version_2_4 minor +:+ "/external/" +:+ to_string n.

(** What a run of the provider keeps and delivers: configuration,
    preferred minor version, internal devices and callback are as before;
    a status map without tombstones stays so, and gains only names the
    provider formed; and what was added to the trace was addressed to the
    callback and tells it how the status map changed, or, with no
    callback, holds no callback call. *)
Definition delivered (m m' : Machine ExternalCameraProviderImpl_2_4) : Prop :=
  mCfg (object m') = mCfg (object m)
  /\ mPreferredHal3MinorVersion (object m') = mPreferredHal3MinorVersion (object m)
  /\ t_mInternalDevices (mHotPlugThread (object m'))
     = t_mInternalDevices (mHotPlugThread (object m))
  /\ mCallbacks (object m') = mCallbacks (object m)
  /\ (no_tombstone (object m) -> no_tombstone (object m'))
  /\ (forall key, is_Some (mCameraStatusMap (object m') !! key) ->
                  is_Some (mCameraStatusMap (object m) !! key)
                  \/ formed (mPreferredHal3MinorVersion (object m)) key)
  /\ exists t, trace m' = (trace m ++ t)%list
       /\ match mCallbacks (object m) with
          | Some cb =>
              Forall (Observer.addressed_to cb) t
              /\ Observer.subscriber_view t (mCameraStatusMap (object m))
                 = mCameraStatusMap (object m')
          | None => notifications t = []
          end.
End Build.

End HidlRun.

Module HidlSpec.
Import CLib Sys Hidl Observer.

(** The decision of Hidl.isExternalDevice as a function of the world: the
    value it returns, and what it leaves in *isHdmiRx. *)
Definition classify (w : World) (devName sysClassName : string) : bool * bool :=
  if negb (open_ok w devName (Z.lor O_RDWR O_NONBLOCK)) then (false, false)
  else
    match ioctl_querycap w devName with
    | None => (false, false)
    | Some vidCap =>
        if strstr (driver vidCap) "uvc" then (ioctl_enum_fmt_ok w devName, false)
        else if strstr (driver vidCap) "cap" then
          match ReadFileToString w sysClassName with
          | None => (false, false)
          | Some buffer =>
              (compare_prefix "mxc_isi.6.capture" buffer,
               compare_prefix "mxc_isi.6.capture" buffer)
          end
        else (false, false)
    end.

(** The directory entry [d_name] is one the scan at the start of
    threadLoop registers, [internal] being the thread's internal
    devices. *)
Definition scan_registers (w : World) (internal : gset string) (d_name : string) : bool :=
  has_prefix kPrefix d_name
  && negb (bool_decide (advance kPrefixLen d_name ∈ internal))
  && fst (classify w (snprintf_path d_name) (sprintf_sysclass d_name))
  && capture_ready w Device_3_4 (snprintf_path d_name).

End HidlSpec.

(** ** Concrete configurations, worlds and states *)

Module Examples.
Import CLib Sys.

(** Offset 2, and video0 an internal device. *)
Definition cfg : ExternalCameraConfig :=
  {| cameraIdOffset := 2; mInternalDevices := {[ "0" ]} |}.

(** A kernel in which nothing exists and every call fails. *)
Definition nothing : World :=
  {| ReadFileToString := fun _ => None;
     open_ok := fun _ _ => false;
     ioctl_querycap := fun _ => None;
     ioctl_enum_fmt_ok := fun _ => false;
     dev_entries := Some [];
     make_device := fun _ _ => None;
     inotify_init_ret := 3;
     inotify_add_watch_ret := 1;
     poll_ret := 0;
     poll_revents := 0;
     read_events := None |}.

(** /dev/video2 belongs to the hardware decoder, and answers every query
    the way a UVC camera would. *)
Definition codec_world : World :=
  {| ReadFileToString := fun path =>
       if String.eqb path "/sys/class/video4linux/video2/name"
       then Some "amphion-vpu-decoder" else None;
     open_ok := fun _ _ => true;
     ioctl_querycap := fun _ =>
       Some {| driver := "uvcvideo"; device_caps := V4L2_CAP_VIDEO_CAPTURE |};
     ioctl_enum_fmt_ok := fun _ => true;
     dev_entries := Some ["video2"];
     make_device := fun _ path => Some {| devicePath := path; isInitFailed := false |};
     inotify_init_ret := 3;
     inotify_add_watch_ret := 1;
     poll_ret := 0;
     poll_revents := 0;
     read_events := None |}.

(** Every device constructor leaves an object whose initialisation
    failed. *)
Definition failing_world : World :=
  {| ReadFileToString := fun _ => None;
     open_ok := fun _ _ => true;
     ioctl_querycap := fun _ => None;
     ioctl_enum_fmt_ok := fun _ => false;
     dev_entries := Some [];
     make_device := fun _ path => Some {| devicePath := path; isInitFailed := true |};
     inotify_init_ret := 3;
     inotify_add_watch_ret := 1;
     poll_ret := 0;
     poll_revents := 0;
     read_events := None |}.

(** The HDMI receiver is the only video node, [d_name], and a read of the
    inotify descriptor returns [events]. *)
Definition receiver_world (d_name : string) (events : list inotify_event) : World :=
  {| ReadFileToString := fun path =>
       if String.eqb path ("/sys/class/video4linux/" +:+ d_name +:+ "/name")
       then Some "mxc_isi.6.capture" else None;
     open_ok := fun _ _ => true;
     ioctl_querycap := fun _ =>
       Some {| driver := "mxc-isi-cap"; device_caps := V4L2_CAP_VIDEO_CAPTURE_MPLANE |};
     ioctl_enum_fmt_ok := fun _ => false;
     dev_entries := Some [d_name];
     make_device := fun _ path => Some {| devicePath := path; isInitFailed := false |};
     inotify_init_ret := 3;
     inotify_add_watch_ret := 1;
     poll_ret := 1;
     poll_revents := POLLIN;
     read_events := Some events |}.

Definition cec_created : inotify_event := {| wd := 1; mask := IN_CREATE; name := "cec0" |}.
Definition cec_deleted : inotify_event := {| wd := 1; mask := IN_DELETE; name := "cec0" |}.
Definition video0_created : inotify_event :=
  {| wd := -1; mask := IN_CREATE; name := "video0" |}.

(** A stack frame that happens to hold zeros. *)
Definition zero_frame : list ascii := List.repeat NUL kMaxDevicePathLen.

(** The AIDL provider with callback 1 attached, before and after
    /dev/video5 is added. *)
Definition attached : Machine Aidl.ExternalCameraProvider :=
  AidlRun.exec LP64 "3.4" (AidlRun.call_setCallback (Some 1%nat)) (start (Aidl.construct cfg)).
Definition present_once : Machine Aidl.ExternalCameraProvider :=
  AidlRun.exec LP64 "3.4" (AidlRun.call_addExternalCamera "/dev/video5") attached.

(** The same for the HIDL provider, device version 3.4. *)
Definition attached_2_4 : Machine Hidl.ExternalCameraProviderImpl_2_4 :=
  snd (Hidl.setCallback (Some 1%nat) (start (Hidl.construct cfg 4))).
Definition present_once_2_4 : Machine Hidl.ExternalCameraProviderImpl_2_4 :=
  snd (Hidl.addExternalCamera ILP32 "/dev/video5" attached_2_4).

(** Two nodes added, then the first removed: the AIDL provider after two
    PRESENT transitions and one NOT_PRESENT. *)
Definition two_added_one_removed : Machine Aidl.ExternalCameraProvider :=
  AidlRun.exec LP64 "3.4" (AidlRun.call_deviceRemoved "/dev/video5")
    (AidlRun.exec LP64 "3.4" (AidlRun.call_addExternalCamera "/dev/video6")
       (AidlRun.exec LP64 "3.4" (AidlRun.call_addExternalCamera "/dev/video5")
          (start (Aidl.construct cfg)))).

(** The HIDL hot-plug thread, callback 1 attached, over four reads: cec0 appears while the
    receiver is /dev/video10 and goes, then appears again while the
    receiver is /dev/video3 and goes. *)
Definition receiver_moves : option bool * Machine Hidl.ExternalCameraProviderImpl_2_4 :=
  Hidl.threadLoop ILP32 nothing
    [receiver_world "video10" [cec_created];
     receiver_world "video10" [cec_deleted];
     receiver_world "video3" [cec_created];
     receiver_world "video3" [cec_deleted]]
    zero_frame attached_2_4.

(** The same thread when the receiver stays /dev/video3. *)
Definition receiver_stays : option bool * Machine Hidl.ExternalCameraProviderImpl_2_4 :=
  Hidl.threadLoop ILP32 nothing
    [receiver_world "video3" [cec_created];
     receiver_world "video3" [cec_deleted]]
    zero_frame attached_2_4.

(** The AIDL thread: a first call of threadLoop initialises, a second
    handles the CREATE of cec0, a third, entered with [frame] in the
    place of mHdmiRxNode, its DELETE. *)
Definition aidl_create_then_delete (frame : list ascii)
    : bool * Machine Aidl.ExternalCameraProvider :=
  let m0 := snd (Aidl.threadLoop LP64 "3.4" nothing zero_frame (start (Aidl.construct cfg))) in
  let m1 := snd (Aidl.threadLoop LP64 "3.4" (receiver_world "video3" [cec_created])
                   zero_frame m0) in
  Aidl.threadLoop LP64 "3.4" (receiver_world "video3" [cec_deleted]) frame m1.

End Examples.

(** ** Further worlds and states *)

Module Scenarios.
Import CLib Sys.

(** /dev/ cannot be opened, and a read of the inotify descriptor returns
    [events]. *)
Definition no_dev_world (events : list inotify_event) : World :=
  {| ReadFileToString := fun _ => None;
     open_ok := fun _ _ => false;
     ioctl_querycap := fun _ => None;
     ioctl_enum_fmt_ok := fun _ => false;
     dev_entries := None;
     make_device := fun _ _ => None;
     inotify_init_ret := 3;
     inotify_add_watch_ret := 1;
     poll_ret := 1;
     poll_revents := POLLIN;
     read_events := Some events |}.

(** A UVC camera is the only video node, /dev/video3, and inotify_init
    fails. *)
Definition no_inotify_world : World :=
  {| ReadFileToString := fun _ => Some "USB Camera";
     open_ok := fun _ _ => true;
     ioctl_querycap := fun _ =>
       Some {| driver := "uvcvideo"; device_caps := V4L2_CAP_VIDEO_CAPTURE |};
     ioctl_enum_fmt_ok := fun _ => true;
     dev_entries := Some ["video3"];
     make_device := fun _ path => Some {| devicePath := path; isInitFailed := false |};
     inotify_init_ret := -1;
     inotify_add_watch_ret := -1;
     poll_ret := 0;
     poll_revents := 0;
     read_events := None |}.

(** The AIDL provider with callback 1 attached, after a first threadLoop
    that found /dev/ empty and set up its watch. *)
Definition watching : Machine Aidl.ExternalCameraProvider :=
  AidlRun.exec LP64 "3.4"
    (AidlRun.call_threadLoop Examples.nothing Examples.zero_frame) Examples.attached.

(** Calls that add /dev/video5, poll once more and remove the node. *)
Definition plug_and_unplug : list AidlRun.Call :=
  [AidlRun.call_addExternalCamera "/dev/video5";
   AidlRun.call_threadLoop Examples.nothing Examples.zero_frame;
   AidlRun.call_deviceRemoved "/dev/video5"].

(** The same for the HIDL provider, the thread seeing the receiver
    /dev/video3 appear with cec0. *)
Definition plug_and_unplug_2_4 : list HidlRun.Call :=
  [HidlRun.call_addExternalCamera "/dev/video5";
   HidlRun.call_threadLoop Examples.nothing
     [Examples.receiver_world "video3" [Examples.cec_created]] Examples.zero_frame;
   HidlRun.call_deviceRemoved "/dev/video5"].

End Scenarios.

(** * Facts about the library functions *)

Module CLibFacts.
Import CLib.

Lemma digit_char_spec d :
  0 <= d < 10 -> isdigit (digit_char d) = true /\ digit_value (digit_char d) = d.
Proof.
  intros Hd.
  assert (Hcases : d = 0 \/ d = 1 \/ d = 2 \/ d = 3 \/ d = 4 \/ d = 5 \/ d = 6 \/ d = 7
                   \/ d = 8 \/ d = 9) by lia.
  repeat (destruct Hcases as [-> | Hcases]; [split; reflexivity |]).
  subst d. split; reflexivity.
Qed.

Lemma code_range c : 0 <= code c < 256.
Proof.
  unfold code. pose proof (N_ascii_bounded c) as Hb. lia.
Qed.

Lemma isdigit_code c : isdigit c = true <-> 48 <= code c <= 57.
Proof. unfold isdigit. rewrite andb_true_iff, !Z.leb_le. tauto. Qed.

Lemma isdigit_not_space c : isdigit c = true -> isspace c = false.
Proof.
  rewrite isdigit_code. intros Hc. unfold isspace.
  apply orb_false_iff. split.
  - apply Z.eqb_neq. lia.
  - apply andb_false_iff. right. apply Z.leb_gt. lia.
Qed.

Lemma isdigit_not_sign c :
  isdigit c = true -> Ascii.eqb c "-" = false /\ Ascii.eqb c "+" = false.
Proof.
  rewrite isdigit_code. intros Hc.
  split; apply Ascii.eqb_neq; intros ->; unfold code in Hc; simpl in Hc; lia.
Qed.

Lemma isdigit_not_line_terminator c :
  isdigit c = true -> Regex.is_line_terminator c = false.
Proof.
  rewrite isdigit_code. intros Hc. unfold Regex.is_line_terminator.
  apply orb_false_iff. split; apply Z.eqb_neq; lia.
Qed.

(** What [to_digits] prepends reads back as the number. *)
Lemma to_digits_value fuel : forall n acc,
  0 < n < 10 ^ Z.of_nat fuel ->
  exists k, 0 <= k /\
    forall a, digits_value a (to_digits fuel n acc) = digits_value (a * 10 ^ k + n) acc.
Proof.
  induction fuel as [| fuel IH]; intros n acc Hn.
  - simpl in Hn. lia.
  - cbn [to_digits].
    pose proof (Z.mod_pos_bound n 10 ltac:(lia)) as Hmod.
    pose proof (Z.div_mod n 10 ltac:(lia)) as Hdiv.
    destruct (digit_char_spec (n mod 10) Hmod) as [Hdig Hval].
    destruct (Z.eqb_spec (n / 10) 0) as [Hz | Hnz].
    + exists 1. split; [lia |]. intros a. cbn [digits_value].
      rewrite Hdig, Hval. f_equal. lia.
    + assert (Hq : 0 < n / 10 < 10 ^ Z.of_nat fuel).
      { split.
        - pose proof (Z.div_pos n 10 ltac:(lia) ltac:(lia)). lia.
        - apply Z.div_lt_upper_bound; [lia |].
          rewrite Nat2Z.inj_succ, Z.pow_succ_r in Hn by lia. lia. }
      destruct (IH (n / 10) (String (digit_char (n mod 10)) acc) Hq) as (k & Hk & IHk).
      exists (k + 1). split; [lia |]. intros a. rewrite IHk. cbn [digits_value].
      rewrite Hdig, Hval. f_equal.
      rewrite Z.pow_add_r by lia. lia.
Qed.

Lemma to_digits_head fuel : forall n acc,
  0 <= n ->
  exists c rest, to_digits (S fuel) n acc = String c rest /\ isdigit c = true.
Proof.
  induction fuel as [| fuel IH]; intros n acc Hn.
  - cbn [to_digits].
    pose proof (Z.mod_pos_bound n 10 ltac:(lia)) as Hmod.
    destruct (digit_char_spec _ Hmod) as [Hdig _].
    destruct (n / 10 =? 0); eauto.
  - remember (S fuel) as f eqn:Hf. cbn [to_digits].
    pose proof (Z.mod_pos_bound n 10 ltac:(lia)) as Hmod.
    destruct (digit_char_spec _ Hmod) as [Hdig _].
    destruct (n / 10 =? 0); [eauto |].
    subst f. apply IH. apply Z.div_pos; lia.
Qed.

Lemma digits_bound_spec n : 0 <= n -> n < 10 ^ Z.of_nat (digits_bound n).
Proof.
  intros Hn. unfold digits_bound.
  rewrite Nat2Z.inj_succ, Z2Nat.id by apply Z.log2_nonneg.
  destruct (Z.eq_dec n 0) as [-> | Hnz]; [reflexivity |].
  pose proof (Z.log2_spec n ltac:(lia)) as [_ Hlt].
  eapply Z.lt_le_trans; [exact Hlt |].
  apply Z.pow_le_mono_l. pose proof (Z.log2_nonneg n). lia.
Qed.

Lemma digits_value_to_digits n :
  0 <= n -> digits_value 0 (to_digits (digits_bound n) n "") = n.
Proof.
  intros Hn. destruct (Z.eq_dec n 0) as [-> | Hnz]; [reflexivity |].
  destruct (to_digits_value (digits_bound n) n "") as (k & _ & Hk).
  { split; [lia | apply digits_bound_spec; lia]. }
  rewrite Hk. reflexivity.
Qed.

Lemma strtol_exact_digits s :
  starts_with_digit s = true -> strtol_exact s = Some (digits_value 0 s).
Proof.
  destruct s as [| c s]; [discriminate |]. cbn [starts_with_digit]. intros Hc.
  unfold strtol_exact. cbn [skip_space]. rewrite (isdigit_not_space c Hc).
  unfold split_sign. destruct (isdigit_not_sign c Hc) as [-> ->].
  cbn [starts_with_digit]. rewrite Hc. reflexivity.
Qed.

Lemma strtol_exact_minus s :
  starts_with_digit s = true -> strtol_exact (String "-" s) = Some (- digits_value 0 s).
Proof.
  intros Hs. unfold strtol_exact.
  change (skip_space (String "-" s)) with (String "-" s).
  change (split_sign (String "-" s)) with (true, s).
  cbv beta iota. rewrite Hs. reflexivity.
Qed.

Lemma to_digits_starts_with_digit n :
  0 <= n -> starts_with_digit (to_digits (digits_bound n) n "") = true.
Proof.
  intros Hn. unfold digits_bound.
  destruct (to_digits_head (Z.to_nat (Z.log2 n)) n "" Hn) as (c & rest & -> & Hc).
  exact Hc.
Qed.

Lemma strtol_exact_to_string n : strtol_exact (to_string n) = Some n.
Proof.
  unfold to_string. destruct (Z.ltb_spec n 0) as [Hneg | Hpos].
  - rewrite strtol_exact_minus by (apply to_digits_starts_with_digit; lia).
    rewrite digits_value_to_digits by lia. f_equal. lia.
  - rewrite strtol_exact_digits by (apply to_digits_starts_with_digit; lia).
    rewrite digits_value_to_digits by lia. reflexivity.
Qed.

Lemma int_cast_id z : INT_MIN <= z <= INT_MAX -> int_cast z = z.
Proof.
  unfold INT_MIN, INT_MAX, int_cast. intros Hz.
  rewrite Z.mod_small by lia. lia.
Qed.

Lemma int_cast_range z : INT_MIN <= int_cast z <= INT_MAX.
Proof.
  unfold INT_MIN, INT_MAX, int_cast.
  pose proof (Z.mod_pos_bound (z + 2 ^ 31) (2 ^ 32) ltac:(lia)). lia.
Qed.

(** std::stoi reads back what std::to_string printed. *)
Lemma stoi_to_string n : INT_MIN <= n <= INT_MAX -> stoi (to_string n) = inr n.
Proof.
  intros Hn. unfold stoi. rewrite strtol_exact_to_string.
  destruct (Z.leb_spec INT_MIN n); [| lia].
  destruct (Z.leb_spec n INT_MAX); [| lia]. reflexivity.
Qed.

(** So does atoi, on a target whose [long] is at least as wide as [int]. *)
Lemma atoi_to_string abi n :
  32 <= long_bits abi -> INT_MIN <= n <= INT_MAX -> atoi abi (to_string n) = n.
Proof.
  intros Habi Hn. unfold atoi, strtol. rewrite strtol_exact_to_string.
  assert (Hpow : 2 ^ 31 <= 2 ^ (long_bits abi - 1)) by (apply Z.pow_le_mono_r; lia).
  unfold INT_MIN, INT_MAX in Hn.
  unfold clamp. rewrite Z.min_r, Z.max_r by lia.
  apply int_cast_id. unfold INT_MIN, INT_MAX. lia.
Qed.

(** The characters [to_digits] prepends are digits. *)
Lemma string_forall_to_digits (P : ascii -> bool) fuel : forall n acc,
  (forall c, isdigit c = true -> P c = true) ->
  Regex.string_forall P (to_digits fuel n acc) = Regex.string_forall P acc.
Proof.
  induction fuel as [| fuel IH]; intros n acc HP; [reflexivity |].
  cbn [to_digits].
  pose proof (Z.mod_pos_bound n 10 ltac:(lia)) as Hmod.
  destruct (digit_char_spec _ Hmod) as [Hdig _].
  assert (Hstep : Regex.string_forall P (String (digit_char (n mod 10)) acc)
                  = Regex.string_forall P acc).
  { cbn [Regex.string_forall]. now rewrite (HP _ Hdig). }
  destruct (n / 10 =? 0); [exact Hstep |]. rewrite IH by exact HP. exact Hstep.
Qed.

Lemma to_string_any_char n :
  Regex.all_any_char (to_string n) = true /\ Regex.is_empty (to_string n) = false.
Proof.
  assert (HP : forall c, isdigit c = true -> Regex.any_char c = true).
  { intros c Hc. unfold Regex.any_char. now rewrite (isdigit_not_line_terminator c Hc). }
  unfold Regex.all_any_char, to_string. destruct (n <? 0) eqn:Hsign.
  - split; [| reflexivity]. cbn [Regex.string_forall].
    rewrite string_forall_to_digits by exact HP. reflexivity.
  - split; [rewrite string_forall_to_digits by exact HP; reflexivity |].
    unfold digits_bound.
    destruct (to_digits_head (Z.to_nat (Z.log2 n)) n "") as (c & rest & -> & _).
    + apply Z.ltb_ge in Hsign. exact Hsign.
    + reflexivity.
Qed.

(** std::to_string prints digits, after a minus sign for a negative
    number, and nothing else. *)
Lemma to_string_chars n :
  Regex.string_forall (fun c => isdigit c || Ascii.eqb c "-") (to_string n) = true.
Proof.
  assert (HP : forall c, isdigit c = true -> isdigit c || Ascii.eqb c "-" = true).
  { intros c ->. reflexivity. }
  unfold to_string. destruct (n <? 0).
  - cbn [Regex.string_forall]. rewrite string_forall_to_digits by exact HP. reflexivity.
  - rewrite string_forall_to_digits by exact HP. reflexivity.
Qed.

End CLibFacts.

(** * The matcher against the pattern *)

Module RegexFacts.
Import Regex.

(** The two equations of string concatenation. *)
Lemma app_cons x (a b : string) : String x a +:+ b = String x (a +:+ b).
Proof. reflexivity. Qed.

Lemma app_nil_l (b : string) : "" +:+ b = b.
Proof. reflexivity. Qed.

Ltac str_simpl := rewrite ?app_cons, ?app_nil_l in *.

Lemma app_assoc (a b c : string) : (a +:+ b) +:+ c = a +:+ (b +:+ c).
Proof. induction a as [| x a IH]; [reflexivity |]. str_simpl. now rewrite IH. Qed.

Lemma app_nil_r (a : string) : a +:+ "" = a.
Proof. induction a as [| x a IH]; [reflexivity |]. str_simpl. now rewrite IH. Qed.

Lemma is_empty_spec s : is_empty s = true <-> s = "".
Proof. destruct s; cbn; split; congruence. Qed.

Lemma is_empty_false s : is_empty s = false <-> s <> "".
Proof. destruct s; cbn; split; congruence. Qed.

Lemma strip_prefix_spec p : forall s r, strip_prefix p s = Some r <-> s = p +:+ r.
Proof.
  induction p as [| a p IH]; intros s r; cbn [strip_prefix]; str_simpl.
  - destruct s; split; congruence.
  - destruct s as [| b s]; [split; discriminate |].
    destruct (Ascii.eqb_spec a b) as [-> | Hne].
    + rewrite IH. split; [intros ->; reflexivity | intros [= ->]; reflexivity].
    + split; [discriminate | intros [= Hab _]; congruence].
Qed.

Lemma strip_prefix_app p r : strip_prefix p (p +:+ r) = Some r.
Proof. now apply strip_prefix_spec. Qed.

Lemma string_forall_app P a b :
  string_forall P (a +:+ b) = string_forall P a && string_forall P b.
Proof.
  induction a as [| x a IH]; [reflexivity |]. str_simpl. cbn [string_forall].
  rewrite IH. apply andb_assoc.
Qed.

(** [span_digits] splits at the first character that is not a digit. *)
Lemma span_digits_spec s :
  s = fst (span_digits s) +:+ snd (span_digits s)
  /\ all_digits (fst (span_digits s)) = true
  /\ CLib.starts_with_digit (snd (span_digits s)) = false.
Proof.
  induction s as [| c s (IH1 & IH2 & IH3)]; [repeat split |].
  cbn [span_digits]. destruct (CLib.isdigit c) eqn:Hc; cbn [fst snd].
  - repeat split.
    + str_simpl. now rewrite <- IH1.
    + unfold all_digits in *. cbn [string_forall]. now rewrite Hc, IH2.
    + exact IH3.
  - repeat split. cbn [CLib.starts_with_digit]. exact Hc.
Qed.

Lemma span_digits_app d : forall r,
  all_digits d = true -> CLib.starts_with_digit r = false ->
  span_digits (d +:+ r) = (d, r).
Proof.
  induction d as [| c d IH]; intros r Hd Hr.
  - str_simpl. destruct r as [| c r]; [reflexivity |].
    cbn [CLib.starts_with_digit] in Hr. cbn [span_digits]. now rewrite Hr.
  - unfold all_digits in Hd. cbn [string_forall] in Hd.
    apply andb_true_iff in Hd as [Hc Hd].
    str_simpl. cbn [span_digits]. rewrite Hc, (IH r Hd Hr). reflexivity.
Qed.

(** One or more characters of a class. *)
Section CharClass.
Variable atom : regex.
Variable P : ascii -> bool.
Hypothesis atom_spec : forall s, matches atom s <-> exists c, s = String c "" /\ P c = true.

Lemma matches_plus_class s :
  matches (Plus atom) s <-> s <> "" /\ string_forall P s = true.
Proof.
  split.
  - intros Hm. remember (Plus atom) as r eqn:Hr.
    induction Hm as [| | | | r s Hs _ | r s1 s2 Hs1 _ Hs2 IH]; try discriminate.
    + injection Hr as ->. apply atom_spec in Hs as (c & -> & Hc).
      split; [discriminate | cbn [string_forall]; now rewrite Hc].
    + injection Hr as ->. apply atom_spec in Hs1 as (c & -> & Hc).
      destruct (IH eq_refl) as [_ Hall].
      split; [discriminate | str_simpl; cbn [string_forall]; now rewrite Hc, Hall].
  - intros [Hne Hall]. induction s as [| c s IH]; [congruence |].
    cbn [string_forall] in Hall. apply andb_true_iff in Hall as [Hc Hall].
    assert (Hone : matches atom (String c "")) by (apply atom_spec; eauto).
    destruct s as [| c' s'].
    + now apply m_plus_one.
    + change (String c (String c' s')) with (String c "" +:+ String c' s').
      apply m_plus_more; [exact Hone | apply IH; [discriminate | exact Hall]].
Qed.
End CharClass.

Lemma matches_digit s : matches Digit s <-> exists c, s = String c "" /\ CLib.isdigit c = true.
Proof.
  split.
  - inversion 1; subst; eauto.
  - intros (c & -> & Hc). now constructor.
Qed.

Lemma matches_anychar s :
  matches AnyChar s <-> exists c, s = String c "" /\ any_char c = true.
Proof.
  unfold any_char. split.
  - inversion 1 as [| | c Hc | | |]; subst. exists c. now rewrite Hc.
  - intros (c & -> & Hc). constructor. now apply negb_true_iff.
Qed.

Lemma matches_digits s : matches (Plus Digit) s <-> s <> "" /\ all_digits s = true.
Proof. apply matches_plus_class, matches_digit. Qed.

Lemma matches_id s : matches re_id s <-> s <> "" /\ all_any_char s = true.
Proof. apply matches_plus_class, matches_anychar. Qed.

Lemma matches_cat r1 r2 s :
  matches (Cat r1 r2) s <-> exists s1 s2, s = s1 +:+ s2 /\ matches r1 s1 /\ matches r2 s2.
Proof.
  split.
  - inversion 1; subst; eauto.
  - intros (s1 & s2 & -> & H1 & H2). now constructor.
Qed.

Lemma matches_chr c s : matches (Chr c) s <-> s = String c "".
Proof.
  split.
  - inversion 1; subst; reflexivity.
  - intros ->. constructor.
Qed.

Lemma matches_lit p : forall k s, matches (Lit p k) s <-> exists r, s = p +:+ r /\ matches k r.
Proof.
  induction p as [| c p IH]; intros k s; cbn [Lit].
  - split; [eauto | intros (r & -> & Hr); exact Hr].
  - rewrite matches_cat. split.
    + intros (s1 & s2 & -> & H1 & H2). apply matches_chr in H1 as ->.
      apply IH in H2 as (r & -> & Hr). eauto.
    + intros (r & -> & Hr). exists (String c ""), (p +:+ r).
      repeat split; [constructor | apply IH; eauto].
Qed.

Lemma matches_version v :
  matches re_version v <->
  exists major minor, v = major +:+ "." +:+ minor
    /\ major <> "" /\ all_digits major = true
    /\ minor <> "" /\ all_digits minor = true.
Proof.
  unfold re_version. rewrite matches_cat. split.
  - intros (major & rest & -> & Hmaj & Hrest).
    apply matches_cat in Hrest as (dot & minor & -> & Hdot & Hmin).
    apply matches_chr in Hdot as ->.
    apply matches_digits in Hmaj as [? ?]. apply matches_digits in Hmin as [? ?].
    exists major, minor. auto.
  - intros (major & minor & -> & ? & ? & ? & ?).
    exists major, ("." +:+ minor). repeat split.
    + now apply matches_digits.
    + apply matches_cat. exists ".", minor. repeat split; [constructor |].
      now apply matches_digits.
Qed.

(** regex_match succeeds exactly on the strings of the pattern, and its
    two sub-matches are the version and the id. *)
Lemma regex_match_spec s v id :
  regex_match s = Some (v, id) <->
  s = "device@" +:+ v +:+ "/external/" +:+ id /\ matches re_version v /\ matches re_id id.
Proof.
  split.
  - unfold regex_match. intros Hm.
    destruct (strip_prefix "device@" s) as [r0 |] eqn:H0; [| discriminate].
    apply strip_prefix_spec in H0. subst s.
    destruct (span_digits_spec r0) as (Hr0 & Hmaj & _).
    destruct (span_digits r0) as [major r1]. cbn [fst snd] in *.
    destruct (is_empty major) eqn:Hemaj; [discriminate |].
    destruct (strip_prefix "." r1) as [r2 |] eqn:H1; [| discriminate].
    apply strip_prefix_spec in H1. subst r1.
    destruct (span_digits_spec r2) as (Hr2 & Hmin & _).
    destruct (span_digits r2) as [minor r3]. cbn [fst snd] in *.
    destruct (is_empty minor) eqn:Hemin; [discriminate |].
    destruct (strip_prefix "/external/" r3) as [id' |] eqn:H3; [| discriminate].
    apply strip_prefix_spec in H3. subst r3.
    destruct (is_empty id' || negb (all_any_char id')) eqn:Hid; [discriminate |].
    apply orb_false_iff in Hid as [Heid Hall]. apply negb_false_iff in Hall.
    injection Hm as <- <-. subst r0 r2.
    apply is_empty_false in Hemaj, Hemin, Heid.
    repeat split.
    + now rewrite !app_assoc.
    + apply matches_version. exists major, minor. auto.
    + now apply matches_id.
  - intros (-> & Hv & Hid).
    apply matches_version in Hv as (major & minor & -> & Hmaj & Hdmaj & Hmin & Hdmin).
    apply matches_id in Hid as [Hid Hall].
    unfold regex_match. rewrite strip_prefix_app.
    rewrite !app_assoc.
    rewrite (span_digits_app major) by (exact Hdmaj || reflexivity).
    apply is_empty_false in Hmaj as ->.
    rewrite strip_prefix_app.
    rewrite (span_digits_app minor) by (exact Hdmin || reflexivity).
    apply is_empty_false in Hmin as ->.
    rewrite strip_prefix_app.
    apply is_empty_false in Hid as ->. rewrite Hall. reflexivity.
Qed.

Lemma matches_kDeviceNameRE s :
  matches kDeviceNameRE s <->
  exists v id, s = "device@" +:+ v +:+ "/external/" +:+ id
               /\ matches re_version v /\ matches re_id id.
Proof.
  unfold kDeviceNameRE. rewrite matches_lit. split.
  - intros (r & -> & Hr). apply matches_cat in Hr as (v & rest & -> & Hv & Hrest).
    apply matches_lit in Hrest as (id & -> & Hid). eauto.
  - intros (v & id & -> & Hv & Hid). eexists. split; [reflexivity |].
    apply matches_cat. exists v, ("/external/" +:+ id). repeat split; [exact Hv |].
    apply matches_lit. eauto.
Qed.

(** std::regex_match decides membership in the language of the pattern. *)
Lemma regex_match_complete s : is_Some (regex_match s) <-> matches kDeviceNameRE s.
Proof.
  rewrite matches_kDeviceNameRE. split.
  - intros [[v id] Hm]. apply regex_match_spec in Hm. eauto.
  - intros (v & id & Hm). exists (v, id). now apply regex_match_spec.
Qed.

End RegexFacts.

(** * Running programs *)

Module ProgFacts.
Import Sys.

Lemma bind_run {P A B} (c : Prog P A) (f : A -> Prog P B) m :
  (c ≫= f) m = f (fst (c m)) (snd (c m)).
Proof. reflexivity. Qed.

Lemma ret_run {P A} (a : A) (m : Machine P) : (mret a : Prog P A) m = (a, m).
Proof. reflexivity. Qed.

Lemma machine_eta {P} (m : Machine P) : {| object := object m; trace := trace m |} = m.
Proof. destruct m; reflexivity. Qed.

(** Unfolds the monad operations in the goal. *)
Ltac run :=
  unfold mbind, Prog_bind, mret, Prog_ret, get, modify, emit;
  cbn [fst snd object trace].

Lemma notifications_app t1 t2 :
  notifications (t1 ++ t2) = (notifications t1 ++ notifications t2)%list.
Proof. unfold notifications. apply List.filter_app. Qed.

Lemma preserves_ret {P A} (I : P -> Prop) (a : A) : preserves I (mret a).
Proof. intros m Hm. exact Hm. Qed.

Lemma preserves_emit {P} (I : P -> Prop) e : preserves I (emit e).
Proof. intros m Hm. exact Hm. Qed.

Lemma preserves_get {P} (I : P -> Prop) : preserves I get.
Proof. intros m Hm. exact Hm. Qed.

Lemma preserves_modify {P} (I : P -> Prop) f :
  (forall p, I p -> I (f p)) -> preserves I (modify f).
Proof. intros Hf m Hm. apply Hf, Hm. Qed.

Lemma preserves_bind {P A B} (I : P -> Prop) (c : Prog P A) (f : A -> Prog P B) :
  preserves I c -> (forall a, preserves I (f a)) -> preserves I (c ≫= f).
Proof. intros Hc Hf m Hm. rewrite bind_run. apply Hf, Hc, Hm. Qed.

Lemma quiet_ret {P A} (a : A) : quiet (mret a : Prog P A).
Proof. intros m. split; reflexivity. Qed.

Lemma quiet_get {P} : quiet (get : Prog P P).
Proof. intros m. split; reflexivity. Qed.

Lemma quiet_emit {P} e : is_notification e = false -> quiet (emit e : Prog P unit).
Proof.
  intros He m. split; [reflexivity |]. cbn [emit snd trace].
  rewrite notifications_app. cbn. rewrite He. apply List.app_nil_r.
Qed.

Lemma quiet_bind {P A B} (c : Prog P A) (f : A -> Prog P B) :
  quiet c -> (forall a, quiet (f a)) -> quiet (c ≫= f).
Proof.
  intros Hc Hf m. rewrite bind_run.
  destruct (Hc m) as [Ho Hn]. destruct (Hf (fst (c m)) (snd (c m))) as [Ho' Hn'].
  split; congruence.
Qed.

(** Steps through a program built from binds, conditionals and matches. *)
Ltac step_with base :=
  repeat first
    [ base
    | match goal with
      | |- _ (mbind _ _) => first [apply preserves_bind | apply quiet_bind]; [| intros ?]
      | |- _ (mret _) => first [apply preserves_ret | apply quiet_ret]
      | |- _ (emit _) => first [apply preserves_emit | apply quiet_emit; reflexivity]
      | |- _ get => first [apply preserves_get | apply quiet_get]
      | |- _ (if ?b then _ else _) => destruct b
      | |- _ (match ?x with _ => _ end) => destruct x
      | |- _ (let (_, _) := ?x in _) => destruct x
      end ].

End ProgFacts.

(** * The AIDL provider *)

Module AidlFacts.
Import CLib Sys Aidl AidlRun ProgFacts.

Lemma set_map_id p : set_mCameraStatusMap (fun _ => mCameraStatusMap p) p = p.
Proof. destruct p; reflexivity. Qed.

Lemma quiet_preserves {A} (I : ExternalCameraProvider -> Prop) (c : Prog A) :
  quiet c -> preserves I c.
Proof. intros Hq m Hm. destruct (Hq m) as [-> _]. exact Hm. Qed.

Lemma isExternalDevice_quiet w devName sysClassName isHdmiRx :
  quiet (isExternalDevice w devName sysClassName isHdmiRx).
Proof. unfold isExternalDevice. cbv zeta. step_with ltac:(fail). Qed.

Lemma for_each_status_run cb l m :
  for_each_status cb l m =
    (tt, {| object := object m;
            trace := trace m ++ List.map (fun kv => cameraDeviceStatusChange cb (fst kv) (snd kv)) l |}).
Proof.
  revert m. induction l as [| kv l IH]; intros m.
  - cbn [for_each_status List.map]. rewrite List.app_nil_r, machine_eta. reflexivity.
  - cbn [for_each_status List.map]. rewrite bind_run, IH. cbn [emit fst snd object trace].
    rewrite <- List.app_assoc. reflexivity.
Qed.

Lemma setCallback_run in_callback m :
  setCallback in_callback m =
    (OK, {| object := set_mCallback in_callback (object m);
            trace := trace m ++
              match in_callback with
              | Some cb => List.map (fun kv => cameraDeviceStatusChange cb (fst kv) (snd kv))
                             (map_to_list (mCameraStatusMap (object m)))
              | None => []
              end |}).
Proof.
  unfold setCallback. run. destruct in_callback as [cb |]; cbn [set_mCallback mCallback].
  - rewrite for_each_status_run. reflexivity.
  - rewrite List.app_nil_r. reflexivity.
Qed.

Lemma getCameraDeviceInterface_object w n out m :
  object (snd (getCameraDeviceInterface w n out m)) = object m.
Proof.
  unfold getCameraDeviceInterface. destruct out; [| reflexivity]. run.
  destruct (matchDeviceName _ _ _ _) as [e | [[match_ v] path]]; [reflexivity |].
  destruct (negb match_); [reflexivity |].
  destruct (_ || _); [reflexivity |]. run.
  destruct (make_device _ _ _) as [d |]; [destruct (isInitFailed d) |]; reflexivity.
Qed.

Section Build.
Variable abi : ABI.
Variable kDeviceVersion : string.

Abbreviation deviceNameOf' := (deviceNameOf abi kDeviceVersion).

Lemma addExternalCamera_run devName m :
  addExternalCamera abi kDeviceVersion devName m =
  (tt, {| object := set_mCameraStatusMap
                      (insert (deviceNameOf' (cameraIdOffset (mCfg (object m))) devName) PRESENT)
                      (object m);
          trace := trace m ++
            match mCallback (object m) with
            | Some cb => [cameraDeviceStatusChange cb
                            (deviceNameOf' (cameraIdOffset (mCfg (object m))) devName) PRESENT]
            | None => []
            end |}).
Proof.
  unfold addExternalCamera. run. destruct (mCallback (object m)); cbn [fst snd object trace].
  - reflexivity.
  - rewrite List.app_nil_r. reflexivity.
Qed.

Lemma deviceRemoved_unknown devName m :
  mCameraStatusMap (object m) !! deviceNameOf' (cameraIdOffset (mCfg (object m))) devName = None ->
  deviceRemoved abi kDeviceVersion devName m =
    (tt, {| object := object m;
            trace := trace m ++
              [ALOGE ("deviceRemoved: cannot find camera device to remove " +:+ devName)] |}).
Proof.
  intros Hnone. unfold deviceRemoved. run. unfold erase. rewrite Hnone.
  cbn [fst snd]. rewrite set_map_id. reflexivity.
Qed.

Lemma deviceRemoved_known devName m st :
  mCameraStatusMap (object m) !! deviceNameOf' (cameraIdOffset (mCfg (object m))) devName = Some st ->
  deviceRemoved abi kDeviceVersion devName m =
    (tt, {| object := set_mCameraStatusMap
                        (delete (deviceNameOf' (cameraIdOffset (mCfg (object m))) devName))
                        (object m);
            trace := trace m ++
              match mCallback (object m) with
              | Some cb => [cameraDeviceStatusChange cb
                              (deviceNameOf' (cameraIdOffset (mCfg (object m))) devName)
                              NOT_PRESENT]
              | None => []
              end |}).
Proof.
  intros Hsome. unfold deviceRemoved. run. unfold erase. rewrite Hsome.
  cbn [fst snd]. change (1 =? 0) with false. cbv iota.
  destruct (mCallback (object m)); cbn [fst snd object trace].
  - reflexivity.
  - rewrite List.app_nil_r. reflexivity.
Qed.

(** Properties of the provider object that survive every call. *)
Section Invariant.
Variable I : ExternalCameraProvider -> Prop.
Hypothesis I_insert : forall devName p,
  I p ->
  I (set_mCameraStatusMap
       (insert (deviceNameOf' (cameraIdOffset (mCfg p)) devName) PRESENT) p).
Hypothesis I_delete : forall id p, I p -> I (set_mCameraStatusMap (delete id) p).
Hypothesis I_callback : forall cb p, I p -> I (set_mCallback cb p).
Hypothesis I_thread : forall f p,
  (forall t, t_mInternalDevices (f t) = t_mInternalDevices t) ->
  I p -> I (set_mHotPlugThread f p).

Lemma addExternalCamera_preserves devName :
  preserves I (addExternalCamera abi kDeviceVersion devName).
Proof. intros m Hm. rewrite addExternalCamera_run. apply I_insert, Hm. Qed.

Lemma deviceRemoved_preserves devName :
  preserves I (deviceRemoved abi kDeviceVersion devName).
Proof.
  intros m Hm.
  destruct (mCameraStatusMap (object m)
              !! deviceNameOf' (cameraIdOffset (mCfg (object m))) devName) eqn:Hl.
  - rewrite (deviceRemoved_known _ _ _ Hl). apply I_delete, Hm.
  - rewrite (deviceRemoved_unknown _ _ Hl). exact Hm.
Qed.

Lemma deviceAdded_preserves w devName :
  preserves I (deviceAdded abi kDeviceVersion w devName).
Proof. unfold deviceAdded. step_with ltac:(apply addExternalCamera_preserves). Qed.

Lemma isExternalDevice_preserves w d s h : preserves I (isExternalDevice w d s h).
Proof. apply quiet_preserves, isExternalDevice_quiet. Qed.

Lemma scan_entries_preserves w entries :
  preserves I (scan_entries abi kDeviceVersion w entries).
Proof.
  induction entries as [| d rest IH]; cbn [scan_entries].
  - apply preserves_ret.
  - step_with ltac:(first [apply IH | apply deviceAdded_preserves
                          | apply isExternalDevice_preserves]).
Qed.

Lemma updateAttachedCameras_preserves w :
  preserves I (updateAttachedCameras abi kDeviceVersion w).
Proof. unfold updateAttachedCameras. step_with ltac:(apply scan_entries_preserves). Qed.

Lemma initialize_preserves w : preserves I (initialize abi kDeviceVersion w).
Proof.
  unfold initialize.
  step_with ltac:(first [apply updateAttachedCameras_preserves
                        | apply preserves_modify; intros ? ?; apply I_thread; [reflexivity | assumption]]).
Qed.

Lemma cec_scan_preserves w entries buf :
  preserves I (cec_scan abi kDeviceVersion w entries buf).
Proof.
  induction entries as [| d rest IH]; cbn [cec_scan].
  - apply preserves_ret.
  - step_with ltac:(first [apply IH | apply deviceAdded_preserves
                          | apply isExternalDevice_preserves]).
Qed.

Lemma cec_event_preserves w e buf : preserves I (cec_event abi kDeviceVersion w e buf).
Proof.
  unfold cec_event.
  step_with ltac:(first [apply cec_scan_preserves | apply deviceRemoved_preserves]).
Qed.

Lemma video_event_preserves w e : preserves I (video_event abi kDeviceVersion w e).
Proof.
  unfold video_event. cbv zeta.
  step_with ltac:(first [apply deviceAdded_preserves | apply deviceRemoved_preserves
                        | apply isExternalDevice_preserves]).
Qed.

Lemma event_loop_preserves w events : forall buf,
  preserves I (event_loop abi kDeviceVersion w events buf).
Proof.
  induction events as [| e rest IH]; intros buf; cbn [event_loop].
  - apply preserves_ret.
  - step_with ltac:(first [apply IH | apply cec_event_preserves
                          | apply video_event_preserves]).
Qed.

Lemma threadLoop_preserves w stack : preserves I (threadLoop abi kDeviceVersion w stack).
Proof.
  unfold threadLoop.
  step_with ltac:(first [apply initialize_preserves | apply event_loop_preserves]).
Qed.

Lemma exec_preserves c m : I (object m) -> I (object (exec abi kDeviceVersion c m)).
Proof.
  intros Hm. destruct c; cbn [exec].
  - rewrite setCallback_run. apply I_callback, Hm.
  - destruct _aidl_return; exact Hm.
  - destruct _aidl_return; exact Hm.
  - rewrite getCameraDeviceInterface_object. exact Hm.
  - exact Hm.
  - destruct _aidl_return; exact Hm.
  - destruct _aidl_return; exact Hm.
  - now apply threadLoop_preserves.
  - now apply updateAttachedCameras_preserves.
  - now apply deviceAdded_preserves.
  - now apply deviceRemoved_preserves.
  - now apply addExternalCamera_preserves.
Qed.

Lemma reachable_invariant cfg m :
  I (construct cfg) -> reachable abi kDeviceVersion cfg m -> I (object m).
Proof.
  intros Hinit Hreach. induction Hreach as [| m c _ IH]; [exact Hinit |].
  now apply exec_preserves.
Qed.
End Invariant.

Lemma reachable_no_tombstone cfg m :
  reachable abi kDeviceVersion cfg m -> no_tombstone (object m).
Proof.
  apply reachable_invariant; unfold no_tombstone.
  - intros devName p Hp id' st. destruct p as [c mp cb t].
    cbn [set_mCameraStatusMap mCameraStatusMap mCfg].
    destruct (decide (deviceNameOf' (cameraIdOffset c) devName = id')) as [-> | Hne].
    + rewrite lookup_insert_eq. congruence.
    + rewrite lookup_insert_ne by exact Hne. apply Hp.
  - intros id p Hp id' st. destruct p as [c mp cb t]. cbn.
    intros Hl. apply lookup_delete_Some in Hl as [_ Hl]. eapply Hp, Hl.
  - intros cb p Hp. destruct p. exact Hp.
  - intros f p _ Hp. destruct p. exact Hp.
  - cbn. intros id st Hl. rewrite lookup_empty in Hl. discriminate.
Qed.

(** The hot-plug thread's copy of the internal devices never changes. *)
Lemma reachable_internal_devices cfg m :
  reachable abi kDeviceVersion cfg m ->
  mCfg (object m) = cfg /\ t_mInternalDevices (mHotPlugThread (object m)) = mInternalDevices cfg.
Proof.
  apply (reachable_invariant
           (fun p => mCfg p = cfg /\ t_mInternalDevices (mHotPlugThread p) = mInternalDevices cfg)).
  - intros id p Hp. destruct p. exact Hp.
  - intros id p Hp. destruct p. exact Hp.
  - intros cb p Hp. destruct p. exact Hp.
  - intros f p Hf Hp. destruct p. cbn in *. now rewrite Hf.
  - split; reflexivity.
Qed.

(** Every key of the status map is a name the provider formed. *)
Lemma reachable_keys cfg m :
  reachable abi kDeviceVersion cfg m ->
  forall key, is_Some (mCameraStatusMap (object m) !! key) ->
              exists n, key = "device@" +:+ kDeviceVersion +:+ "/external/" +:+ to_string n.
Proof.
  apply (reachable_invariant
           (fun p => forall key, is_Some (mCameraStatusMap p !! key) ->
              exists n, key = "device@" +:+ kDeviceVersion +:+ "/external/" +:+ to_string n)).
  - intros devName p Hp key. destruct p as [c mp cb t].
    cbn [set_mCameraStatusMap mCameraStatusMap mCfg] in *.
    destruct (decide (deviceNameOf' (cameraIdOffset c) devName = key)) as [<- | Hne].
    + intros _. unfold deviceNameOf. eauto.
    + rewrite lookup_insert_ne by exact Hne. apply Hp.
  - intros id p Hp key. destruct p as [c mp cb t].
    cbn [set_mCameraStatusMap mCameraStatusMap] in *.
    intros [st Hst]. apply lookup_delete_Some in Hst as [_ Hst]. apply Hp. eauto.
  - intros cb p Hp. destruct p. exact Hp.
  - intros f p _ Hp. destruct p. exact Hp.
  - cbn. intros key [st Hst]. rewrite lookup_empty in Hst. discriminate.
Qed.

(** *** Events for internal devices *)

Lemma video_event_internal w e m :
  advance kPrefixLen (name e) ∈ t_mInternalDevices (mHotPlugThread (object m)) ->
  video_event abi kDeviceVersion w e m = (tt, m).
Proof.
  intros Hin. unfold video_event. run. rewrite bool_decide_eq_true_2 by exact Hin.
  reflexivity.
Qed.

Lemma event_loop_internal w e rest buf m S :
  name e = kPrefix +:+ S ->
  S ∈ t_mInternalDevices (mHotPlugThread (object m)) ->
  event_loop abi kDeviceVersion w (e :: rest) buf m =
  event_loop abi kDeviceVersion w rest buf
    {| object := object m;
       trace := trace m ++
         if wd e =? mWd (mHotPlugThread (object m))
         then [ALOGI ("threadLoop inotify_event " +:+ name e)] else [] |}.
Proof.
  intros Hname HS. cbn [event_loop]. run.
  destruct (wd e =? mWd (mHotPlugThread (object m))); cbn [negb].
  - rewrite Hname.
    change (has_prefix "cec" (kPrefix +:+ S)) with false.
    change (has_prefix kPrefix (kPrefix +:+ S)) with (String.prefix "" S).
    replace (String.prefix "" S) with true by (destruct S; reflexivity).
    cbn [negb fst snd]. rewrite <- Hname. rewrite video_event_internal.
    + reflexivity.
    + rewrite Hname. exact HS.
  - rewrite List.app_nil_r, machine_eta. reflexivity.
Qed.

Lemma scan_entries_internal w rest m S :
  S ∈ mInternalDevices (mCfg (object m)) ->
  scan_entries abi kDeviceVersion w ((kPrefix +:+ S) :: rest) m =
  scan_entries abi kDeviceVersion w rest m.
Proof.
  intros HS. cbn [scan_entries]. run.
  change (has_prefix kPrefix (kPrefix +:+ S)) with (String.prefix "" S).
  replace (String.prefix "" S) with true by (destruct S; reflexivity).
  change (advance kPrefixLen (kPrefix +:+ S)) with S.
  rewrite bool_decide_eq_true_2 by exact HS. reflexivity.
Qed.

(** *** Nodes of the hardware codec *)

Lemma isExternalDevice_codec w devName sysClassName isHdmiRx video_name m :
  ReadFileToString w sysClassName = Some video_name ->
  is_codec_name video_name = true ->
  isExternalDevice w devName sysClassName isHdmiRx m =
    ((false, match isHdmiRx with Some _ => Some false | None => None end),
     {| object := object m; trace := trace m ++ [sys_ReadFileToString sysClassName] |}).
Proof.
  intros Hread Hcodec. unfold isExternalDevice. run. rewrite Hread.
  unfold is_codec_name in Hcodec. rewrite Hcodec. reflexivity.
Qed.

End Build.
End AidlFacts.

(** * The HIDL provider *)

Module HidlFacts.
Import CLib Sys Hidl ProgFacts.

Section Build.
Variable abi : ABI.

Abbreviation nameOf m devName :=
  (deviceNameOf abi (mPreferredHal3MinorVersion (object m))
     (cameraIdOffset (mCfg (object m))) devName).

Lemma addExternalCamera_run_2_4 devName m :
  addExternalCamera abi devName m =
  (tt, {| object := set_mCameraStatusMap (insert (nameOf m devName) PRESENT) (object m);
          trace := trace m
            ++ [ALOGI ("ExtCam: adding " +:+ devName +:+ " to External Camera HAL!")]
            ++ match mCallbacks (object m) with
               | Some cb => [cameraDeviceStatusChange cb (nameOf m devName) PRESENT]
               | None => []
               end |}).
Proof.
  unfold addExternalCamera. run.
  destruct (mCallbacks (object m)); cbn [fst snd object trace].
  - rewrite <- List.app_assoc. reflexivity.
  - rewrite List.app_nil_r. reflexivity.
Qed.

Lemma deviceRemoved_unknown_2_4 devName m :
  mCameraStatusMap (object m) !! nameOf m devName = None ->
  deviceRemoved abi devName m =
    (tt, {| object := object m;
            trace := trace m ++ [ALOGE ("deviceRemoved: cannot find camera device " +:+ devName)] |}).
Proof.
  intros Hnone. unfold deviceRemoved. run.
  rewrite bool_decide_eq_false_2; [reflexivity |].
  rewrite Hnone. intros [x Hx]. discriminate.
Qed.

Lemma video_event_internal_2_4 w e m :
  advance kPrefixLen (name e) ∈ t_mInternalDevices (mHotPlugThread (object m)) ->
  video_event abi w e m = (tt, m).
Proof.
  intros Hin. unfold video_event. run. rewrite bool_decide_eq_true_2 by exact Hin.
  reflexivity.
Qed.

Lemma event_loop_internal_2_4 w e rest buf m S :
  name e = kPrefix +:+ S ->
  S ∈ t_mInternalDevices (mHotPlugThread (object m)) ->
  event_loop abi w (e :: rest) buf m =
  event_loop abi w rest buf
    {| object := object m;
       trace := trace m ++
         if wd e =? mWd (mHotPlugThread (object m))
         then [ALOGI ("threadLoop: hot-plug event->name:" +:+ name e)] else [] |}.
Proof.
  intros Hname HS. cbn [event_loop]. run.
  destruct (wd e =? mWd (mHotPlugThread (object m))).
  - rewrite Hname.
    change (has_prefix kPrefix (kPrefix +:+ S)) with (String.prefix "" S).
    replace (String.prefix "" S) with true by (destruct S; reflexivity).
    run. rewrite <- Hname. rewrite video_event_internal_2_4.
    + reflexivity.
    + rewrite Hname. exact HS.
  - rewrite List.app_nil_r, machine_eta. reflexivity.
Qed.

Lemma scan_entries_internal_2_4 w rest m S :
  S ∈ t_mInternalDevices (mHotPlugThread (object m)) ->
  scan_entries abi w ((kPrefix +:+ S) :: rest) m = scan_entries abi w rest m.
Proof.
  intros HS. cbn [scan_entries]. run.
  change (has_prefix kPrefix (kPrefix +:+ S)) with (String.prefix "" S).
  replace (String.prefix "" S) with true by (destruct S; reflexivity).
  change (advance kPrefixLen (kPrefix +:+ S)) with S.
  rewrite bool_decide_eq_true_2 by exact HS. reflexivity.
Qed.
End Build.
End HidlFacts.

(** * Logical device names *)

Module NameFacts.
Import CLib Sys Regex CLibFacts RegexFacts.

(** The HIDL function is the AIDL one on the name up to its first NUL. *)
Lemma matchDeviceName_2_4_same O s dv dp :
  Hidl.matchDeviceName O s dv dp = Aidl.matchDeviceName O (hidl_c_str s) dv dp.
Proof. reflexivity. Qed.

Abbreviation no_nul := (fun c : ascii => negb (Ascii.eqb c Ascii.zero)).

Lemma hidl_c_str_id s : string_forall no_nul s = true -> hidl_c_str s = s.
Proof.
  induction s as [| c s IH]; [reflexivity |]. cbn [string_forall hidl_c_str].
  intros H. apply andb_true_iff in H as [Hc Hs]. apply negb_true_iff in Hc.
  rewrite Hc, IH by exact Hs. reflexivity.
Qed.

Lemma to_string_no_nul n : string_forall no_nul (to_string n) = true.
Proof.
  assert (HP : forall c, isdigit c = true -> no_nul c = true).
  { intros c Hc. apply isdigit_code in Hc. apply negb_true_iff, Ascii.eqb_neq.
    intros ->. unfold code in Hc. simpl in Hc. lia. }
  unfold to_string. destruct (n <? 0).
  - cbn [string_forall]. rewrite string_forall_to_digits by exact HP. reflexivity.
  - rewrite string_forall_to_digits by exact HP. reflexivity.
Qed.

(** A name the HIDL provider forms holds no NUL. *)
Lemma hidl_c_str_formed minor n :
  hidl_c_str ("device@" +:+ Hidl.version_2_4 minor +:+ "/external/" +:+ to_string n)
  = "device@" +:+ Hidl.version_2_4 minor +:+ "/external/" +:+ to_string n.
Proof.
  apply hidl_c_str_id. rewrite !string_forall_app, to_string_no_nul.
  unfold Hidl.version_2_4. destruct (minor =? 6); [| destruct (minor =? 5)]; reflexivity.
Qed.

Lemma matchDeviceName_2_4_no_nul O s dv dp :
  string_forall no_nul s = true ->
  Hidl.matchDeviceName O s dv dp = Aidl.matchDeviceName O s dv dp.
Proof. intros Hs. now rewrite matchDeviceName_2_4_same, hidl_c_str_id. Qed.

(** The number the names are formed from. *)
Lemma offset_add_range abi O n : INT_MIN <= offset_add abi O n < 2 ^ 32.
Proof.
  unfold offset_add, uint_cast, int_add, INT_MIN. destruct (cameraIdOffset_unsigned abi).
  - pose proof (Z.mod_pos_bound (O + n) (2 ^ 32) ltac:(lia)). lia.
  - pose proof (int_cast_range (O + n)) as H. unfold INT_MIN, INT_MAX in H. lia.
Qed.

Lemma offset_add_signed abi O n :
  cameraIdOffset_unsigned abi = false -> offset_add abi O n <= INT_MAX.
Proof.
  intros Habi. unfold offset_add, int_add. rewrite Habi. apply int_cast_range.
Qed.

Lemma offset_add_small abi O n : 0 <= O + n <= INT_MAX -> offset_add abi O n = O + n.
Proof.
  intros H. unfold offset_add, uint_cast, int_add. destruct (cameraIdOffset_unsigned abi).
  - apply Z.mod_small. unfold INT_MAX in H. lia.
  - apply int_cast_id. unfold INT_MIN. lia.
Qed.

(** std::stoi on the decimal form of a number above INT_MAX. *)
Lemma stoi_to_string_large n : INT_MAX < n -> stoi (to_string n) = inl out_of_range.
Proof.
  intros Hn. unfold stoi. rewrite strtol_exact_to_string.
  destruct (Z.leb_spec n INT_MAX); [lia |]. now rewrite andb_false_r.
Qed.

Lemma matchDeviceName_no_match O s dv dp :
  regex_match s = None -> Aidl.matchDeviceName O s dv dp = inr (false, dv, dp).
Proof. intros Hm. unfold Aidl.matchDeviceName. now rewrite Hm. Qed.

Lemma regex_match_none s : regex_match s = None <-> ~ matches kDeviceNameRE s.
Proof.
  rewrite <- regex_match_complete. destruct (regex_match s); split.
  - intros [=].
  - intros Hn. destruct Hn. eauto.
  - intros _ [x Hx]. discriminate.
  - reflexivity.
Qed.

(** The names matchDeviceName accepts: the pattern, with an id that
    std::stoi converts. *)
Lemma matchDeviceName_accepts O s a b v p :
  Aidl.matchDeviceName O s (Some a) (Some b) = inr (true, Some v, Some p) <->
  exists id n, s = "device@" +:+ v +:+ "/external/" +:+ id
               /\ matches re_version v /\ matches re_id id
               /\ stoi id = inr n
               /\ p = "/dev/video" +:+ to_string (int_sub n O).
Proof.
  unfold Aidl.matchDeviceName. split.
  - destruct (regex_match s) as [[sm1 sm2] |] eqn:Hm; [| discriminate].
    destruct (stoi sm2) as [e | n] eqn:Hn; [discriminate |].
    intros [= <- <-]. apply regex_match_spec in Hm as (-> & Hv & Hid).
    exists sm2, n. auto.
  - intros (id & n & -> & Hv & Hid & Hn & ->).
    assert (Hm : regex_match ("device@" +:+ v +:+ "/external/" +:+ id) = Some (v, id))
      by now apply regex_match_spec.
    now rewrite Hm, Hn.
Qed.

Lemma matches_id_to_string n : matches re_id (to_string n).
Proof.
  apply matches_id. destruct (to_string_any_char n) as [Hall Hne].
  split; [now apply is_empty_false | exact Hall].
Qed.

(** Parsing a name whose id is the decimal form of [M]. *)
Lemma matchDeviceName_decimal O v M a b :
  matches re_version v -> INT_MIN <= M <= INT_MAX ->
  Aidl.matchDeviceName O ("device@" +:+ v +:+ "/external/" +:+ to_string M) (Some a) (Some b)
  = inr (true, Some v, Some ("/dev/video" +:+ to_string (int_sub M O))).
Proof.
  intros Hv HM. apply matchDeviceName_accepts. exists (to_string M), M.
  repeat split; [exact Hv | apply matches_id_to_string | now apply stoi_to_string].
Qed.

Lemma deviceNameOf_decimal abi v O N :
  32 <= long_bits abi -> INT_MIN <= N <= INT_MAX ->
  Aidl.deviceNameOf abi v O ("/dev/video" +:+ to_string N)
  = "device@" +:+ v +:+ "/external/" +:+ to_string (offset_add abi O N).
Proof.
  intros Habi HN. unfold Aidl.deviceNameOf.
  change (advance Aidl.kDevicePrefixLen ("/dev/video" +:+ to_string N)) with (to_string N).
  now rewrite atoi_to_string.
Qed.

Lemma deviceNameOf_decimal_2_4 abi minor O N :
  sizeof_pointer abi = 4%nat -> 32 <= long_bits abi -> INT_MIN <= N <= INT_MAX ->
  Hidl.deviceNameOf abi minor O ("/dev/video" +:+ to_string N)
  = "device@" +:+ Hidl.version_2_4 minor +:+ "/external/" +:+ to_string (offset_add abi O N).
Proof.
  intros Hsz Habi HN. unfold Hidl.deviceNameOf, Hidl.kDevicePrefixLen, Hidl.sizeof_kDevicePath.
  rewrite Hsz.
  change (advance (4 + kPrefixLen + 1) ("/dev/video" +:+ to_string N)) with (to_string N).
  rewrite atoi_to_string by assumption. unfold Hidl.version_2_4.
  destruct (minor =? 6); [reflexivity |]. destruct (minor =? 5); reflexivity.
Qed.

(** Parsing a name whose id is the decimal form of a number above
    INT_MAX: std::stoi throws. *)
Lemma matchDeviceName_decimal_large O v M a b :
  matches re_version v -> INT_MAX < M ->
  Aidl.matchDeviceName O ("device@" +:+ v +:+ "/external/" +:+ to_string M) (Some a) (Some b)
  = inl out_of_range.
Proof.
  intros Hv HM. unfold Aidl.matchDeviceName.
  assert (Hm : regex_match ("device@" +:+ v +:+ "/external/" +:+ to_string M)
               = Some (v, to_string M)).
  { apply regex_match_spec. repeat split; [exact Hv | apply matches_id_to_string]. }
  now rewrite Hm, stoi_to_string_large.
Qed.

Lemma matches_version_2_4 minor : matches re_version (Hidl.version_2_4 minor).
Proof.
  apply matches_version. unfold Hidl.version_2_4.
  destruct (minor =? 6); [| destruct (minor =? 5)];
    [exists "3", "6" | exists "3", "5" | exists "3", "4"];
    repeat split; discriminate.
Qed.

End NameFacts.

(** * The receiver path array *)

Module BufferFacts.
Import CLib Sys.

(** What reads back from the array after the copy is the path followed by
    whatever the array held behind it: the copy writes no terminator. *)
Lemma c_str_strncpy_strlen dst src :
  Regex.string_forall (fun c => negb (Ascii.eqb c NUL)) src = true ->
  c_str (strncpy_strlen dst src) = src +:+ c_str (drop (String.length src) dst).
Proof.
  unfold strncpy_strlen. revert dst.
  induction src as [| c src IH]; intros dst Hsrc.
  - reflexivity.
  - cbn [Regex.string_forall] in Hsrc. apply andb_true_iff in Hsrc as [Hc Hsrc].
    apply negb_true_iff in Hc.
    cbn [list_ascii_of_string length List.app String.length c_str]. rewrite Hc.
    rewrite RegexFacts.app_cons. f_equal.
    destruct dst as [| d dst].
    + specialize (IH [] Hsrc). rewrite !drop_nil in *. exact IH.
    + cbn [drop]. exact (IH dst Hsrc).
Qed.

End BufferFacts.

(** * Programs as steps of a relation *)

Module StepFacts.
Import Sys Observer ProgFacts.

Section Steps.
Context {P : Type} (R : Machine P -> Machine P -> Prop).
(** The effects [R] lets a program add to the trace. *)
Variable allowed : Effect -> bool.
Hypothesis R_refl : forall m, R m m.
Hypothesis R_trans : forall a b c, R a b -> R b c -> R a c.
Hypothesis R_emit : forall m e,
  allowed e = true -> R m {| object := object m; trace := trace m ++ [e] |}.

Lemma steps_ret {A} (a : A) : steps R (mret a : Prog P A).
Proof. intros m. apply R_refl. Qed.

Lemma steps_get : steps R (get : Prog P P).
Proof. intros m. apply R_refl. Qed.

Lemma steps_emit e : allowed e = true -> steps R (emit e : Prog P unit).
Proof. intros He m. now apply R_emit. Qed.

Lemma steps_bind {A B} (c : Prog P A) (f : A -> Prog P B) :
  steps R c -> (forall a, steps R (f a)) -> steps R (c ≫= f).
Proof.
  intros Hc Hf m. rewrite bind_run. eapply R_trans; [apply Hc | apply Hf].
Qed.
End Steps.

(** Steps through a program, as [step_with] does for an invariant. *)
Ltac step_rel Hrefl Htrans allowed Hemit base :=
  repeat first
    [ base
    | match goal with
      | |- steps _ (mbind _ _) => apply (steps_bind _ Htrans); [| intros ?]
      | |- steps _ (mret _) => apply (steps_ret _ Hrefl)
      | |- steps _ (emit _) => apply (steps_emit _ allowed Hemit); reflexivity
      | |- steps _ get => apply (steps_get _ Hrefl)
      | |- steps _ (if ?b then _ else _) => destruct b
      | |- steps _ (match ?x with _ => _ end) => destruct x
      | |- steps _ (let (_, _) := ?x in _) => destruct x
      end ].

Lemma subscriber_view_app t1 t2 view :
  subscriber_view (t1 ++ t2) view = subscriber_view t2 (subscriber_view t1 view).
Proof. unfold subscriber_view. apply fold_left_app. Qed.

(** Only callback calls change the subscriber's map. *)
Lemma subscriber_view_notifications t : forall view,
  subscriber_view (notifications t) view = subscriber_view t view.
Proof.
  induction t as [| e t IH]; intros view; [reflexivity |].
  destruct e; cbn [notifications List.filter is_notification]; try apply IH;
    change (subscriber_view (?e :: ?l) ?v)
      with (subscriber_view l (apply_notification e v)); apply IH.
Qed.

(** A replay of PRESENT entries builds the map they were read from. *)
Lemma subscriber_view_replay cb (l : list (string * CameraDeviceStatus)) :
  (forall kv, In kv l -> snd kv = PRESENT) ->
  forall view,
    subscriber_view (List.map (fun kv => cameraDeviceStatusChange cb (fst kv) (snd kv)) l) view
    = fold_left (fun v kv => <[fst kv := snd kv]> v) l view.
Proof.
  induction l as [| kv l IH]; intros Hl view; [reflexivity |].
  cbn [List.map fold_left].
  change (subscriber_view (?e :: ?t) ?v) with (subscriber_view t (apply_notification e v)).
  cbn [apply_notification]. rewrite (Hl kv) by (left; reflexivity).
  rewrite IH by (intros kv' Hin; apply Hl; right; exact Hin).
  reflexivity.
Qed.

Lemma fold_left_insert_to_list (mp : gmap string CameraDeviceStatus) :
  fold_left (fun v kv => <[fst kv := snd kv]> v) (map_to_list mp) ∅ = mp.
Proof.
  rewrite <- List.fold_left_rev_right, List.rev_alt.
  change (rev_append (map_to_list mp) []) with (reverse (map_to_list mp)).
  transitivity (list_to_map (reverse (map_to_list mp)) : gmap string CameraDeviceStatus).
  - generalize (reverse (map_to_list mp)). intros l.
    induction l as [| [k v] l IH]; [reflexivity |]. cbn. now rewrite IH.
  - rewrite <- (list_to_map_to_list mp) at 2.
    apply list_to_map_proper.
    + rewrite fmap_reverse, reverse_Permutation. apply NoDup_fst_map_to_list.
    + apply reverse_Permutation.
Qed.

(** A fold of PRESENT insertions, read key by key. *)
Lemma lookup_fold_insert_present {A} (f : A -> string) (l : list A) :
  forall (mp : gmap string CameraDeviceStatus) key,
    fold_left (fun mp a => <[f a := PRESENT]> mp) l mp !! key
    = if bool_decide (key ∈ List.map f l) then Some PRESENT else mp !! key.
Proof.
  induction l as [| a l IH]; intros mp key; cbn [fold_left List.map].
  - rewrite bool_decide_eq_false_2 by apply not_elem_of_nil. reflexivity.
  - rewrite IH. destruct (decide (key ∈ List.map f l)) as [Hin | Hnin].
    + rewrite !bool_decide_eq_true_2; [reflexivity | | exact Hin].
      apply elem_of_cons. right. exact Hin.
    + rewrite (bool_decide_eq_false_2 _ Hnin).
      destruct (decide (key = f a)) as [-> | Hne].
      * rewrite lookup_insert_eq, bool_decide_eq_true_2; [reflexivity |].
        apply elem_of_cons. left. reflexivity.
      * rewrite lookup_insert_ne by congruence.
        rewrite bool_decide_eq_false_2; [reflexivity |].
        intros Hc. apply elem_of_cons in Hc as [Hc | Hc]; contradiction.
Qed.

End StepFacts.

(** * The AIDL provider: what it delivers *)

Module AidlDelivery.
Import CLib Sys Aidl AidlRun Observer AidlSpec ProgFacts StepFacts.

Lemma delivered_refl m : delivered m m.
Proof.
  repeat split. exists []. split; [now rewrite List.app_nil_r |].
  destruct (mCallback (object m)); [split; [constructor | reflexivity] | reflexivity].
Qed.

Lemma delivered_trans a b c : delivered a b -> delivered b c -> delivered a c.
Proof.
  intros (Hcfg1 & Hcb1 & t1 & Ht1 & H1) (Hcfg2 & Hcb2 & t2 & Ht2 & H2).
  split; [congruence |]. split; [congruence |].
  exists (t1 ++ t2)%list. split; [rewrite Ht2, Ht1; symmetry; apply List.app_assoc |].
  rewrite Hcb1 in H2. destruct (mCallback (object a)) as [cb |].
  - destruct H1 as [Hf1 Hv1], H2 as [Hf2 Hv2]. split.
    + apply Forall_app. auto.
    + now rewrite subscriber_view_app, Hv1.
  - now rewrite notifications_app, H1, H2.
Qed.

Lemma delivered_emit m e :
  negb (is_notification e) = true ->
  delivered m {| object := object m; trace := trace m ++ [e] |}.
Proof.
  intros He. apply negb_true_iff in He. repeat split. exists [e]. split; [reflexivity |].
  destruct (mCallback (object m)).
  - split.
    + constructor; [| constructor]. destruct e; try exact I. discriminate.
    + destruct e; try reflexivity. discriminate.
  - cbn. now rewrite He.
Qed.

Lemma delivered_thread f :
  steps delivered (modify (set_mHotPlugThread f)).
Proof.
  intros m. cbn [modify snd]. repeat split; try (destruct (object m); reflexivity).
  exists []. split; [cbn; now rewrite List.app_nil_r |].
  destruct (object m) as [cfg mp [cb |] th]; cbn; [split; [constructor | reflexivity] |].
  reflexivity.
Qed.

Section Build.
Variable abi : ABI.
Variable kDeviceVersion : string.

Lemma addExternalCamera_delivered devName :
  steps delivered (addExternalCamera abi kDeviceVersion devName).
Proof.
  intros m. rewrite AidlFacts.addExternalCamera_run. cbn [snd].
  repeat split; try (destruct (object m); reflexivity).
  eexists. split; [reflexivity |].
  destruct (object m) as [cfg mp [cb |] th]; cbn.
  - split; [repeat constructor | reflexivity].
  - reflexivity.
Qed.

Lemma deviceRemoved_delivered devName :
  steps delivered (deviceRemoved abi kDeviceVersion devName).
Proof.
  intros m.
  destruct (mCameraStatusMap (object m)
              !! deviceNameOf abi kDeviceVersion (cameraIdOffset (mCfg (object m))) devName)
    as [st |] eqn:Hl.
  - rewrite (AidlFacts.deviceRemoved_known _ _ _ _ _ Hl). cbn [snd].
    repeat split; try (destruct (object m); reflexivity).
    eexists. split; [reflexivity |].
    destruct (object m) as [cfg mp [cb |] th]; cbn.
    + split; [repeat constructor | reflexivity].
    + reflexivity.
  - rewrite (AidlFacts.deviceRemoved_unknown _ _ _ _ Hl). cbn [snd].
    now apply delivered_emit.
Qed.

Ltac deliver base :=
  step_rel delivered_refl delivered_trans
           (fun e => negb (is_notification e)) delivered_emit base.

Lemma isExternalDevice_delivered w d s h : steps delivered (isExternalDevice w d s h).
Proof. unfold isExternalDevice. cbv zeta. deliver ltac:(fail). Qed.

Lemma deviceAdded_delivered w devName :
  steps delivered (deviceAdded abi kDeviceVersion w devName).
Proof. unfold deviceAdded. deliver ltac:(apply addExternalCamera_delivered). Qed.

Lemma scan_entries_delivered w entries :
  steps delivered (scan_entries abi kDeviceVersion w entries).
Proof.
  induction entries as [| d rest IH]; cbn [scan_entries].
  - apply (steps_ret _ delivered_refl).
  - deliver ltac:(first [apply IH | apply deviceAdded_delivered
                        | apply isExternalDevice_delivered]).
Qed.

Lemma updateAttachedCameras_delivered w :
  steps delivered (updateAttachedCameras abi kDeviceVersion w).
Proof. unfold updateAttachedCameras. deliver ltac:(apply scan_entries_delivered). Qed.

Lemma initialize_delivered w : steps delivered (initialize abi kDeviceVersion w).
Proof.
  unfold initialize.
  deliver ltac:(first [apply updateAttachedCameras_delivered | apply delivered_thread]).
Qed.

Lemma cec_scan_delivered w entries buf :
  steps delivered (cec_scan abi kDeviceVersion w entries buf).
Proof.
  induction entries as [| d rest IH]; cbn [cec_scan].
  - apply (steps_ret _ delivered_refl).
  - deliver ltac:(first [apply IH | apply deviceAdded_delivered
                        | apply isExternalDevice_delivered]).
Qed.

Lemma cec_event_delivered w e buf : steps delivered (cec_event abi kDeviceVersion w e buf).
Proof.
  unfold cec_event.
  deliver ltac:(first [apply cec_scan_delivered | apply deviceRemoved_delivered]).
Qed.

Lemma video_event_delivered w e : steps delivered (video_event abi kDeviceVersion w e).
Proof.
  unfold video_event. cbv zeta.
  deliver ltac:(first [apply deviceAdded_delivered | apply deviceRemoved_delivered
                      | apply isExternalDevice_delivered]).
Qed.

Lemma event_loop_delivered w events : forall buf,
  steps delivered (event_loop abi kDeviceVersion w events buf).
Proof.
  induction events as [| e rest IH]; intros buf; cbn [event_loop].
  - apply (steps_ret _ delivered_refl).
  - deliver ltac:(first [apply IH | apply cec_event_delivered
                        | apply video_event_delivered]).
Qed.

Lemma threadLoop_delivered w stack : steps delivered (threadLoop abi kDeviceVersion w stack).
Proof.
  unfold threadLoop.
  deliver ltac:(first [apply initialize_delivered | apply event_loop_delivered]).
Qed.

Lemma getCameraDeviceInterface_delivered w n out :
  steps delivered (getCameraDeviceInterface w n out).
Proof.
  unfold getCameraDeviceInterface. destruct out; [| apply (steps_ret _ delivered_refl)].
  apply (steps_bind _ delivered_trans); [apply (steps_get _ delivered_refl) | intros p].
  destruct (matchDeviceName _ _ _ _) as [e | [[match_ v] path]].
  - apply (steps_ret _ delivered_refl).
  - deliver ltac:(fail).
Qed.

Lemma exec_delivered c m :
  is_setCallback c = false -> delivered m (exec abi kDeviceVersion c m).
Proof.
  intros Hc. destruct c; try discriminate; cbn [exec].
  - destruct _aidl_return; apply delivered_refl.
  - destruct _aidl_return; apply delivered_refl.
  - apply getCameraDeviceInterface_delivered.
  - apply delivered_refl.
  - destruct _aidl_return; apply delivered_refl.
  - destruct _aidl_return; apply delivered_refl.
  - apply threadLoop_delivered.
  - apply updateAttachedCameras_delivered.
  - apply deviceAdded_delivered.
  - apply deviceRemoved_delivered.
  - apply addExternalCamera_delivered.
Qed.

Lemma run_delivered calls : forall m,
  forallb (fun c => negb (is_setCallback c)) calls = true ->
  delivered m (fold_left (fun m c => exec abi kDeviceVersion c m) calls m).
Proof.
  induction calls as [| c calls IH]; intros m Hcalls; [apply delivered_refl |].
  cbn [forallb] in Hcalls. apply andb_true_iff in Hcalls as [Hc Hcalls].
  apply negb_true_iff in Hc. cbn [fold_left].
  eapply delivered_trans; [apply exec_delivered; exact Hc | apply IH; exact Hcalls].
Qed.
End Build.
End AidlDelivery.

(** * The AIDL provider: classification, registration and the scan *)

Module AidlMore.
Import CLib Sys Aidl AidlRun Observer AidlSpec ProgFacts StepFacts AidlDelivery.

Lemma setCallback_view cb m :
  no_tombstone (object m) ->
  exists t, trace (snd (setCallback (Some cb) m)) = (trace m ++ t)%list
            /\ Forall (addressed_to cb) t
            /\ subscriber_view t ∅ = mCameraStatusMap (object m).
Proof.
  intros Hnt. rewrite AidlFacts.setCallback_run. cbn [snd trace].
  eexists. split; [reflexivity |]. split.
  - apply List.Forall_forall. intros e He. apply in_map_iff in He as (kv & <- & _). reflexivity.
  - rewrite subscriber_view_replay.
    + apply fold_left_insert_to_list.
    + intros [k st] Hin. apply (Hnt k). apply elem_of_map_to_list.
      apply list_elem_of_In. exact Hin.
Qed.

(** The value isExternalDevice returns is [classify] of the world. *)
Lemma isExternalDevice_classify w devName sysClassName isHdmiRx m :
  fst (isExternalDevice w devName sysClassName isHdmiRx m)
  = (fst (classify w devName sysClassName),
     match isHdmiRx with
     | Some _ => Some (snd (classify w devName sysClassName))
     | None => None
     end).
Proof.
  unfold isExternalDevice, classify, is_codec_name. run.
  destruct (ReadFileToString w sysClassName) as [video_name |] eqn:Hread;
    [| destruct isHdmiRx; reflexivity].
  destruct (_ || _); [destruct isHdmiRx; reflexivity |].
  destruct (open_ok w devName _); cbn [negb]; [| destruct isHdmiRx; reflexivity].
  destruct (ioctl_querycap w devName) as [vidCap |]; [| destruct isHdmiRx; reflexivity].
  destruct (strstr (driver vidCap) "uvc").
  - destruct (ioctl_enum_fmt_ok w devName); destruct isHdmiRx; reflexivity.
  - destruct (strstr (driver vidCap) "cap"); [| destruct isHdmiRx; reflexivity].
    cbn [fst snd]. destruct (compare_prefix _ video_name); destruct isHdmiRx; reflexivity.
Qed.

Section Build.
Variable abi : ABI.
Variable kDeviceVersion : string.

Ltac silent :=
  cbn [fst snd object trace]; split;
  [reflexivity
  | repeat rewrite notifications_app; cbn [notifications List.filter is_notification];
    repeat rewrite List.app_nil_r; reflexivity].

Lemma deviceAdded_ready w devName m :
  capture_ready w Device_aidl devName = true ->
  deviceAdded abi kDeviceVersion w devName m
  = addExternalCamera abi kDeviceVersion devName
      {| object := object m; trace := trace m ++ capture_probe Device_aidl devName |}.
Proof.
  unfold capture_ready, construction_fails, deviceAdded, capture_probe. intros Hready. run.
  destruct (open_ok w devName O_RDWR); [| discriminate].
  destruct (ioctl_querycap w devName) as [capability |]; [| discriminate].
  destruct (has_bits _ _); [| discriminate].
  destruct (make_device w Device_aidl devName) as [deviceImpl |]; [| discriminate].
  destruct (isInitFailed deviceImpl); [discriminate |].
  cbn [negb object trace]. repeat rewrite <- List.app_assoc. reflexivity.
Qed.

Lemma deviceAdded_not_ready w devName m :
  capture_ready w Device_aidl devName = false ->
  object (snd (deviceAdded abi kDeviceVersion w devName m)) = object m
  /\ notifications (trace (snd (deviceAdded abi kDeviceVersion w devName m)))
     = notifications (trace m).
Proof.
  unfold capture_ready, construction_fails, deviceAdded. intros Hready. run.
  destruct (open_ok w devName O_RDWR); cbn [negb];
    [| silent].
  destruct (ioctl_querycap w devName) as [capability |];
    [| silent].
  destruct (has_bits _ _); cbn [negb];
    [| silent].
  destruct (make_device w Device_aidl devName) as [deviceImpl |];
    [| silent].
  destruct (isInitFailed deviceImpl); [| discriminate].
  silent.
Qed.

(** What one directory entry of the initial scan does. *)
Lemma scan_entries_cons w d_name rest m :
  exists m',
    scan_entries abi kDeviceVersion w (d_name :: rest) m
    = scan_entries abi kDeviceVersion w rest m'
    /\ object m'
       = (if scan_registers w (mCfg (object m)) d_name
          then set_mCameraStatusMap
                 (insert (deviceNameOf abi kDeviceVersion (cameraIdOffset (mCfg (object m)))
                            (snprintf_path d_name)) PRESENT)
                 (object m)
          else object m)
    /\ notifications (trace m')
       = (notifications (trace m)
          ++ match mCallback (object m) with
             | Some cb =>
                 if scan_registers w (mCfg (object m)) d_name
                 then [cameraDeviceStatusChange cb
                         (deviceNameOf abi kDeviceVersion (cameraIdOffset (mCfg (object m)))
                            (snprintf_path d_name)) PRESENT]
                 else []
             | None => []
             end)%list.
Proof.
  cbn [scan_entries]. rewrite bind_run. eexists. split; [reflexivity |].
  unfold scan_registers.
  assert (Hsilent : forall m0 : Machine ExternalCameraProvider,
             object m0 = object m /\ notifications (trace m0) = notifications (trace m) ->
             object m0 = object m
             /\ notifications (trace m0)
                = (notifications (trace m)
                   ++ match mCallback (object m) with Some _ => [] | None => [] end)%list).
  { intros m0 [Ho Hn]. split; [exact Ho |]. rewrite Hn.
    destruct (mCallback (object m)); now rewrite List.app_nil_r. }
  destruct (has_prefix kPrefix d_name); cbn [andb]; [| now apply Hsilent].
  run. destruct (bool_decide _); cbn [negb andb]; [now apply Hsilent |].
  pose proof (isExternalDevice_classify w (snprintf_path d_name) (sprintf_sysclass d_name)
                None m) as Hr.
  destruct (AidlFacts.isExternalDevice_quiet w (snprintf_path d_name)
              (sprintf_sysclass d_name) None m) as [Ho Hn].
  destruct (isExternalDevice w (snprintf_path d_name) (sprintf_sysclass d_name) None m)
    as [[ext h] m1].
  cbn [fst snd] in *. injection Hr as -> _.
  destruct (fst (classify w (snprintf_path d_name) (sprintf_sysclass d_name)));
    cbn [andb]; [| now apply Hsilent].
  destruct (capture_ready w Device_aidl (snprintf_path d_name)) eqn:Hready.
  - rewrite deviceAdded_ready by exact Hready.
    rewrite AidlFacts.addExternalCamera_run. cbn [snd object trace]. rewrite Ho.
    split; [reflexivity |]. rewrite !notifications_app, Hn.
    change (notifications (capture_probe Device_aidl (snprintf_path d_name)))
      with (@nil Effect).
    rewrite List.app_nil_r. destruct (mCallback (object m)); reflexivity.
  - destruct (deviceAdded_not_ready w (snprintf_path d_name) m1 Hready)
      as [Ho' Hn'].
    apply Hsilent. split; congruence.
Qed.

(** The scan over a whole directory: the entries it registers, in
    directory order. *)
Lemma scan_entries_run w entries : forall m,
  let registered := List.filter (scan_registers w (mCfg (object m))) entries in
  let deviceName d_name :=
    deviceNameOf abi kDeviceVersion (cameraIdOffset (mCfg (object m)))
      (snprintf_path d_name) in
  object (snd (scan_entries abi kDeviceVersion w entries m))
  = set_mCameraStatusMap
      (fun mp => fold_left (fun mp d_name => <[deviceName d_name := PRESENT]> mp)
                   registered mp)
      (object m)
  /\ notifications (trace (snd (scan_entries abi kDeviceVersion w entries m)))
     = (notifications (trace m)
        ++ match mCallback (object m) with
           | Some cb => List.map (fun d_name =>
                                    cameraDeviceStatusChange cb (deviceName d_name) PRESENT)
                          registered
           | None => []
           end)%list.
Proof.
  induction entries as [| d_name rest IH]; intros m registered deviceName.
  - cbn. split; [destruct (object m); reflexivity |].
    destruct (mCallback (object m)); now rewrite List.app_nil_r.
  - destruct (scan_entries_cons w d_name rest m) as (m' & -> & Ho & Hn).
    specialize (IH m'). cbv zeta in IH. destruct IH as [IHo IHn].
    assert (Hcfg : mCfg (object m') = mCfg (object m))
      by (rewrite Ho; destruct (scan_registers _ _ _); destruct (object m); reflexivity).
    assert (Hcb : mCallback (object m') = mCallback (object m))
      by (rewrite Ho; destruct (scan_registers _ _ _); destruct (object m); reflexivity).
    rewrite Hcfg in IHo, IHn. rewrite Hcb in IHn.
    subst registered. cbn [List.filter].
    rewrite IHo, IHn, Hn, Ho.
    destruct (scan_registers w (mCfg (object m)) d_name).
    + split; [destruct (object m); reflexivity |].
      destruct (mCallback (object m)); rewrite <- List.app_assoc; reflexivity.
    + split; [reflexivity |].
      destruct (mCallback (object m)); rewrite <- List.app_assoc; reflexivity.
Qed.
End Build.
End AidlMore.

(** * The AIDL hot-plug thread: the event loop and the watch *)

Module AidlLoop.
Import CLib Sys Aidl AidlRun Observer AidlSpec ProgFacts StepFacts.

Section Build.
Variable abi : ABI.
Variable kDeviceVersion : string.

Lemma event_loop_other_watch w e rest buf m :
  wd e <> mWd (mHotPlugThread (object m)) ->
  event_loop abi kDeviceVersion w (e :: rest) buf m
  = event_loop abi kDeviceVersion w rest buf m.
Proof.
  intros Hwd. cbn [event_loop]. run.
  apply Z.eqb_neq in Hwd. rewrite Hwd. reflexivity.
Qed.

Lemma event_loop_other_name w e rest buf m :
  wd e = mWd (mHotPlugThread (object m)) ->
  has_prefix "cec" (name e) = false ->
  has_prefix kPrefix (name e) = false ->
  event_loop abi kDeviceVersion w (e :: rest) buf m
  = event_loop abi kDeviceVersion w rest buf
      {| object := object m;
         trace := trace m ++ [ALOGI ("threadLoop inotify_event " +:+ name e)] |}.
Proof.
  intros Hwd Hcec Hvideo. cbn [event_loop]. run.
  apply Z.eqb_eq in Hwd. rewrite Hwd, Hcec, Hvideo. reflexivity.
Qed.

(** The event loop gives up only where a cec entry was created and
    /dev/ cannot be opened. *)
Lemma event_loop_false w events : forall buf m,
  fst (event_loop abi kDeviceVersion w events buf m) = false ->
  dev_entries w = None
  /\ exists e, In e events /\ has_prefix "cec" (name e) = true
               /\ has_bits (mask e) IN_CREATE = true.
Proof.
  induction events as [| e rest IH]; intros buf m; cbn [event_loop]; [discriminate |].
  run. destruct (negb _).
  - intros H. destruct (IH _ _ H) as (Hd & e' & Hin & He'). split; [exact Hd |].
    exists e'. split; [right; exact Hin | exact He'].
  - destruct (has_prefix "cec" (name e)) eqn:Hcec.
    + unfold cec_event. destruct (has_bits (mask e) IN_CREATE) eqn:Hcreate.
      * run. destruct (dev_entries w) as [entries |] eqn:Hentries.
        -- run. intros H. destruct (IH _ _ H) as (Hd & _). discriminate.
        -- intros _. split; [reflexivity |]. exists e. split; [left; reflexivity | auto].
      * destruct (has_bits (mask e) IN_DELETE); run;
          intros H; destruct (IH _ _ H) as (Hd & e' & Hin & He');
          (split; [exact Hd |]); exists e'; (split; [right; exact Hin | exact He']).
    + run. intros H. destruct (IH _ _ H) as (Hd & e' & Hin & He'). split; [exact Hd |].
      exists e'. split; [right; exact Hin | exact He'].
Qed.
End Build.
End AidlLoop.

Module AidlWatch.
Import CLib Sys Aidl AidlRun Observer AidlSpec ProgFacts StepFacts.

Lemma keeps_watch_refl m : keeps_watch m m.
Proof. split; [reflexivity |]. exists []. split; [now rewrite List.app_nil_r | reflexivity]. Qed.

Lemma keeps_watch_trans a b c : keeps_watch a b -> keeps_watch b c -> keeps_watch a c.
Proof.
  intros (Ht1 & t1 & Htr1 & Hf1) (Ht2 & t2 & Htr2 & Hf2). split; [congruence |].
  exists (t1 ++ t2)%list. split.
  - rewrite Htr2, Htr1. symmetry. apply List.app_assoc.
  - rewrite forallb_app, Hf1, Hf2. reflexivity.
Qed.

Lemma keeps_watch_emit m e :
  negb (is_inotify_setup e) = true ->
  keeps_watch m {| object := object m; trace := trace m ++ [e] |}.
Proof.
  intros He. split; [reflexivity |]. exists [e]. split; [reflexivity |].
  cbn. now rewrite He.
Qed.

Lemma keeps_watch_map f : steps keeps_watch (modify (set_mCameraStatusMap f)).
Proof.
  intros m. split; [reflexivity |].
  exists []. split; [cbn; now rewrite List.app_nil_r | reflexivity].
Qed.

Lemma keeps_watch_callback cb : steps keeps_watch (modify (set_mCallback cb)).
Proof.
  intros m. split; [reflexivity |].
  exists []. split; [cbn; now rewrite List.app_nil_r | reflexivity].
Qed.

Ltac watch base :=
  step_rel keeps_watch_refl keeps_watch_trans
           (fun e => negb (is_inotify_setup e)) keeps_watch_emit
           ltac:(first [base | apply keeps_watch_map | apply keeps_watch_callback]).

Lemma for_each_status_keeps_watch cb l : steps keeps_watch (for_each_status cb l).
Proof.
  induction l as [| kv l IH]; cbn [for_each_status]; watch ltac:(apply IH).
Qed.

Lemma setCallback_keeps_watch cb : steps keeps_watch (setCallback cb).
Proof. unfold setCallback. watch ltac:(apply for_each_status_keeps_watch). Qed.

Lemma getCameraDeviceInterface_keeps_watch w n out :
  steps keeps_watch (getCameraDeviceInterface w n out).
Proof.
  unfold getCameraDeviceInterface. destruct out; [| apply (steps_ret _ keeps_watch_refl)].
  apply (steps_bind _ keeps_watch_trans); [apply (steps_get _ keeps_watch_refl) | intros p].
  destruct (matchDeviceName _ _ _ _) as [e | [[match_ v] path]].
  - apply (steps_ret _ keeps_watch_refl).
  - watch ltac:(fail).
Qed.

Lemma isExternalDevice_keeps_watch w d s h : steps keeps_watch (isExternalDevice w d s h).
Proof. unfold isExternalDevice. cbv zeta. watch ltac:(fail). Qed.

Section Build.
Variable abi : ABI.
Variable kDeviceVersion : string.

Lemma addExternalCamera_keeps_watch devName :
  steps keeps_watch (addExternalCamera abi kDeviceVersion devName).
Proof. unfold addExternalCamera. cbv zeta. watch ltac:(fail). Qed.

Lemma deviceRemoved_keeps_watch devName :
  steps keeps_watch (deviceRemoved abi kDeviceVersion devName).
Proof. unfold deviceRemoved. cbv zeta. watch ltac:(fail). Qed.

Lemma deviceAdded_keeps_watch w devName :
  steps keeps_watch (deviceAdded abi kDeviceVersion w devName).
Proof. unfold deviceAdded. watch ltac:(apply addExternalCamera_keeps_watch). Qed.

Lemma scan_entries_keeps_watch w entries :
  steps keeps_watch (scan_entries abi kDeviceVersion w entries).
Proof.
  induction entries as [| d rest IH]; cbn [scan_entries].
  - apply (steps_ret _ keeps_watch_refl).
  - watch ltac:(first [apply IH | apply deviceAdded_keeps_watch
                      | apply isExternalDevice_keeps_watch]).
Qed.

Lemma updateAttachedCameras_keeps_watch w :
  steps keeps_watch (updateAttachedCameras abi kDeviceVersion w).
Proof. unfold updateAttachedCameras. watch ltac:(apply scan_entries_keeps_watch). Qed.

Lemma cec_scan_keeps_watch w entries buf :
  steps keeps_watch (cec_scan abi kDeviceVersion w entries buf).
Proof.
  induction entries as [| d rest IH]; cbn [cec_scan].
  - apply (steps_ret _ keeps_watch_refl).
  - watch ltac:(first [apply IH | apply deviceAdded_keeps_watch
                      | apply isExternalDevice_keeps_watch]).
Qed.

Lemma cec_event_keeps_watch w e buf :
  steps keeps_watch (cec_event abi kDeviceVersion w e buf).
Proof.
  unfold cec_event.
  watch ltac:(first [apply cec_scan_keeps_watch | apply deviceRemoved_keeps_watch]).
Qed.

Lemma video_event_keeps_watch w e : steps keeps_watch (video_event abi kDeviceVersion w e).
Proof.
  unfold video_event. cbv zeta.
  watch ltac:(first [apply deviceAdded_keeps_watch | apply deviceRemoved_keeps_watch
                    | apply isExternalDevice_keeps_watch]).
Qed.

Lemma event_loop_keeps_watch w events : forall buf,
  steps keeps_watch (event_loop abi kDeviceVersion w events buf).
Proof.
  induction events as [| e rest IH]; intros buf; cbn [event_loop].
  - apply (steps_ret _ keeps_watch_refl).
  - watch ltac:(first [apply IH | apply cec_event_keeps_watch
                      | apply video_event_keeps_watch]).
Qed.

(** An initialised thread goes straight to poll. *)
Lemma threadLoop_keeps_watch w stack m :
  mIsInitialized (mHotPlugThread (object m)) = true ->
  keeps_watch m (snd (threadLoop abi kDeviceVersion w stack m)).
Proof.
  intros Hinit. unfold threadLoop. rewrite bind_run. cbn [get fst snd].
  rewrite Hinit, bind_run, ret_run. cbn [fst snd negb].
  revert m Hinit. 
  assert (H : steps keeps_watch
            (emit (sys_poll 250);;
             if poll_ret w =? 0 then mret true
             else if poll_ret w <? 0 then
               emit (ALOGE "threadLoop: error while polling for /dev/*");; mret true
             else if has_bits (poll_revents w) POLLERR then
               emit (ALOGE "threadLoop: polling /dev/ returned POLLERR");; mret true
             else if has_bits (poll_revents w) POLLHUP then
               emit (ALOGE "threadLoop: polling /dev/ returned POLLHUP");; mret true
             else if has_bits (poll_revents w) POLLNVAL then
               emit (ALOGE "threadLoop: polling /dev/ returned POLLNVAL");; mret true
             else
               emit sys_read;;
               match read_events w with
               | None => mret true
               | Some events => event_loop abi kDeviceVersion w events stack
               end)).
  { watch ltac:(apply event_loop_keeps_watch). }
  intros m _. apply H.
Qed.

Lemma exec_keeps_watch c m :
  mIsInitialized (mHotPlugThread (object m)) = true ->
  keeps_watch m (exec abi kDeviceVersion c m).
Proof.
  intros Hinit. destruct c; cbn [exec].
  - apply setCallback_keeps_watch.
  - destruct _aidl_return; apply keeps_watch_refl.
  - destruct _aidl_return; apply keeps_watch_refl.
  - apply getCameraDeviceInterface_keeps_watch.
  - apply keeps_watch_refl.
  - destruct _aidl_return; apply keeps_watch_refl.
  - destruct _aidl_return; apply keeps_watch_refl.
  - now apply threadLoop_keeps_watch.
  - apply updateAttachedCameras_keeps_watch.
  - apply deviceAdded_keeps_watch.
  - apply deviceRemoved_keeps_watch.
  - apply addExternalCamera_keeps_watch.
Qed.

Lemma run_keeps_watch calls : forall m,
  mIsInitialized (mHotPlugThread (object m)) = true ->
  keeps_watch m (fold_left (fun m c => exec abi kDeviceVersion c m) calls m).
Proof.
  induction calls as [| c calls IH]; intros m Hinit; [apply keeps_watch_refl |].
  cbn [fold_left]. pose proof (exec_keeps_watch c m Hinit) as Hc.
  eapply keeps_watch_trans; [exact Hc |]. apply IH.
  destruct Hc as [-> _]. exact Hinit.
Qed.

(** A failed initialisation leaves the thread uninitialised, with what
    the scan registered. *)
Lemma threadLoop_initialize_fails w stack m :
  mIsInitialized (mHotPlugThread (object m)) = false ->
  inotify_init_ret w < 0 \/ inotify_add_watch_ret w < 0 ->
  threadLoop abi kDeviceVersion w stack m
  = (true, snd (initialize abi kDeviceVersion w m))
  /\ fst (initialize abi kDeviceVersion w m) = false.
Proof.
  intros Hinit Hfail. unfold threadLoop. rewrite bind_run. cbn [get fst snd].
  rewrite Hinit, bind_run.
  assert (Hi : fst (initialize abi kDeviceVersion w m) = false).
  { unfold initialize. run.
    destruct (Z.ltb_spec (inotify_init_ret w) 0); [reflexivity |].
    destruct (Z.ltb_spec (inotify_add_watch_ret w) 0); [reflexivity | lia]. }
  rewrite Hi. split; reflexivity.
Qed.
End Build.
End AidlWatch.

(** * The AIDL provider: the names in the status map *)

Module AidlNames.
Import CLib Sys Aidl AidlRun Observer AidlSpec ProgFacts.

Section Build.
Variable abi : ABI.
Variable kDeviceVersion : string.

(** Every key of the status map ends in the decimal form of the number
    the provider computed: an int, or a uint32_t when the offset is
    declared unsigned. *)
Lemma reachable_keys_int cfg m :
  reachable abi kDeviceVersion cfg m ->
  forall key, is_Some (mCameraStatusMap (object m) !! key) ->
    exists n, INT_MIN <= n < 2 ^ 32
              /\ (cameraIdOffset_unsigned abi = false -> n <= INT_MAX)
              /\ key = "device@" +:+ kDeviceVersion +:+ "/external/" +:+ to_string n.
Proof.
  apply (AidlFacts.reachable_invariant abi kDeviceVersion
           (fun p => forall key, is_Some (mCameraStatusMap p !! key) ->
              exists n, INT_MIN <= n < 2 ^ 32
                        /\ (cameraIdOffset_unsigned abi = false -> n <= INT_MAX)
                        /\ key = "device@" +:+ kDeviceVersion +:+ "/external/"
                                 +:+ to_string n)).
  - intros devName p Hp key. destruct p as [c mp cb t].
    cbn [set_mCameraStatusMap mCameraStatusMap mCfg] in *.
    destruct (decide (deviceNameOf abi kDeviceVersion (cameraIdOffset c) devName = key))
      as [<- | Hne].
    + intros _. unfold deviceNameOf. eexists.
      split; [apply NameFacts.offset_add_range |].
      split; [apply NameFacts.offset_add_signed | reflexivity].
    + rewrite lookup_insert_ne by exact Hne. apply Hp.
  - intros id p Hp key. destruct p as [c mp cb t].
    cbn [set_mCameraStatusMap mCameraStatusMap] in *.
    intros [st Hst]. apply lookup_delete_Some in Hst as [_ Hst]. apply Hp. eauto.
  - intros cb p Hp. destruct p. exact Hp.
  - intros f p _ Hp. destruct p. exact Hp.
  - cbn. intros key [st Hst]. rewrite lookup_empty in Hst. discriminate.
Qed.
End Build.
End AidlNames.

(** * The rescan for the HDMI receiver *)

Module AidlCec.
Import CLib Sys Aidl AidlRun Observer AidlSpec ProgFacts StepFacts AidlMore.

Lemma length_strncpy_strlen dst src :
  (String.length src <= length dst)%nat ->
  length (strncpy_strlen dst src) = length dst.
Proof.
  intros Hle. unfold strncpy_strlen. cbv zeta.
  assert (Hlen : length (list_ascii_of_string src) = String.length src).
  { clear. induction src as [| c s IH]; [reflexivity | cbn; now rewrite IH]. }
  rewrite List.length_app, length_drop, Hlen. lia.
Qed.

Lemma length_snprintf_path d_name :
  (String.length (snprintf_path d_name) <= kMaxDevicePathLen - 1)%nat.
Proof.
  unfold snprintf_path.
  assert (Hlen : forall l, String.length (string_of_list_ascii l) = length l).
  { induction l as [| c l IH]; [reflexivity | cbn; now rewrite IH]. }
  rewrite Hlen, length_take. lia.
Qed.

Section Build.
Variable abi : ABI.
Variable kDeviceVersion : string.

(** The machine after the classification of [d_name] in the rescan. *)
Abbreviation probed w d_name m :=
  (snd (isExternalDevice w (snprintf_path d_name) (sprintf_sysclass d_name) (Some false)
          {| object := object m; trace := trace m ++ [sys_usleep 800000] |})).

Lemma probed_quiet w d_name (m : Machine ExternalCameraProvider) :
  object (probed w d_name m) = object m
  /\ notifications (trace (probed w d_name m)) = notifications (trace m).
Proof.
  destruct (AidlFacts.isExternalDevice_quiet w (snprintf_path d_name)
              (sprintf_sysclass d_name) (Some false)
              {| object := object m; trace := trace m ++ [sys_usleep 800000] |})
    as [Ho Hn].
  split; [exact Ho |]. rewrite Hn. cbn [trace]. rewrite notifications_app.
  apply List.app_nil_r.
Qed.

(** An entry that is not the receiver is passed over. *)
Lemma cec_scan_skip w d_name rest buf m :
  is_receiver w d_name = false ->
  cec_scan abi kDeviceVersion w (d_name :: rest) buf m
  = cec_scan abi kDeviceVersion w rest buf
      (if has_prefix kPrefix d_name then probed w d_name m else m).
Proof.
  unfold is_receiver. intros Hrecv. cbn [cec_scan].
  destruct (has_prefix kPrefix d_name); [| reflexivity].
  pose proof (isExternalDevice_classify w (snprintf_path d_name)
                (sprintf_sysclass d_name) (Some false)
                {| object := object m; trace := trace m ++ [sys_usleep 800000] |})
    as Hr.
  run. destruct (isExternalDevice _ _ _ _ _) as [[ext h] m1]. cbn [fst snd] in *.
  injection Hr as -> ->. cbn [andb] in Hrecv.
  unfold default, from_option, id. rewrite Hrecv. reflexivity.
Qed.

(** The receiver ends the scan. *)
Lemma cec_scan_receiver w d_name rest buf m :
  is_receiver w d_name = true ->
  cec_scan abi kDeviceVersion w (d_name :: rest) buf m
  = (strncpy_strlen buf (snprintf_path d_name),
     {| object := object (snd (deviceAdded abi kDeviceVersion w
                                 (snprintf_path d_name) (probed w d_name m)));
        trace := trace (snd (deviceAdded abi kDeviceVersion w
                               (snprintf_path d_name) (probed w d_name m)))
                 ++ [ALOGI ("threadLoop: add mHdmiRxNode------:"
                            +:+ c_str (strncpy_strlen buf (snprintf_path d_name)))] |}).
Proof.
  unfold is_receiver. intros Hrecv.
  apply andb_true_iff in Hrecv as [Hrecv Hsnd].
  apply andb_true_iff in Hrecv as [Hprefix Hfst].
  pose proof (isExternalDevice_classify w (snprintf_path d_name)
                (sprintf_sysclass d_name) (Some false)
                {| object := object m; trace := trace m ++ [sys_usleep 800000] |})
    as Hr.
  cbn [cec_scan]. rewrite Hprefix. run.
  destruct (isExternalDevice _ _ _ _ _) as [[ext h] m1]. cbn [fst snd] in *.
  injection Hr as -> ->. rewrite Hfst, Hsnd. reflexivity.
Qed.

Lemma cec_scan_length w entries : forall buf m,
  length buf = kMaxDevicePathLen ->
  length (fst (cec_scan abi kDeviceVersion w entries buf m)) = kMaxDevicePathLen.
Proof.
  induction entries as [| d_name rest IH]; intros buf m Hlen; [exact Hlen |].
  destruct (is_receiver w d_name) eqn:Hrecv.
  - rewrite (cec_scan_receiver w d_name rest buf m Hrecv).
    cbn [fst]. rewrite length_strncpy_strlen; [exact Hlen |].
    pose proof (length_snprintf_path d_name). lia.
  - rewrite (cec_scan_skip w d_name rest buf m Hrecv). now apply IH.
Qed.
End Build.
End AidlCec.

(** * Records for video nodes *)

Module AidlHotplug.
Import CLib Sys Aidl AidlRun Observer AidlSpec ProgFacts StepFacts AidlMore.

Section Build.
Variable abi : ABI.
Variable kDeviceVersion : string.

(** A record of the watched directory for a node named video*. *)
Lemma event_loop_video w e rest buf m :
  wd e = mWd (mHotPlugThread (object m)) ->
  has_prefix kPrefix (name e) = true ->
  event_loop abi kDeviceVersion w (e :: rest) buf m
  = event_loop abi kDeviceVersion w rest buf
      (snd (video_event abi kDeviceVersion w e
              {| object := object m;
                 trace := trace m ++ [ALOGI ("threadLoop inotify_event " +:+ name e)] |})).
Proof.
  intros Hwd Hvideo. cbn [event_loop]. run.
  apply Z.eqb_eq in Hwd. rewrite Hwd, Hvideo. cbn [negb].
  assert (Hcec : has_prefix "cec" (name e) = false).
  { unfold has_prefix, kPrefix in *. destruct (name e) as [| c s]; [discriminate |].
    cbn [String.prefix] in Hvideo |- *.
    destruct (Ascii.ascii_dec "v" c) as [<- | Hne]; [| discriminate].
    destruct (Ascii.ascii_dec "c" "v") as [Hcv | Hcv]; [discriminate Hcv | reflexivity]. }
  rewrite Hcec. reflexivity.
Qed.

(** The record of a created node that is external and ready. *)
Lemma video_event_create w e m :
  has_bits (mask e) IN_CREATE = true ->
  advance kPrefixLen (name e) ∉ t_mInternalDevices (mHotPlugThread (object m)) ->
  fst (classify w (snprintf_path (name e)) (sprintf_sysclass (name e))) = true ->
  capture_ready w Device_aidl (snprintf_path (name e)) = true ->
  let deviceName := deviceNameOf abi kDeviceVersion (cameraIdOffset (mCfg (object m)))
                      (snprintf_path (name e)) in
  object (snd (video_event abi kDeviceVersion w e m))
  = set_mCameraStatusMap (insert deviceName PRESENT) (object m)
  /\ notifications (trace (snd (video_event abi kDeviceVersion w e m)))
     = (notifications (trace m)
        ++ match mCallback (object m) with
           | Some cb => [cameraDeviceStatusChange cb deviceName PRESENT]
           | None => []
           end)%list.
Proof.
  intros Hcreate Hint Hext Hready deviceName. unfold video_event. run.
  rewrite bool_decide_eq_false_2 by exact Hint. rewrite Hcreate. run.
  pose proof (isExternalDevice_classify w (snprintf_path (name e))
                (sprintf_sysclass (name e)) None
                {| object := object m; trace := trace m ++ [sys_usleep 100000] |}) as Hr.
  destruct (AidlFacts.isExternalDevice_quiet w (snprintf_path (name e))
              (sprintf_sysclass (name e)) None
              {| object := object m; trace := trace m ++ [sys_usleep 100000] |})
    as [Ho Hn].
  destruct (isExternalDevice _ _ _ _ _) as [[ext h] m1]. cbn [fst snd object trace] in *.
  injection Hr as -> _. rewrite Hext.
  rewrite deviceAdded_ready by exact Hready.
  rewrite AidlFacts.addExternalCamera_run. cbn [snd object trace]. rewrite Ho.
  split; [reflexivity |]. rewrite !notifications_app, Hn, notifications_app.
  change (notifications (capture_probe Device_aidl (snprintf_path (name e))))
    with (@nil Effect).
  cbn [notifications List.filter is_notification]. rewrite !List.app_nil_r.
  destruct (mCallback (object m)); reflexivity.
Qed.

(** The record of a deleted node. *)
Lemma video_event_delete w e m :
  has_bits (mask e) IN_CREATE = false ->
  has_bits (mask e) IN_DELETE = true ->
  advance kPrefixLen (name e) ∉ t_mInternalDevices (mHotPlugThread (object m)) ->
  video_event abi kDeviceVersion w e m
  = deviceRemoved abi kDeviceVersion (snprintf_path (name e)) m.
Proof.
  intros Hcreate Hdelete Hint. unfold video_event. run.
  rewrite bool_decide_eq_false_2 by exact Hint. rewrite Hcreate, Hdelete. reflexivity.
Qed.
End Build.
End AidlHotplug.

(** * The HIDL provider: registration and removal *)

Module HidlMore.
Import CLib Sys Hidl Observer ProgFacts StepFacts.

Section Build.
Variable abi : ABI.

Ltac silent :=
  cbn [fst snd object trace]; split;
  [reflexivity
  | repeat rewrite notifications_app; cbn [notifications List.filter is_notification];
    repeat rewrite List.app_nil_r; reflexivity].

Lemma deviceAdded_ready_2_4 w devName m :
  capture_ready w Device_3_4 devName = true ->
  deviceAdded abi w devName m
  = addExternalCamera abi devName
      {| object := object m; trace := trace m ++ capture_probe Device_3_4 devName |}.
Proof.
  unfold capture_ready, construction_fails, deviceAdded, capture_probe. intros Hready. run.
  destruct (open_ok w devName O_RDWR); [| discriminate].
  destruct (ioctl_querycap w devName) as [capability |]; [| discriminate].
  destruct (has_bits _ _); [| discriminate].
  destruct (make_device w Device_3_4 devName) as [deviceImpl |]; [| discriminate].
  destruct (isInitFailed deviceImpl); [discriminate |].
  cbn [negb object trace]. repeat rewrite <- List.app_assoc. reflexivity.
Qed.

Lemma deviceAdded_not_ready_2_4 w devName m :
  capture_ready w Device_3_4 devName = false ->
  object (snd (deviceAdded abi w devName m)) = object m
  /\ notifications (trace (snd (deviceAdded abi w devName m))) = notifications (trace m).
Proof.
  unfold capture_ready, construction_fails, deviceAdded. intros Hready. run.
  destruct (open_ok w devName O_RDWR); cbn [negb];
    [| silent].
  destruct (ioctl_querycap w devName) as [capability |];
    [| silent].
  destruct (has_bits _ _); cbn [negb];
    [| silent].
  destruct (make_device w Device_3_4 devName) as [deviceImpl |];
    [| silent].
  destruct (isInitFailed deviceImpl); [| discriminate].
  silent.
Qed.

Lemma deviceRemoved_known_2_4 devName m st :
  mCameraStatusMap (object m)
    !! deviceNameOf abi (mPreferredHal3MinorVersion (object m))
         (cameraIdOffset (mCfg (object m))) devName = Some st ->
  deviceRemoved abi devName m =
    (tt, {| object := set_mCameraStatusMap
                        (delete (deviceNameOf abi (mPreferredHal3MinorVersion (object m))
                                   (cameraIdOffset (mCfg (object m))) devName))
                        (object m);
            trace := trace m ++
              match mCallbacks (object m) with
              | Some cb => [cameraDeviceStatusChange cb
                              (deviceNameOf abi (mPreferredHal3MinorVersion (object m))
                                 (cameraIdOffset (mCfg (object m))) devName)
                              NOT_PRESENT]
              | None => []
              end |}).
Proof.
  intros Hsome. unfold deviceRemoved. run.
  rewrite bool_decide_eq_true_2 by (rewrite Hsome; eauto).
  destruct (mCallbacks (object m)); cbn [fst snd object trace].
  - reflexivity.
  - rewrite List.app_nil_r. reflexivity.
Qed.
End Build.
End HidlMore.

(** * The HIDL provider: what it keeps and delivers *)

Module HidlDelivery.
Import CLib Sys Hidl HidlRun Observer ProgFacts StepFacts.

Section Build.
Variable abi : ABI.
Abbreviation delivered := (HidlRun.delivered abi).

Lemma delivered_refl_2_4 m : delivered m m.
Proof.
repeat split; auto. exists []. split; [now rewrite List.app_nil_r |].
destruct (mCallbacks (object m)); [split; [constructor | reflexivity] | reflexivity].
Qed.

Lemma delivered_trans_2_4 a b c : delivered a b -> delivered b c -> delivered a c.
Proof.
intros (Hcfg1 & Hv1 & Hi1 & Hcb1 & Hnt1 & Hk1 & t1 & Ht1 & H1)
       (Hcfg2 & Hv2 & Hi2 & Hcb2 & Hnt2 & Hk2 & t2 & Ht2 & H2).
split; [congruence |]. split; [congruence |]. split; [congruence |].
split; [congruence |]. split; [auto |]. split.
{ intros key Hkey. destruct (Hk2 key Hkey) as [Hin | Hf]; [auto |].
  right. now rewrite <- Hv1. }
exists (t1 ++ t2)%list. split; [rewrite Ht2, Ht1; symmetry; apply List.app_assoc |].
rewrite Hcb1 in H2. destruct (mCallbacks (object a)) as [cb |].
- destruct H1 as [Hf1 Hview1], H2 as [Hf2 Hview2]. split.
  + apply Forall_app. auto.
  + now rewrite subscriber_view_app, Hview1.
- now rewrite notifications_app, H1, H2.
Qed.

Lemma delivered_emit_2_4 m e :
negb (is_notification e) = true ->
delivered m {| object := object m; trace := trace m ++ [e] |}.
Proof.
intros He. apply negb_true_iff in He. repeat split; auto.
exists [e]. split; [reflexivity |].
destruct (mCallbacks (object m)).
- split.
  + constructor; [| constructor]. destruct e; try exact I. discriminate.
  + destruct e; try reflexivity. discriminate.
- cbn. now rewrite He.
Qed.

Lemma delivered_thread_2_4 f :
(forall t, t_mInternalDevices (f t) = t_mInternalDevices t) ->
steps delivered (modify (set_mHotPlugThread f)).
Proof.
intros Hf m. cbn [modify snd]. repeat split; auto.
- cbn. apply Hf.
- exists []. split; [cbn; now rewrite List.app_nil_r |].
  cbn. destruct (mCallbacks (object m)); [split; [constructor | reflexivity] |].
  reflexivity.
Qed.

Lemma deviceNameOf_formed minor O devName :
formed abi minor (deviceNameOf abi minor O devName).
Proof.
unfold formed, deviceNameOf, version_2_4. eexists.
split; [apply NameFacts.offset_add_range |].
split; [apply NameFacts.offset_add_signed |].
destruct (minor =? 6); [reflexivity |]. destruct (minor =? 5); reflexivity.
Qed.

Lemma no_tombstone_insert name p :
no_tombstone p -> no_tombstone (set_mCameraStatusMap (insert name PRESENT) p).
Proof.
intros Hp id st. cbn. destruct (decide (name = id)) as [-> | Hne].
- rewrite lookup_insert_eq. congruence.
- rewrite lookup_insert_ne by exact Hne. apply Hp.
Qed.

Lemma no_tombstone_delete name p :
no_tombstone p -> no_tombstone (set_mCameraStatusMap (delete name) p).
Proof.
intros Hp id st. cbn. intros Hl. apply lookup_delete_Some in Hl as [_ Hl].
eapply Hp, Hl.
Qed.

Ltac deliver base :=
step_rel delivered_refl_2_4 delivered_trans_2_4
         (fun e => negb (is_notification e)) delivered_emit_2_4 base.

Lemma isExternalDevice_delivered_2_4 w d s h : steps delivered (isExternalDevice w d s h).
Proof. unfold isExternalDevice. cbv zeta. deliver ltac:(fail). Qed.

Lemma getCameraDeviceInterface_V3_x_delivered w n :
steps delivered (getCameraDeviceInterface_V3_x w n).
Proof.
unfold getCameraDeviceInterface_V3_x.
apply (steps_bind _ delivered_trans_2_4); [apply (steps_get _ delivered_refl_2_4) |].
intros p. destruct (matchDeviceName _ _ _ _) as [e | [[match_ v] path]].
- apply (steps_ret _ delivered_refl_2_4).
- deliver ltac:(fail).
Qed.

Lemma addExternalCamera_delivered_2_4 devName :
  steps delivered (addExternalCamera abi devName).
Proof.
  intros m. rewrite HidlFacts.addExternalCamera_run_2_4. cbn [snd].
  repeat split; auto.
  - apply no_tombstone_insert.
  - intros key. cbn.
    destruct (decide (deviceNameOf abi (mPreferredHal3MinorVersion (object m))
                        (cameraIdOffset (mCfg (object m))) devName = key)) as [<- | Hne].
    + intros _. right. apply deviceNameOf_formed.
    + rewrite lookup_insert_ne by exact Hne. auto.
  - eexists. split; [reflexivity |].
    destruct (object m) as [cfg mp [cb |] v th]; cbn.
    + split; [repeat constructor | reflexivity].
    + reflexivity.
Qed.

Lemma deviceRemoved_delivered_2_4 devName :
  steps delivered (deviceRemoved abi devName).
Proof.
  intros m.
  destruct (mCameraStatusMap (object m)
              !! deviceNameOf abi (mPreferredHal3MinorVersion (object m))
                   (cameraIdOffset (mCfg (object m))) devName) as [st |] eqn:Hl.
  - rewrite (HidlMore.deviceRemoved_known_2_4 _ _ _ _ Hl). cbn [snd].
    repeat split; auto.
    + apply no_tombstone_delete.
    + intros key. cbn. intros [x Hx]. apply lookup_delete_Some in Hx as [_ Hx]. eauto.
    + eexists. split; [reflexivity |].
      destruct (object m) as [cfg mp [cb |] v th]; cbn.
      * split; [repeat constructor | reflexivity].
      * reflexivity.
  - rewrite (HidlFacts.deviceRemoved_unknown_2_4 _ _ _ Hl). cbn [snd].
    now apply delivered_emit_2_4.
Qed.

Lemma deviceAdded_delivered_2_4 w devName : steps delivered (deviceAdded abi w devName).
Proof. unfold deviceAdded. deliver ltac:(apply addExternalCamera_delivered_2_4). Qed.

Lemma scan_entries_delivered_2_4 w entries : steps delivered (scan_entries abi w entries).
Proof.
  induction entries as [| d rest IH]; cbn [scan_entries].
  - apply (steps_ret _ delivered_refl_2_4).
  - deliver ltac:(first [apply IH | apply deviceAdded_delivered_2_4
                        | apply isExternalDevice_delivered_2_4]).
Qed.

Lemma threadLoop_begin_delivered w : steps delivered (threadLoop_begin abi w).
Proof.
  unfold threadLoop_begin.
  deliver ltac:(first [apply scan_entries_delivered_2_4
                      | apply delivered_thread_2_4; reflexivity]).
Qed.

Lemma cec_scan_delivered_2_4 w entries buf : steps delivered (cec_scan abi w entries buf).
Proof.
  induction entries as [| d rest IH]; cbn [cec_scan].
  - apply (steps_ret _ delivered_refl_2_4).
  - deliver ltac:(first [apply IH | apply deviceAdded_delivered_2_4
                        | apply isExternalDevice_delivered_2_4]).
Qed.

Lemma cec_event_delivered_2_4 w e buf : steps delivered (cec_event abi w e buf).
Proof.
  unfold cec_event.
  deliver ltac:(first [apply cec_scan_delivered_2_4 | apply deviceRemoved_delivered_2_4]).
Qed.

Lemma video_event_delivered_2_4 w e : steps delivered (video_event abi w e).
Proof.
  unfold video_event. cbv zeta.
  deliver ltac:(first [apply deviceAdded_delivered_2_4 | apply deviceRemoved_delivered_2_4
                      | apply isExternalDevice_delivered_2_4]).
Qed.

Lemma event_loop_delivered_2_4 w events : forall buf,
  steps delivered (event_loop abi w events buf).
Proof.
  induction events as [| e rest IH]; intros buf; cbn [event_loop].
  - apply (steps_ret _ delivered_refl_2_4).
  - deliver ltac:(first [apply IH | apply cec_event_delivered_2_4
                        | apply video_event_delivered_2_4]).
Qed.

Lemma watch_iteration_delivered w buf : steps delivered (watch_iteration abi w buf).
Proof. unfold watch_iteration. deliver ltac:(apply event_loop_delivered_2_4). Qed.

Lemma watch_loop_delivered ws : forall buf, steps delivered (watch_loop abi ws buf).
Proof.
  induction ws as [| w ws IH]; intros buf; cbn [watch_loop].
  - apply (steps_ret _ delivered_refl_2_4).
  - deliver ltac:(first [apply IH | apply watch_iteration_delivered]).
Qed.

Lemma threadLoop_delivered_2_4 w0 ws stack : steps delivered (threadLoop abi w0 ws stack).
Proof.
  unfold threadLoop.
  deliver ltac:(first [apply threadLoop_begin_delivered | apply watch_loop_delivered]).
Qed.

Lemma exec_delivered_2_4 c m :
  is_setCallback c = false -> delivered m (exec abi c m).
Proof.
  intros Hc. destruct c; try discriminate; cbn [exec]; try apply delivered_refl_2_4.
  - apply getCameraDeviceInterface_V3_x_delivered.
  - apply threadLoop_delivered_2_4.
  - apply deviceAdded_delivered_2_4.
  - apply deviceRemoved_delivered_2_4.
  - apply addExternalCamera_delivered_2_4.
Qed.

Lemma run_delivered_2_4 calls : forall m,
  forallb (fun c => negb (is_setCallback c)) calls = true ->
  delivered m (fold_left (fun m c => exec abi c m) calls m).
Proof.
  induction calls as [| c calls IH]; intros m Hcalls; [apply delivered_refl_2_4 |].
  cbn [forallb] in Hcalls. apply andb_true_iff in Hcalls as [Hc Hcalls].
  apply negb_true_iff in Hc. cbn [fold_left].
  eapply delivered_trans_2_4; [apply exec_delivered_2_4; exact Hc | apply IH; exact Hcalls].
Qed.

Lemma for_each_status_run_2_4 cb l m :
  for_each_status cb l m =
    (tt, {| object := object m;
            trace := trace m ++ List.map (fun kv => cameraDeviceStatusChange cb (fst kv) (snd kv)) l |}).
Proof.
  revert m. induction l as [| kv l IH]; intros m.
  - cbn [for_each_status List.map]. rewrite List.app_nil_r, machine_eta. reflexivity.
  - cbn [for_each_status List.map]. rewrite bind_run, IH. cbn [emit fst snd object trace].
    rewrite <- List.app_assoc. reflexivity.
Qed.

Lemma setCallback_run_2_4 callback m :
  setCallback callback m =
    (OK, {| object := set_mCallbacks callback (object m);
            trace := trace m ++
              match callback with
              | Some cb => List.map (fun kv => cameraDeviceStatusChange cb (fst kv) (snd kv))
                             (map_to_list (mCameraStatusMap (object m)))
              | None => []
              end |}).
Proof.
  unfold setCallback. run. destruct callback as [cb |]; cbn [mCallbacks set_mCallbacks].
  - rewrite for_each_status_run_2_4. reflexivity.
  - rewrite List.app_nil_r. reflexivity.
Qed.

(** What every state of a run has kept from the constructor. *)
Lemma reachable_kept cfg v m :
  reachable abi cfg v m ->
  mCfg (object m) = cfg
  /\ mPreferredHal3MinorVersion (object m) = mPreferredHal3MinorVersion (construct cfg v)
  /\ t_mInternalDevices (mHotPlugThread (object m)) = mInternalDevices cfg
  /\ no_tombstone (object m)
  /\ forall key, is_Some (mCameraStatusMap (object m) !! key) ->
                 formed abi (mPreferredHal3MinorVersion (object m)) key.
Proof.
  intros Hreach. induction Hreach as [| m c _ IH].
  - repeat split.
    + intros id st Hl. cbn in Hl. rewrite lookup_empty in Hl. discriminate.
    + intros key [x Hx]. cbn in Hx. rewrite lookup_empty in Hx. discriminate.
  - destruct IH as (Hcfg & Hv & Hi & Hnt & Hk).
    destruct (is_setCallback c) eqn:Hc.
    + destruct c; try discriminate. cbn [exec]. rewrite setCallback_run_2_4.
      cbn [snd object]. repeat split; auto.
    + destruct (exec_delivered_2_4 c m Hc) as (Hcfg' & Hv' & Hi' & _ & Hnt' & Hk' & _).
      repeat split; try congruence; [auto |].
      intros key Hkey. rewrite Hv'. destruct (Hk' key Hkey); auto.
Qed.
End Build.
End HidlDelivery.

(** * The HIDL hot-plug thread *)

Module HidlLoop.
Import CLib Sys Hidl HidlRun Observer ProgFacts StepFacts.

Section Build.
Variable abi : ABI.

Lemma cec_scan_length_2_4 w entries : forall buf m,
  length buf = kMaxDevicePathLen ->
  length (fst (cec_scan abi w entries buf m)) = kMaxDevicePathLen.
Proof.
  induction entries as [| d_name rest IH]; intros buf m Hlen; [exact Hlen |].
  cbn [cec_scan]. destruct (has_prefix kPrefix d_name); [| now apply IH].
  run. destruct (isExternalDevice _ _ _ _ _) as [[ext h] m1]. cbn [fst snd].
  destruct (ext && default false h); [| now apply IH].
  cbn [fst]. rewrite AidlCec.length_strncpy_strlen; [exact Hlen |].
  pose proof (AidlCec.length_snprintf_path d_name). unfold snprintf_path.
  unfold Aidl.snprintf_path in H. lia.
Qed.

Lemma event_loop_length_2_4 w events : forall buf m buf',
  length buf = kMaxDevicePathLen ->
  fst (event_loop abi w events buf m) = Some buf' ->
  length buf' = kMaxDevicePathLen.
Proof.
  induction events as [| e rest IH]; intros buf m buf' Hlen; cbn [event_loop].
  - intros [= <-]. exact Hlen.
  - run. destruct (wd e =? _); [| now apply IH].
    destruct (has_prefix kPrefix (name e)).
    + run. now apply IH.
    + destruct (has_prefix "cec" (name e)); [| run; now apply IH].
      unfold cec_event. destruct (has_bits (mask e) IN_CREATE).
      * run. destruct (dev_entries w) as [entries |]; run; [| discriminate].
        apply IH. now apply cec_scan_length_2_4.
      * destruct (has_bits (mask e) IN_DELETE); run; now apply IH.
Qed.

(** The event loop gives up only where a cec entry was created and
    /dev/ cannot be opened. *)
Lemma event_loop_none_2_4 w events : forall buf m,
  fst (event_loop abi w events buf m) = None ->
  dev_entries w = None
  /\ exists e, In e events /\ has_prefix "cec" (name e) = true
               /\ has_bits (mask e) IN_CREATE = true.
Proof.
  assert (Hnext : forall (e : inotify_event) rest,
             (dev_entries w = None
              /\ exists e', In e' rest /\ has_prefix "cec" (name e') = true
                            /\ has_bits (mask e') IN_CREATE = true) ->
             dev_entries w = None
             /\ exists e', In e' (e :: rest) /\ has_prefix "cec" (name e') = true
                           /\ has_bits (mask e') IN_CREATE = true).
  { intros e rest (Hd & e' & Hin & He'). split; [exact Hd |].
    exists e'. split; [right; exact Hin | exact He']. }
  induction events as [| e rest IH]; intros buf m; cbn [event_loop]; [discriminate |].
  run. destruct (wd e =? _); [| intros H; apply Hnext; eapply IH; exact H].
  destruct (has_prefix kPrefix (name e)).
  - run. intros H. apply Hnext. eapply IH. exact H.
  - destruct (has_prefix "cec" (name e)) eqn:Hcec;
      [| run; intros H; apply Hnext; eapply IH; exact H].
    unfold cec_event. destruct (has_bits (mask e) IN_CREATE) eqn:Hcreate.
    + run. destruct (dev_entries w) as [entries |] eqn:Hentries; run.
      * intros H. destruct (IH _ _ H) as (Hd & _). discriminate.
      * intros _. split; [reflexivity |]. exists e. split; [left; reflexivity | auto].
    + destruct (has_bits (mask e) IN_DELETE); run;
        intros H; apply Hnext; eapply IH; exact H.
Qed.

Lemma watch_loop_result ws : forall buf m b,
  fst (watch_loop abi ws buf m) = Some b ->
  b = false
  /\ exists w events e,
       In w ws /\ dev_entries w = None /\ read_events w = Some events /\ In e events
       /\ has_prefix "cec" (name e) = true /\ has_bits (mask e) IN_CREATE = true.
Proof.
  induction ws as [| w ws IH]; intros buf m b; cbn [watch_loop]; [discriminate |].
  rewrite bind_run.
  destruct (fst (watch_iteration abi w buf m)) as [buf' |] eqn:Hit.
  - intros H. destruct (IH _ _ _ H) as (Hb & w' & events & e & Hin & Hrest).
    split; [exact Hb |]. exists w', events, e. split; [right; exact Hin | exact Hrest].
  - intros [= <-]. split; [reflexivity |].
    unfold watch_iteration in Hit. rewrite bind_run in Hit.
    destruct (read_events w) as [events |] eqn:Hread; [| discriminate].
    apply event_loop_none_2_4 in Hit as (Hd & e & Hin & He).
    exists w, events, e. split; [left; reflexivity |]. auto.
Qed.
End Build.
End HidlLoop.

(** * The HIDL provider: classification and the scan *)

Module HidlScan.
Import CLib Sys Hidl HidlRun HidlSpec Observer ProgFacts StepFacts HidlMore.

Lemma isExternalDevice_quiet_2_4 w devName sysClassName isHdmiRx :
  quiet (isExternalDevice w devName sysClassName isHdmiRx).
Proof. unfold isExternalDevice. cbv zeta. step_with ltac:(fail). Qed.

(** The value isExternalDevice returns is [classify] of the world. *)
Lemma isExternalDevice_classify_2_4 w devName sysClassName isHdmiRx m :
  fst (isExternalDevice w devName sysClassName isHdmiRx m)
  = (fst (classify w devName sysClassName),
     match isHdmiRx with
     | Some _ => Some (snd (classify w devName sysClassName))
     | None => None
     end).
Proof.
  unfold isExternalDevice, classify. run.
  destruct (open_ok w devName _); cbn [negb]; [| destruct isHdmiRx; reflexivity].
  destruct (ioctl_querycap w devName) as [vidCap |]; [| destruct isHdmiRx; reflexivity].
  destruct (strstr (driver vidCap) "uvc").
  - destruct (ioctl_enum_fmt_ok w devName); destruct isHdmiRx; reflexivity.
  - destruct (strstr (driver vidCap) "cap"); [| destruct isHdmiRx; reflexivity].
    run. destruct (ReadFileToString w sysClassName) as [buffer |];
      [| destruct isHdmiRx; reflexivity].
    cbn [fst snd]. destruct (compare_prefix _ buffer); destruct isHdmiRx; reflexivity.
Qed.

Section Build.
Variable abi : ABI.

(** What one directory entry of the scan does. *)
Lemma scan_entries_cons_2_4 w d_name rest m :
  exists m',
    scan_entries abi w (d_name :: rest) m = scan_entries abi w rest m'
    /\ object m'
       = (if scan_registers w (t_mInternalDevices (mHotPlugThread (object m))) d_name
          then set_mCameraStatusMap
                 (insert (deviceNameOf abi (mPreferredHal3MinorVersion (object m))
                            (cameraIdOffset (mCfg (object m))) (snprintf_path d_name))
                         PRESENT)
                 (object m)
          else object m)
    /\ notifications (trace m')
       = (notifications (trace m)
          ++ match mCallbacks (object m) with
             | Some cb =>
                 if scan_registers w (t_mInternalDevices (mHotPlugThread (object m))) d_name
                 then [cameraDeviceStatusChange cb
                         (deviceNameOf abi (mPreferredHal3MinorVersion (object m))
                            (cameraIdOffset (mCfg (object m))) (snprintf_path d_name))
                         PRESENT]
                 else []
             | None => []
             end)%list.
Proof.
  cbn [scan_entries]. rewrite bind_run. eexists. split; [reflexivity |].
  unfold scan_registers.
  assert (Hsilent : forall m0 : Machine ExternalCameraProviderImpl_2_4,
             object m0 = object m /\ notifications (trace m0) = notifications (trace m) ->
             object m0 = object m
             /\ notifications (trace m0)
                = (notifications (trace m)
                   ++ match mCallbacks (object m) with Some _ => [] | None => [] end)%list).
  { intros m0 [Ho Hn]. split; [exact Ho |]. rewrite Hn.
    destruct (mCallbacks (object m)); now rewrite List.app_nil_r. }
  destruct (has_prefix kPrefix d_name); cbn [andb]; [| now apply Hsilent].
  run. destruct (bool_decide _); cbn [negb andb]; [now apply Hsilent |].
  pose proof (isExternalDevice_classify_2_4 w (snprintf_path d_name)
                (sprintf_sysclass d_name) None m) as Hr.
  destruct (isExternalDevice_quiet_2_4 w (snprintf_path d_name)
              (sprintf_sysclass d_name) None m) as [Ho Hn].
  destruct (isExternalDevice w (snprintf_path d_name) (sprintf_sysclass d_name) None m)
    as [[ext h] m1].
  cbn [fst snd] in *. injection Hr as -> _.
  destruct (fst (classify w (snprintf_path d_name) (sprintf_sysclass d_name)));
    cbn [andb]; [| now apply Hsilent].
  destruct (capture_ready w Device_3_4 (snprintf_path d_name)) eqn:Hready.
  - rewrite deviceAdded_ready_2_4 by exact Hready.
    rewrite HidlFacts.addExternalCamera_run_2_4. cbn [snd object trace]. rewrite Ho.
    split; [reflexivity |]. rewrite !notifications_app, Hn.
    change (notifications (capture_probe Device_3_4 (snprintf_path d_name)))
      with (@nil Effect).
    cbn [notifications List.filter is_notification].
    rewrite List.app_nil_r. destruct (mCallbacks (object m)); reflexivity.
  - destruct (deviceAdded_not_ready_2_4 abi w (snprintf_path d_name) m1 Hready)
      as [Ho' Hn'].
    apply Hsilent. split; congruence.
Qed.

(** The scan over a whole directory: the entries it registers, in
    directory order. *)
Lemma scan_entries_run_2_4 w entries : forall m,
  let registered :=
    List.filter (scan_registers w (t_mInternalDevices (mHotPlugThread (object m))))
      entries in
  let deviceName d_name :=
    deviceNameOf abi (mPreferredHal3MinorVersion (object m))
      (cameraIdOffset (mCfg (object m))) (snprintf_path d_name) in
  object (snd (scan_entries abi w entries m))
  = set_mCameraStatusMap
      (fun mp => fold_left (fun mp d_name => <[deviceName d_name := PRESENT]> mp)
                   registered mp)
      (object m)
  /\ notifications (trace (snd (scan_entries abi w entries m)))
     = (notifications (trace m)
        ++ match mCallbacks (object m) with
           | Some cb => List.map (fun d_name =>
                                    cameraDeviceStatusChange cb (deviceName d_name) PRESENT)
                          registered
           | None => []
           end)%list.
Proof.
  induction entries as [| d_name rest IH]; intros m registered deviceName.
  - cbn. split; [destruct (object m); reflexivity |].
    destruct (mCallbacks (object m)); now rewrite List.app_nil_r.
  - destruct (scan_entries_cons_2_4 w d_name rest m) as (m' & -> & Ho & Hn).
    specialize (IH m'). cbv zeta in IH. destruct IH as [IHo IHn].
    assert (Hkept : mCfg (object m') = mCfg (object m)
                    /\ mCallbacks (object m') = mCallbacks (object m)
                    /\ mPreferredHal3MinorVersion (object m')
                       = mPreferredHal3MinorVersion (object m)
                    /\ mHotPlugThread (object m') = mHotPlugThread (object m))
      by (rewrite Ho; destruct (scan_registers _ _ _); destruct (object m);
          repeat split; reflexivity).
    destruct Hkept as (Hcfg & Hcb & Hv & Hth).
    rewrite Hcfg, Hv, Hth in IHo, IHn. rewrite Hcb in IHn.
    subst registered. cbn [List.filter].
    rewrite IHo, IHn, Hn, Ho.
    destruct (scan_registers w _ d_name).
    + split; [destruct (object m); reflexivity |].
      destruct (mCallbacks (object m)); rewrite <- List.app_assoc; reflexivity.
    + split; [reflexivity |].
      destruct (mCallbacks (object m)); rewrite <- List.app_assoc; reflexivity.
Qed.
End Build.
End HidlScan.

(** * Properties of the providers *)

Section Claims.
Import CLib Sys ProgFacts.

(** C10: whatever the status map holds, the camera id list query answers
    OK with an empty list and the vendor tag query OK with no section, on
    both providers; neither touches the provider or its trace. *)
Theorem getCameraIdList_reports_no_camera :
  (forall (m : Machine Aidl.ExternalCameraProvider) (out : list string),
      Aidl.getCameraIdList (Some out) m = ((OK, Some []), m)
      /\ Aidl.getVendorTags (Some out) m = ((OK, Some []), m))
  /\ (forall m : Machine Hidl.ExternalCameraProviderImpl_2_4,
      Hidl.getCameraIdList m = ((OK, []), m)
      /\ Hidl.getVendorTags m = ((OK, []), m)).
Proof. split; intros; split; reflexivity. Qed.

(** C6: deviceRemoved for a node whose logical id is not in the status map
    erases nothing (erase counts 0 removed elements), leaves the provider
    as it was, calls no callback and only logs an error, on both
    providers. *)
Theorem deviceRemoved_unknown_is_logged_noop :
  (forall abi kDeviceVersion devName (m : Machine Aidl.ExternalCameraProvider),
      let deviceName := Aidl.deviceNameOf abi kDeviceVersion
                          (cameraIdOffset (Aidl.mCfg (object m))) devName in
      Aidl.mCameraStatusMap (object m) !! deviceName = None ->
      Aidl.erase deviceName (Aidl.mCameraStatusMap (object m))
        = (0, Aidl.mCameraStatusMap (object m))
      /\ Aidl.deviceRemoved abi kDeviceVersion devName m =
           (tt, {| object := object m;
                   trace := trace m ++
                     [ALOGE ("deviceRemoved: cannot find camera device to remove "
                             +:+ devName)] |})
      /\ notifications (trace (snd (Aidl.deviceRemoved abi kDeviceVersion devName m)))
         = notifications (trace m))
  /\ (forall abi devName (m : Machine Hidl.ExternalCameraProviderImpl_2_4),
      let deviceName := Hidl.deviceNameOf abi (Hidl.mPreferredHal3MinorVersion (object m))
                          (cameraIdOffset (Hidl.mCfg (object m))) devName in
      Hidl.mCameraStatusMap (object m) !! deviceName = None ->
      Hidl.deviceRemoved abi devName m =
        (tt, {| object := object m;
                trace := trace m ++
                  [ALOGE ("deviceRemoved: cannot find camera device " +:+ devName)] |})
      /\ notifications (trace (snd (Hidl.deviceRemoved abi devName m)))
         = notifications (trace m)).
Proof.
  split.
  - intros abi ver devName m deviceName Hnone. repeat split.
    + unfold Aidl.erase. now rewrite Hnone.
    + now apply AidlFacts.deviceRemoved_unknown.
    + rewrite AidlFacts.deviceRemoved_unknown by exact Hnone. cbn [snd trace].
      rewrite notifications_app. apply List.app_nil_r.
  - intros abi devName m deviceName Hnone. split.
    + now apply HidlFacts.deviceRemoved_unknown_2_4.
    + rewrite HidlFacts.deviceRemoved_unknown_2_4 by exact Hnone. cbn [snd trace].
      rewrite notifications_app. apply List.app_nil_r.
Qed.

(** C1 (amended): addExternalCamera for a node whose id is already PRESENT
    leaves the status map as it is, with its one entry for the id, and
    calls the attached callback once more; two calls in a row from any
    state leave one entry and make two callback calls (none when no
    callback is attached), on both providers. *)
Theorem addExternalCamera_repeat_keeps_entry_and_notifies :
  (forall abi kDeviceVersion devName (m : Machine Aidl.ExternalCameraProvider),
      let deviceName := Aidl.deviceNameOf abi kDeviceVersion
                          (cameraIdOffset (Aidl.mCfg (object m))) devName in
      let notify := match Aidl.mCallback (object m) with
                    | Some cb => [cameraDeviceStatusChange cb deviceName PRESENT]
                    | None => []
                    end in
      let m1 := snd (Aidl.addExternalCamera abi kDeviceVersion devName m) in
      let m2 := snd (Aidl.addExternalCamera abi kDeviceVersion devName m1) in
      (Aidl.mCameraStatusMap (object m) !! deviceName = Some PRESENT ->
         Aidl.mCameraStatusMap (object m1) = Aidl.mCameraStatusMap (object m)
         /\ notifications (trace m1) = (notifications (trace m) ++ notify)%list)
      /\ Aidl.mCameraStatusMap (object m2)
          = <[deviceName := PRESENT]> (Aidl.mCameraStatusMap (object m))
      /\ notifications (trace m2) = (notifications (trace m) ++ notify ++ notify)%list)
  /\ (forall abi devName (m : Machine Hidl.ExternalCameraProviderImpl_2_4),
      let deviceName := Hidl.deviceNameOf abi (Hidl.mPreferredHal3MinorVersion (object m))
                          (cameraIdOffset (Hidl.mCfg (object m))) devName in
      let notify := match Hidl.mCallbacks (object m) with
                    | Some cb => [cameraDeviceStatusChange cb deviceName PRESENT]
                    | None => []
                    end in
      let m1 := snd (Hidl.addExternalCamera abi devName m) in
      let m2 := snd (Hidl.addExternalCamera abi devName m1) in
      (Hidl.mCameraStatusMap (object m) !! deviceName = Some PRESENT ->
         Hidl.mCameraStatusMap (object m1) = Hidl.mCameraStatusMap (object m)
         /\ notifications (trace m1) = (notifications (trace m) ++ notify)%list)
      /\ Hidl.mCameraStatusMap (object m2)
          = <[deviceName := PRESENT]> (Hidl.mCameraStatusMap (object m))
      /\ notifications (trace m2) = (notifications (trace m) ++ notify ++ notify)%list).
Proof.
  split.
  - intros abi ver devName m deviceName notify m1 m2. subst m2 m1.
    rewrite !AidlFacts.addExternalCamera_run. cbn [snd object trace].
    destruct (object m) as [cfg mp cb th] eqn:Hobj.
    cbn [Aidl.set_mCameraStatusMap Aidl.mCameraStatusMap Aidl.mCallback Aidl.mCfg] in *.
    fold deviceName. fold notify.
    assert (Hn : notifications notify = notify) by (subst notify; destruct cb; reflexivity).
    repeat split.
    + now apply insert_id.
    + now rewrite notifications_app, Hn.
    + apply insert_insert_eq.
    + now rewrite !notifications_app, Hn, <- List.app_assoc.
  - intros abi devName m deviceName notify m1 m2. subst m2 m1.
    rewrite !HidlFacts.addExternalCamera_run_2_4. cbn [snd object trace].
    destruct (object m) as [cfg mp cb minor th] eqn:Hobj.
    cbn [Hidl.set_mCameraStatusMap Hidl.mCameraStatusMap Hidl.mCallbacks Hidl.mCfg
         Hidl.mPreferredHal3MinorVersion] in *.
    fold deviceName. fold notify.
    assert (Hn : notifications notify = notify) by (subst notify; destruct cb; reflexivity).
    repeat split.
    + now apply insert_id.
    + rewrite !notifications_app, Hn. reflexivity.
    + apply insert_insert_eq.
    + rewrite !notifications_app, Hn. cbn [notifications List.filter is_notification].
      cbn [List.app]. now rewrite <- List.app_assoc.
Qed.

(** C9: when the name parses and is PRESENT but the device object cannot
    be constructed (a null pointer, or isInitFailed), getCameraDeviceInterface
    answers INTERNAL_ERROR with no device, the provider object is what it
    was, the name is still PRESENT, no callback is called, and a later call
    under which construction succeeds answers OK with the device; on both
    providers. *)
Theorem getCameraDeviceInterface_init_failure_keeps_registry :
  (forall w in_cameraDeviceName out deviceVersion cameraDevicePath
          (m : Machine Aidl.ExternalCameraProvider),
      Aidl.matchDeviceName (cameraIdOffset (Aidl.mCfg (object m))) in_cameraDeviceName
        (Some "") (Some "") = inr (true, deviceVersion, Some cameraDevicePath) ->
      Aidl.mCameraStatusMap (object m) !! in_cameraDeviceName = Some PRESENT ->
      construction_fails w Device_aidl cameraDevicePath = true ->
      let r := Aidl.getCameraDeviceInterface w in_cameraDeviceName (Some out) m in
      fst r = inr (INTERNAL_ERROR, Some None)
      /\ object (snd r) = object m
      /\ Aidl.mCameraStatusMap (object (snd r)) !! in_cameraDeviceName = Some PRESENT
      /\ notifications (trace (snd r)) = notifications (trace m)
      /\ forall w' deviceImpl,
           make_device w' Device_aidl cameraDevicePath = Some deviceImpl ->
           isInitFailed deviceImpl = false ->
           fst (Aidl.getCameraDeviceInterface w' in_cameraDeviceName (Some out) (snd r))
           = inr (OK, Some (Some deviceImpl)))
  /\ (forall w cameraDeviceName deviceVersion cameraDevicePath
             (m : Machine Hidl.ExternalCameraProviderImpl_2_4),
      Hidl.matchDeviceName (cameraIdOffset (Hidl.mCfg (object m))) cameraDeviceName
        (Some "") (Some "") = inr (true, deviceVersion, Some cameraDevicePath) ->
      Hidl.mCameraStatusMap (object m) !! cameraDeviceName = Some PRESENT ->
      (forall cls, Hidl.device_class (Hidl.mPreferredHal3MinorVersion (object m)) = Some cls ->
                   construction_fails w cls cameraDevicePath = true) ->
      let r := Hidl.getCameraDeviceInterface_V3_x w cameraDeviceName m in
      fst r = inr (INTERNAL_ERROR, None)
      /\ object (snd r) = object m
      /\ Hidl.mCameraStatusMap (object (snd r)) !! cameraDeviceName = Some PRESENT
      /\ notifications (trace (snd r)) = notifications (trace m)
      /\ forall w' cls deviceImpl,
           Hidl.device_class (Hidl.mPreferredHal3MinorVersion (object m)) = Some cls ->
           make_device w' cls cameraDevicePath = Some deviceImpl ->
           isInitFailed deviceImpl = false ->
           fst (Hidl.getCameraDeviceInterface_V3_x w' cameraDeviceName (snd r))
           = inr (OK, Some deviceImpl)).
Proof.
  split.
  - intros w n out v path m Hmatch Hpresent Hfail r.
    assert (Hobj : object (snd r) = object m)
      by apply AidlFacts.getCameraDeviceInterface_object.
    assert (Hrun : forall w0 m0, object m0 = object m ->
              Aidl.getCameraDeviceInterface w0 n (Some out) m0 =
              match make_device w0 Device_aidl path with
              | Some d =>
                  if isInitFailed d
                  then (inr (INTERNAL_ERROR, Some None),
                        {| object := object m0;
                           trace := (trace m0 ++ [new_ExternalCameraDevice Device_aidl path])
                             ++ [ALOGE ("getCameraDeviceInterface: camera device " +:+ path
                                        +:+ " init failed!")] |})
                  else (inr (OK, Some (Some d)),
                        {| object := object m0;
                           trace := trace m0 ++ [new_ExternalCameraDevice Device_aidl path] |})
              | None =>
                  (inr (INTERNAL_ERROR, Some None),
                   {| object := object m0;
                      trace := (trace m0 ++ [new_ExternalCameraDevice Device_aidl path])
                        ++ [ALOGE ("getCameraDeviceInterface: camera device " +:+ path
                                   +:+ " init failed!")] |})
              end).
    { intros w0 [o t] Hm0. cbn [object] in Hm0. subst o.
      unfold Aidl.getCameraDeviceInterface. run. rewrite Hmatch.
      cbn [negb]. rewrite Hpresent.
      rewrite bool_decide_eq_false_2 by discriminate.
      rewrite bool_decide_eq_true_2 by reflexivity.
      cbn [orb negb]. unfold default, from_option, id. run.
      destruct (make_device w0 Device_aidl path) as [d |]; [| reflexivity].
      destruct (isInitFailed d); reflexivity. }
    assert (Hr : fst r = inr (INTERNAL_ERROR, Some None)
                 /\ notifications (trace (snd r)) = notifications (trace m)).
    { subst r. clear Hobj. rewrite (Hrun w m eq_refl). unfold construction_fails in Hfail.
      destruct (make_device w Device_aidl path) as [d |].
      - rewrite Hfail. cbn [fst snd trace]. split; [reflexivity |].
        rewrite !notifications_app. cbn. now rewrite !List.app_nil_r.
      - cbn [fst snd trace]. split; [reflexivity |].
        rewrite !notifications_app. cbn. now rewrite !List.app_nil_r. }
    destruct Hr as [Hfst Hnot]. repeat split; try assumption.
    + now rewrite Hobj.
    + intros w' d Hmake Hok. rewrite (Hrun w' (snd r) Hobj), Hmake, Hok. reflexivity.
  - intros w n v path m Hmatch Hpresent Hfail r.
    assert (Hrun : forall w0 m0, object m0 = object m ->
              Hidl.getCameraDeviceInterface_V3_x w0 n m0 =
              match Hidl.device_class (Hidl.mPreferredHal3MinorVersion (object m)) with
              | None =>
                  (inr (INTERNAL_ERROR, None),
                   {| object := object m0;
                      trace := trace m0
                        ++ [ALOGE "getCameraDeviceInterface_V3_x: Unknown HAL minor version!"] |})
              | Some cls =>
                  if construction_fails w0 cls path
                  then (inr (INTERNAL_ERROR, None),
                        {| object := object m0;
                           trace := (trace m0 ++ [new_ExternalCameraDevice cls path])
                             ++ [ALOGE ("getCameraDeviceInterface_V3_x: camera device " +:+ path
                                        +:+ " init failed!")] |})
                  else (inr (OK, make_device w0 cls path),
                        {| object := object m0;
                           trace := trace m0 ++ [new_ExternalCameraDevice cls path] |})
              end).
    { intros w0 [o t] Hm0. cbn [object] in Hm0. subst o.
      unfold Hidl.getCameraDeviceInterface_V3_x. run. rewrite Hmatch.
      cbn [negb]. rewrite Hpresent.
      rewrite bool_decide_eq_false_2 by discriminate.
      rewrite bool_decide_eq_true_2 by reflexivity.
      cbn [orb negb]. unfold default, from_option, id.
      destruct (Hidl.device_class _) as [cls |]; [| reflexivity]. run.
      unfold construction_fails.
      destruct (make_device w0 cls path) as [d |]; [| reflexivity].
      destruct (isInitFailed d); reflexivity. }
    assert (Hr : fst r = inr (INTERNAL_ERROR, None)
                 /\ object (snd r) = object m
                 /\ notifications (trace (snd r)) = notifications (trace m)).
    { subst r. rewrite (Hrun w m eq_refl).
      destruct (Hidl.device_class _) as [cls |] eqn:Hcls.
      - rewrite (Hfail cls eq_refl). cbn [fst snd trace object].
        repeat split. rewrite !notifications_app. cbn. now rewrite !List.app_nil_r.
      - cbn [fst snd trace object]. repeat split.
        rewrite !notifications_app. cbn. now rewrite !List.app_nil_r. }
    destruct Hr as (Hfst & Hobj & Hnot). repeat split; try assumption.
    + now rewrite Hobj.
    + intros w' cls d Hcls Hmake Hok. rewrite (Hrun w' (snd r) Hobj), Hcls.
      unfold construction_fails. rewrite Hmake, Hok. reflexivity.
Qed.

(** C7: an inotify record for video<S> with S among the internal devices
    is passed over by the watch loop, whatever its mask (CREATE included):
    the loop goes on with the next record from the same provider object,
    having written at most the log line for the record, so without any
    system call on the node, any change of the status map or any callback
    call; the initial scan passes over such a directory entry the same way;
    on both providers.  In every reachable state of the AIDL provider the
    set the thread consults is the configured one. *)
Theorem internal_device_is_skipped_before_probing :
  (forall abi kDeviceVersion w S e rest stack (m : Machine Aidl.ExternalCameraProvider),
      S ∈ Aidl.t_mInternalDevices (Aidl.mHotPlugThread (object m)) ->
      name e = kPrefix +:+ S ->
      Aidl.event_loop abi kDeviceVersion w (e :: rest) stack m =
      Aidl.event_loop abi kDeviceVersion w rest stack
        {| object := object m;
           trace := trace m ++
             if wd e =? Aidl.mWd (Aidl.mHotPlugThread (object m))
             then [ALOGI ("threadLoop inotify_event " +:+ name e)] else [] |})
  /\ (forall abi kDeviceVersion w S rest (m : Machine Aidl.ExternalCameraProvider),
      S ∈ mInternalDevices (Aidl.mCfg (object m)) ->
      Aidl.scan_entries abi kDeviceVersion w ((kPrefix +:+ S) :: rest) m =
      Aidl.scan_entries abi kDeviceVersion w rest m)
  /\ (forall abi kDeviceVersion cfg (m : Machine Aidl.ExternalCameraProvider),
      AidlRun.reachable abi kDeviceVersion cfg m ->
      Aidl.mCfg (object m) = cfg
      /\ Aidl.t_mInternalDevices (Aidl.mHotPlugThread (object m)) = mInternalDevices cfg)
  /\ (forall abi w S e rest stack (m : Machine Hidl.ExternalCameraProviderImpl_2_4),
      S ∈ Hidl.t_mInternalDevices (Hidl.mHotPlugThread (object m)) ->
      name e = kPrefix +:+ S ->
      Hidl.event_loop abi w (e :: rest) stack m =
      Hidl.event_loop abi w rest stack
        {| object := object m;
           trace := trace m ++
             if wd e =? Hidl.mWd (Hidl.mHotPlugThread (object m))
             then [ALOGI ("threadLoop: hot-plug event->name:" +:+ name e)] else [] |})
  /\ (forall abi w S rest (m : Machine Hidl.ExternalCameraProviderImpl_2_4),
      S ∈ Hidl.t_mInternalDevices (Hidl.mHotPlugThread (object m)) ->
      Hidl.scan_entries abi w ((kPrefix +:+ S) :: rest) m = Hidl.scan_entries abi w rest m).
Proof.
  repeat split.
  - intros. now apply AidlFacts.event_loop_internal with (S := S).
  - intros. now apply AidlFacts.scan_entries_internal.
  - eapply AidlFacts.reachable_internal_devices; eassumption.
  - eapply AidlFacts.reachable_internal_devices; eassumption.
  - intros. now apply HidlFacts.event_loop_internal_2_4 with (S := S).
  - intros. now apply HidlFacts.scan_entries_internal_2_4.
Qed.

(** C4 (amended): in the AIDL provider a node whose sysfs name attribute
    starts with the decoder or encoder name is classified not external
    whatever its open, capability and format queries would answer; the
    check is made on the name attribute, read first, before the node is
    opened or queried, so the classification makes no system call on the
    node; and the initial scan, a CREATE record for the node and the scan
    a cec CREATE starts all pass over it without deviceAdded, leaving the
    provider object as it was. *)
Theorem codec_node_is_not_external :
  forall abi kDeviceVersion w d_name video_name,
    ReadFileToString w (Aidl.sprintf_sysclass d_name) = Some video_name ->
    Aidl.is_codec_name video_name = true ->
    (forall devName isHdmiRx (m : Machine Aidl.ExternalCameraProvider),
        Aidl.isExternalDevice w devName (Aidl.sprintf_sysclass d_name) isHdmiRx m =
        ((false, match isHdmiRx with Some _ => Some false | None => None end),
         {| object := object m;
            trace := trace m ++ [sys_ReadFileToString (Aidl.sprintf_sysclass d_name)] |}))
    /\ (forall rest (m : Machine Aidl.ExternalCameraProvider),
        Aidl.scan_entries abi kDeviceVersion w (d_name :: rest) m =
        Aidl.scan_entries abi kDeviceVersion w rest
          {| object := object m;
             trace := trace m ++
               if has_prefix kPrefix d_name
                  && negb (bool_decide (advance kPrefixLen d_name
                                          ∈ mInternalDevices (Aidl.mCfg (object m))))
               then [sys_ReadFileToString (Aidl.sprintf_sysclass d_name)] else [] |})
    /\ (forall e (m : Machine Aidl.ExternalCameraProvider),
        name e = d_name ->
        has_bits (mask e) IN_CREATE = true ->
        Aidl.video_event abi kDeviceVersion w e m =
        (tt, {| object := object m;
                trace := trace m ++
                  if bool_decide (advance kPrefixLen d_name
                                    ∈ Aidl.t_mInternalDevices (Aidl.mHotPlugThread (object m)))
                  then []
                  else [sys_usleep 100000;
                        sys_ReadFileToString (Aidl.sprintf_sysclass d_name)] |}))
    /\ (forall rest stack (m : Machine Aidl.ExternalCameraProvider),
        Aidl.cec_scan abi kDeviceVersion w (d_name :: rest) stack m =
        Aidl.cec_scan abi kDeviceVersion w rest stack
          {| object := object m;
             trace := trace m ++
               if has_prefix kPrefix d_name
               then [sys_usleep 800000;
                     sys_ReadFileToString (Aidl.sprintf_sysclass d_name)]
               else [] |}).
Proof.
  intros abi ver w d vn Hread Hcodec.
  assert (Hcls : forall devName isHdmiRx (m : Machine Aidl.ExternalCameraProvider),
             Aidl.isExternalDevice w devName (Aidl.sprintf_sysclass d) isHdmiRx m =
             ((false, match isHdmiRx with Some _ => Some false | None => None end),
              {| object := object m;
                 trace := trace m ++ [sys_ReadFileToString (Aidl.sprintf_sysclass d)] |})).
  { intros. now apply AidlFacts.isExternalDevice_codec with (video_name := vn). }
  repeat split.
  - exact Hcls.
  - intros rest m. cbn [Aidl.scan_entries]. run.
    destruct (has_prefix kPrefix d); cbn [andb].
    + destruct (bool_decide _); cbn [negb].
      * now rewrite List.app_nil_r, machine_eta.
      * rewrite Hcls. reflexivity.
    + now rewrite List.app_nil_r, machine_eta.
  - intros e m Hname Hcreate. unfold Aidl.video_event. run. rewrite Hname.
    destruct (bool_decide _).
    + now rewrite List.app_nil_r, machine_eta.
    + rewrite Hcreate. run. rewrite Hcls. cbn [fst snd trace object].
      now rewrite <- List.app_assoc.
  - intros rest stack m. cbn [Aidl.cec_scan]. run.
    destruct (has_prefix kPrefix d).
    + rewrite Hcls. cbn [fst snd trace object andb]. now rewrite <- List.app_assoc.
    + now rewrite List.app_nil_r, machine_eta.
Qed.

(** C3: in every state the AIDL provider can reach, an id is a key of the
    status map exactly when the map holds PRESENT for it (no entry holds
    NOT_PRESENT), deviceRemoved leaves no entry for the id it removes, and
    setCallback with a callback returns OK, stores the callback, leaves the
    status map as it was and calls the new callback with PRESENT once for
    each id of the map and for nothing else. *)
Theorem setCallback_replays_each_present_id_once :
  forall abi kDeviceVersion cfg (m : Machine Aidl.ExternalCameraProvider) (cb : Callback),
    AidlRun.reachable abi kDeviceVersion cfg m ->
    (forall id, is_Some (Aidl.mCameraStatusMap (object m) !! id)
                <-> Aidl.mCameraStatusMap (object m) !! id = Some PRESENT)
    /\ (forall devName,
          Aidl.mCameraStatusMap (object (snd (Aidl.deviceRemoved abi kDeviceVersion devName m)))
            !! Aidl.deviceNameOf abi kDeviceVersion (cameraIdOffset (Aidl.mCfg (object m))) devName
          = None)
    /\ fst (Aidl.setCallback (Some cb) m) = OK
    /\ Aidl.mCallback (object (snd (Aidl.setCallback (Some cb) m))) = Some cb
    /\ Aidl.mCameraStatusMap (object (snd (Aidl.setCallback (Some cb) m)))
       = Aidl.mCameraStatusMap (object m)
    /\ exists ids : list string,
         trace (snd (Aidl.setCallback (Some cb) m))
         = (trace m ++ List.map (fun id => cameraDeviceStatusChange cb id PRESENT) ids)%list
         /\ NoDup ids
         /\ forall id, id ∈ ids <-> Aidl.mCameraStatusMap (object m) !! id = Some PRESENT.
Proof.
  intros abi ver cfg m cb Hreach.
  pose proof (AidlFacts.reachable_no_tombstone abi ver cfg m Hreach) as Hinv.
  unfold AidlRun.no_tombstone in Hinv.
  split; [| split].
  - intros id. split.
    + intros [st Hst]. now rewrite Hst, (Hinv id st Hst).
    + intros ->. eauto.
  - intros devName.
    destruct (Aidl.mCameraStatusMap (object m)
                !! Aidl.deviceNameOf abi ver (cameraIdOffset (Aidl.mCfg (object m))) devName)
      as [st |] eqn:Hl.
    + rewrite (AidlFacts.deviceRemoved_known _ _ _ _ _ Hl). cbn [snd object].
      destruct (object m). cbn. apply lookup_delete_eq.
    + rewrite (AidlFacts.deviceRemoved_unknown _ _ _ _ Hl). exact Hl.
  - rewrite AidlFacts.setCallback_run. cbn [fst snd object trace].
    repeat split; try (destruct (object m); reflexivity).
    exists (List.map fst (map_to_list (Aidl.mCameraStatusMap (object m)))).
    repeat split.
    + f_equal. rewrite List.map_map. apply List.map_ext_in.
      intros [id st] Hin. cbn [fst snd]. f_equal.
      apply Hinv with (id := id). apply elem_of_map_to_list, list_elem_of_In, Hin.
    + apply (NoDup_fst_map_to_list (Aidl.mCameraStatusMap (object m))).
    + intros Hin. apply list_elem_of_In, List.in_map_iff in Hin as ([id' st] & <- & Hin).
      apply list_elem_of_In, elem_of_map_to_list in Hin. cbn [fst].
      now rewrite Hin, (Hinv id' st Hin).
    + intros Hl. apply list_elem_of_In, List.in_map_iff. exists (id, PRESENT).
      split; [reflexivity |]. now apply list_elem_of_In, elem_of_map_to_list.
Qed.

(** C5 (amended): for an offset O >= 0 and a suffix N >= O with N + O at
    most INT_MAX, the name addExternalCamera forms for /dev/video<N> has
    the id N + O and parses back, with matchDeviceName under the same
    offset, to the path of that node, suffix N itself; and for
    O <= M <= INT_MAX the name with decimal id M parses to the path with
    suffix M - O, from which the same name is formed again: id = suffix + O
    and suffix = id - O are inverse to each other.  This whichever way the
    offset is declared, on the AIDL provider and, where a pointer takes
    four bytes, on the HIDL provider. *)
Theorem deviceName_format_parse_roundtrip :
  (forall abi kDeviceVersion O N a b,
      32 <= long_bits abi ->
      Regex.matches Regex.re_version kDeviceVersion ->
      0 <= O <= N ->
      N + O <= INT_MAX ->
      Aidl.deviceNameOf abi kDeviceVersion O ("/dev/video" +:+ to_string N)
      = "device@" +:+ kDeviceVersion +:+ "/external/" +:+ to_string (N + O)
      /\ Aidl.matchDeviceName O
           (Aidl.deviceNameOf abi kDeviceVersion O ("/dev/video" +:+ to_string N))
           (Some a) (Some b)
         = inr (true, Some kDeviceVersion, Some ("/dev/video" +:+ to_string N)))
  /\ (forall abi kDeviceVersion O M a b,
      32 <= long_bits abi ->
      Regex.matches Regex.re_version kDeviceVersion ->
      0 <= O <= M ->
      M <= INT_MAX ->
      Aidl.matchDeviceName O ("device@" +:+ kDeviceVersion +:+ "/external/" +:+ to_string M)
        (Some a) (Some b)
      = inr (true, Some kDeviceVersion, Some ("/dev/video" +:+ to_string (M - O)))
      /\ Aidl.deviceNameOf abi kDeviceVersion O ("/dev/video" +:+ to_string (M - O))
         = "device@" +:+ kDeviceVersion +:+ "/external/" +:+ to_string M)
  /\ (forall abi minor O N a b,
      sizeof_pointer abi = 4%nat ->
      32 <= long_bits abi ->
      0 <= O <= N ->
      N + O <= INT_MAX ->
      Hidl.deviceNameOf abi minor O ("/dev/video" +:+ to_string N)
      = "device@" +:+ Hidl.version_2_4 minor +:+ "/external/" +:+ to_string (N + O)
      /\ Hidl.matchDeviceName O (Hidl.deviceNameOf abi minor O ("/dev/video" +:+ to_string N))
           (Some a) (Some b)
         = inr (true, Some (Hidl.version_2_4 minor), Some ("/dev/video" +:+ to_string N)))
  /\ (forall abi minor O M a b,
      sizeof_pointer abi = 4%nat ->
      32 <= long_bits abi ->
      0 <= O <= M ->
      M <= INT_MAX ->
      Hidl.matchDeviceName O
        ("device@" +:+ Hidl.version_2_4 minor +:+ "/external/" +:+ to_string M)
        (Some a) (Some b)
      = inr (true, Some (Hidl.version_2_4 minor), Some ("/dev/video" +:+ to_string (M - O)))
      /\ Hidl.deviceNameOf abi minor O ("/dev/video" +:+ to_string (M - O))
         = "device@" +:+ Hidl.version_2_4 minor +:+ "/external/" +:+ to_string M).
Proof.
  assert (Hform : forall abi v O N, 32 <= long_bits abi ->
            0 <= N -> 0 <= O -> N + O <= INT_MAX ->
            Aidl.deviceNameOf abi v O ("/dev/video" +:+ to_string N)
            = "device@" +:+ v +:+ "/external/" +:+ to_string (N + O)).
  { intros abi v O N Habi HN HO HS. unfold INT_MAX in HS.
    rewrite NameFacts.deviceNameOf_decimal by (unfold INT_MIN, INT_MAX; lia || assumption).
    rewrite NameFacts.offset_add_small by (unfold INT_MAX; lia).
    now rewrite (Z.add_comm O N). }
  assert (Hform' : forall abi minor O N, sizeof_pointer abi = 4%nat -> 32 <= long_bits abi ->
            0 <= N -> 0 <= O -> N + O <= INT_MAX ->
            Hidl.deviceNameOf abi minor O ("/dev/video" +:+ to_string N)
            = "device@" +:+ Hidl.version_2_4 minor +:+ "/external/" +:+ to_string (N + O)).
  { intros abi minor O N Hsz Habi HN HO HS. unfold INT_MAX in HS.
    rewrite NameFacts.deviceNameOf_decimal_2_4
      by (unfold INT_MIN, INT_MAX; lia || assumption).
    rewrite NameFacts.offset_add_small by (unfold INT_MAX; lia).
    now rewrite (Z.add_comm O N). }
  assert (Hparse : forall v O M a b, Regex.matches Regex.re_version v ->
            0 <= O <= M -> M <= INT_MAX ->
            Aidl.matchDeviceName O ("device@" +:+ v +:+ "/external/" +:+ to_string M)
              (Some a) (Some b)
            = inr (true, Some v, Some ("/dev/video" +:+ to_string (M - O)))).
  { intros v O M a b Hv HO HM. unfold INT_MAX in HM.
    rewrite NameFacts.matchDeviceName_decimal by (assumption || unfold INT_MIN, INT_MAX; lia).
    unfold int_sub. rewrite CLibFacts.int_cast_id by (unfold INT_MIN, INT_MAX; lia).
    reflexivity. }
  split; [| split; [| split]].
  - intros abi v O N a b Habi Hv HO HN. rewrite Hform by (assumption || lia).
    split; [reflexivity |]. rewrite Hparse by (assumption || lia).
    now replace (N + O - O) with N by lia.
  - intros abi v O M a b Habi Hv HO HM. split; [now apply Hparse |].
    rewrite Hform by (assumption || lia).
    now replace (M - O + O) with M by lia.
  - intros abi minor O N a b Hsz Habi HO HN. rewrite Hform' by (assumption || lia).
    split; [reflexivity |].
    rewrite NameFacts.matchDeviceName_2_4_same, NameFacts.hidl_c_str_formed.
    rewrite Hparse by (apply NameFacts.matches_version_2_4 || assumption || lia).
    now replace (N + O - O) with N by lia.
  - intros abi minor O M a b Hsz Habi HO HM. split.
    + rewrite NameFacts.matchDeviceName_2_4_same, NameFacts.hidl_c_str_formed.
      apply Hparse; [apply NameFacts.matches_version_2_4 | assumption | assumption].
    + rewrite Hform' by (assumption || lia).
      now replace (M - O + O) with M by lia.
Qed.

(** C2 (amended): matchDeviceName returns false for every string that is
    not, as a whole, in the language of device@[0-9]+\.[0-9]+/external/.+,
    and getCameraDeviceInterface then answers ILLEGAL_ARGUMENT with no
    device, constructing nothing and leaving provider and trace untouched;
    it returns true exactly for the strings of that language whose id
    std::stoi converts (optional white space and sign, then digits;
    whatever follows the digits is ignored), with the path
    /dev/video<number - offset>.  The HIDL function does the same with the
    name up to its first NUL, which is all it reads of a hidl_string.  In
    every reachable state of either provider, getCameraDeviceInterface
    also answers ILLEGAL_ARGUMENT, constructing nothing, for every string
    on which matchDeviceName returns and which (in the HIDL provider: up to
    its first NUL) is not a name with the decimal id std::to_string
    prints. *)
Theorem matchDeviceName_accepts_pattern_with_leading_number :
  (forall s, Regex.regex_match s = None <-> ~ Regex.matches Regex.kDeviceNameRE s)
  /\ (forall O s dv dp,
      (Regex.regex_match s = None ->
       Aidl.matchDeviceName O s dv dp = inr (false, dv, dp))
      /\ (Regex.regex_match (hidl_c_str s) = None ->
          Hidl.matchDeviceName O s dv dp = inr (false, dv, dp)))
  /\ (forall w s out (m : Machine Aidl.ExternalCameraProvider),
      Regex.regex_match s = None ->
      Aidl.getCameraDeviceInterface w s (Some out) m = (inr (ILLEGAL_ARGUMENT, Some None), m))
  /\ (forall w s (m : Machine Hidl.ExternalCameraProviderImpl_2_4),
      Regex.regex_match (hidl_c_str s) = None ->
      Hidl.getCameraDeviceInterface_V3_x w s m = (inr (ILLEGAL_ARGUMENT, None), m))
  /\ (forall O s a b v p,
      Aidl.matchDeviceName O s (Some a) (Some b) = inr (true, Some v, Some p) <->
      exists id n, s = "device@" +:+ v +:+ "/external/" +:+ id
                   /\ Regex.matches Regex.re_version v /\ Regex.matches Regex.re_id id
                   /\ stoi id = inr n
                   /\ p = "/dev/video" +:+ to_string (int_sub n O))
  /\ (forall O s a b v p,
      Hidl.matchDeviceName O s (Some a) (Some b) = inr (true, Some v, Some p) <->
      exists id n, hidl_c_str s = "device@" +:+ v +:+ "/external/" +:+ id
                   /\ Regex.matches Regex.re_version v /\ Regex.matches Regex.re_id id
                   /\ stoi id = inr n
                   /\ p = "/dev/video" +:+ to_string (int_sub n O))
  /\ (forall abi kDeviceVersion cfg w s out res (m : Machine Aidl.ExternalCameraProvider),
      AidlRun.reachable abi kDeviceVersion cfg m ->
      Aidl.matchDeviceName (cameraIdOffset (Aidl.mCfg (object m))) s (Some "") (Some "")
      = inr res ->
      (forall n, s <> "device@" +:+ kDeviceVersion +:+ "/external/" +:+ to_string n) ->
      Aidl.getCameraDeviceInterface w s (Some out) m = (inr (ILLEGAL_ARGUMENT, Some None), m))
  /\ (forall abi cfg v w s res (m : Machine Hidl.ExternalCameraProviderImpl_2_4),
      HidlRun.reachable abi cfg v m ->
      Hidl.matchDeviceName (cameraIdOffset (Hidl.mCfg (object m))) s (Some "") (Some "")
      = inr res ->
      (forall n, hidl_c_str s
                 <> "device@" +:+ Hidl.version_2_4 (Hidl.mPreferredHal3MinorVersion (object m))
                    +:+ "/external/" +:+ to_string n) ->
      Hidl.getCameraDeviceInterface_V3_x w s m = (inr (ILLEGAL_ARGUMENT, None), m)).
Proof.
  split; [exact NameFacts.regex_match_none |].
  split.
  { intros O s dv dp. split; intros Hm.
    - now apply NameFacts.matchDeviceName_no_match.
    - rewrite NameFacts.matchDeviceName_2_4_same.
      now apply NameFacts.matchDeviceName_no_match. }
  split.
  { intros w s out m Hm. unfold Aidl.getCameraDeviceInterface. run.
    now rewrite NameFacts.matchDeviceName_no_match. }
  split.
  { intros w s m Hm. unfold Hidl.getCameraDeviceInterface_V3_x. run.
    rewrite NameFacts.matchDeviceName_2_4_same.
    now rewrite NameFacts.matchDeviceName_no_match. }
  split; [exact NameFacts.matchDeviceName_accepts |].
  split.
  { intros O s a b v p. rewrite NameFacts.matchDeviceName_2_4_same.
    apply NameFacts.matchDeviceName_accepts. }
  split.
  { intros abi ver cfg w s out [[match_ v] path] m Hreach Hmatch Hform.
    assert (Hnone : Aidl.mCameraStatusMap (object m) !! s = None).
    { destruct (Aidl.mCameraStatusMap (object m) !! s) as [st |] eqn:Hl; [| reflexivity].
      destruct (AidlFacts.reachable_keys abi ver cfg m Hreach s) as [n Hn]; [eauto |].
      destruct (Hform n Hn). }
    unfold Aidl.getCameraDeviceInterface. run. rewrite Hmatch, Hnone.
    rewrite bool_decide_eq_true_2 by reflexivity.
    destruct match_; reflexivity. }
  intros abi cfg v w s [[match_ ver] path] m Hreach Hmatch Hform.
  assert (Hnone : Hidl.mCameraStatusMap (object m) !! s = None).
  { destruct (Hidl.mCameraStatusMap (object m) !! s) as [st |] eqn:Hl; [| reflexivity].
    destruct (HidlDelivery.reachable_kept abi cfg v m Hreach) as (_ & _ & _ & _ & Hk).
    destruct (Hk s) as (n & _ & _ & Hn); [eauto |].
    destruct (Hform n). rewrite Hn. apply NameFacts.hidl_c_str_formed. }
  unfold Hidl.getCameraDeviceInterface_V3_x. run. rewrite Hmatch, Hnone.
  rewrite bool_decide_eq_true_2 by reflexivity.
  destruct match_; reflexivity.
Qed.

(** ** The properties at concrete inputs *)

(** C1 as the specification states it does not hold: with a callback attached and
    /dev/video5 already PRESENT, adding /dev/video5 again calls the callback
    again, and two calls in a row make two callback calls. *)
Lemma addExternalCamera_again_calls_callback_again :
  Aidl.mCameraStatusMap (object Examples.present_once) !! "device@3.4/external/7" = Some PRESENT
  /\ notifications (trace Examples.present_once)
     = [cameraDeviceStatusChange 1%nat "device@3.4/external/7" PRESENT]
  /\ notifications
       (trace (snd (Aidl.addExternalCamera LP64 "3.4" "/dev/video5" Examples.present_once)))
     = [cameraDeviceStatusChange 1%nat "device@3.4/external/7" PRESENT;
        cameraDeviceStatusChange 1%nat "device@3.4/external/7" PRESENT]
  /\ notifications
       (trace (snd (Hidl.addExternalCamera ILP32 "/dev/video5" Examples.present_once_2_4)))
     = [cameraDeviceStatusChange 1%nat "device@3.4/external/7" PRESENT;
        cameraDeviceStatusChange 1%nat "device@3.4/external/7" PRESENT].
Proof. repeat split; vm_compute; reflexivity. Qed.

Lemma addExternalCamera_repeat_witness :
  Aidl.mCameraStatusMap (object Examples.present_once) !! "device@3.4/external/7" = Some PRESENT
  /\ Aidl.mCameraStatusMap
       (object (snd (Aidl.addExternalCamera LP64 "3.4" "/dev/video5" Examples.present_once)))
     = Aidl.mCameraStatusMap (object Examples.present_once)
  /\ Hidl.mCameraStatusMap
       (object (snd (Hidl.addExternalCamera ILP32 "/dev/video5" Examples.present_once_2_4)))
     = Hidl.mCameraStatusMap (object Examples.present_once_2_4).
Proof.
  split; [vm_compute; reflexivity |]. split.
  - apply (proj1 (proj1 addExternalCamera_repeat_keeps_entry_and_notifies
                    LP64 "3.4" "/dev/video5" Examples.present_once)).
    vm_compute; reflexivity.
  - apply (proj1 (proj2 addExternalCamera_repeat_keeps_entry_and_notifies
                    ILP32 "/dev/video5" Examples.present_once_2_4)).
    vm_compute; reflexivity.
Defined.

(** C2 as the specification states it does not hold: an id that only begins with a
    number is accepted, and the path is formed from that number. *)
Lemma matchDeviceName_accepts_id_with_trailing_text :
  Aidl.matchDeviceName 0 "device@3.4/external/5abc" (Some "") (Some "")
  = inr (true, Some "3.4", Some "/dev/video5")
  /\ Hidl.matchDeviceName 0 "device@3.4/external/5abc" (Some "") (Some "")
     = inr (true, Some "3.4", Some "/dev/video5")
  /\ ~ Regex.matches (Regex.Plus Regex.Digit) "5abc".
Proof.
  repeat split; try (vm_compute; reflexivity).
  intros H. apply RegexFacts.matches_digits in H as [_ H]. vm_compute in H. discriminate.
Qed.

(** An id with no number at its front makes std::stoi throw, in
    matchDeviceName and so in getCameraDeviceInterface. *)
Lemma matchDeviceName_throws_on_id_without_number :
  Aidl.matchDeviceName 0 "device@3.4/external/abc" (Some "") (Some "") = inl invalid_argument
  /\ fst (Aidl.getCameraDeviceInterface Examples.nothing "device@3.4/external/abc"
            (Some None) Examples.attached) = inl invalid_argument
  /\ fst (Hidl.getCameraDeviceInterface_V3_x Examples.nothing "device@3.4/external/abc"
            Examples.attached_2_4) = inl invalid_argument.
Proof. repeat split; vm_compute; reflexivity. Qed.

(** The HIDL function reads the name up to its first NUL: what follows it
    is not matched against the pattern. *)
Lemma matchDeviceName_2_4_stops_at_nul :
  Hidl.matchDeviceName 2 ("device@3.4/external/7" +:+ String Ascii.zero "/x")
    (Some "") (Some "")
  = inr (true, Some "3.4", Some "/dev/video5")
  /\ Hidl.matchDeviceName 2 ("device@3.4/external/" +:+ String Ascii.zero "7")
       (Some "") (Some "")
     = inr (false, Some "", Some "").
Proof. split; vm_compute; reflexivity. Qed.

Lemma matchDeviceName_rejects_witness :
  Regex.regex_match "device@3.4/external/" = None
  /\ Aidl.matchDeviceName 2 "device@3.4/external/" (Some "") (Some "")
     = inr (false, Some "", Some "")
  /\ Hidl.matchDeviceName 2 "device@3.4/external/" (Some "") (Some "")
     = inr (false, Some "", Some "")
  /\ Aidl.getCameraDeviceInterface Examples.nothing "device@3.4/external/" (Some None)
       Examples.present_once
     = (inr (ILLEGAL_ARGUMENT, Some None), Examples.present_once)
  /\ Hidl.getCameraDeviceInterface_V3_x Examples.nothing "device@3.4/external/"
       Examples.present_once_2_4
     = (inr (ILLEGAL_ARGUMENT, None), Examples.present_once_2_4)
  /\ Aidl.getCameraDeviceInterface Examples.nothing "device@3.4/external/7abc" (Some None)
       Examples.present_once
     = (inr (ILLEGAL_ARGUMENT, Some None), Examples.present_once)
  /\ Hidl.getCameraDeviceInterface_V3_x Examples.nothing "device@3.4/external/7abc"
       Examples.present_once_2_4
     = (inr (ILLEGAL_ARGUMENT, None), Examples.present_once_2_4).
Proof.
  pose proof matchDeviceName_accepts_pattern_with_leading_number
    as (_ & H1 & H2 & H3 & _ & _ & H6 & H7).
  assert (Hnot : forall n, "device@3.4/external/7abc"
                           <> "device@3.4/external/" +:+ to_string n).
  { intros n Heq.
    apply (String.app_inj "device@3.4/external/") in Heq.
    pose proof (CLibFacts.to_string_chars n) as Hchars.
    rewrite <- Heq in Hchars. vm_compute in Hchars. discriminate. }
  split; [reflexivity |]. split; [| split; [| split; [| split; [| split]]]].
  - apply (proj1 (H1 2 "device@3.4/external/" (Some "") (Some ""))). reflexivity.
  - apply (proj2 (H1 2 "device@3.4/external/" (Some "") (Some ""))). reflexivity.
  - apply H2. reflexivity.
  - apply H3. reflexivity.
  - apply (H6 LP64 "3.4" Examples.cfg Examples.nothing "device@3.4/external/7abc" None
             (true, Some "3.4", Some "/dev/video5") Examples.present_once).
    + unfold Examples.present_once, Examples.attached. repeat constructor.
    + vm_compute. reflexivity.
    + exact Hnot.
  - apply (H7 ILP32 Examples.cfg 4 Examples.nothing "device@3.4/external/7abc"
             (true, Some "3.4", Some "/dev/video5") Examples.present_once_2_4).
    + exact (HidlRun.reach_call ILP32 Examples.cfg 4 _
               (HidlRun.call_addExternalCamera "/dev/video5")
               (HidlRun.reach_call ILP32 Examples.cfg 4 _
                  (HidlRun.call_setCallback (Some 1%nat))
                  (HidlRun.reach_construct ILP32 Examples.cfg 4))).
    + vm_compute. reflexivity.
    + exact Hnot.
Defined.

Lemma setCallback_replay_witness :
  AidlRun.reachable LP64 "3.4" Examples.cfg Examples.two_added_one_removed
  /\ exists ids : list string,
       trace (snd (Aidl.setCallback (Some 7%nat) Examples.two_added_one_removed))
       = (trace Examples.two_added_one_removed
          ++ List.map (fun id => cameraDeviceStatusChange 7%nat id PRESENT) ids)%list
       /\ NoDup ids
       /\ forall id, id ∈ ids
                     <-> Aidl.mCameraStatusMap (object Examples.two_added_one_removed) !! id
                         = Some PRESENT.
Proof.
  assert (Hreach : AidlRun.reachable LP64 "3.4" Examples.cfg Examples.two_added_one_removed)
    by (unfold Examples.two_added_one_removed; repeat constructor).
  split; [exact Hreach |].
  exact (proj2 (proj2 (proj2 (proj2 (proj2
           (setCallback_replays_each_present_id_once LP64 "3.4" Examples.cfg
              Examples.two_added_one_removed 7%nat Hreach)))))).
Defined.

(** The replay of that state is the one call for the id that survived. *)
Lemma setCallback_replays_survivor :
  Aidl.setCallback (Some 7%nat) Examples.two_added_one_removed
  = (OK, {| object := Aidl.set_mCallback (Some 7%nat) (object Examples.two_added_one_removed);
            trace := [cameraDeviceStatusChange 7%nat "device@3.4/external/8" PRESENT] |}).
Proof. vm_compute. reflexivity. Qed.

(** C4 as the specification states it does not hold: the decoder node is turned down on
    its name before anything is opened or queried, the only system call
    being the read of the name; and the HIDL provider, which has no such
    check, classifies the same node as external. *)
Lemma codec_check_comes_before_open :
  ReadFileToString Examples.codec_world (Aidl.sprintf_sysclass "video2")
  = Some "amphion-vpu-decoder"
  /\ Aidl.isExternalDevice Examples.codec_world "/dev/video2"
       (Aidl.sprintf_sysclass "video2") None Examples.attached
     = ((false, None),
        {| object := object Examples.attached;
           trace := [sys_ReadFileToString "/sys/class/video4linux/video2/name"] |})
  /\ ~ In (sys_open "/dev/video2" (Z.lor O_RDWR O_NONBLOCK))
          (trace (snd (Aidl.isExternalDevice Examples.codec_world "/dev/video2"
                         (Aidl.sprintf_sysclass "video2") None Examples.attached)))
  /\ ~ In (sys_ioctl "/dev/video2" VIDIOC_QUERYCAP)
          (trace (snd (Aidl.isExternalDevice Examples.codec_world "/dev/video2"
                         (Aidl.sprintf_sysclass "video2") None Examples.attached)))
  /\ fst (Hidl.isExternalDevice Examples.codec_world "/dev/video2"
            (Hidl.sprintf_sysclass "video2") None Examples.attached_2_4)
     = (true, None).
Proof.
  repeat split; try (vm_compute; reflexivity).
  - vm_compute. intros [H | []]. discriminate.
  - vm_compute. intros [H | []]. discriminate.
Qed.

Lemma codec_node_witness :
  ReadFileToString Examples.codec_world (Aidl.sprintf_sysclass "video2")
  = Some "amphion-vpu-decoder"
  /\ Aidl.is_codec_name "amphion-vpu-decoder" = true
  /\ Aidl.scan_entries LP64 "3.4" Examples.codec_world ["video2"] Examples.attached
     = (tt, {| object := object Examples.attached;
               trace := [sys_ReadFileToString "/sys/class/video4linux/video2/name"] |}).
Proof.
  split; [reflexivity |]. split; [reflexivity |].
  rewrite (proj1 (proj2 (codec_node_is_not_external LP64 "3.4" Examples.codec_world
                           "video2" "amphion-vpu-decoder" eq_refl eq_refl))).
  vm_compute. reflexivity.
Defined.

(** C5 as the specification states it does not hold: with offset 2, the name formed for
    /dev/video5 parses back to /dev/video5, and not to the node with suffix
    5 - 2. *)
Lemma roundtrip_recovers_suffix_itself :
  Aidl.deviceNameOf LP64 "3.4" 2 "/dev/video5" = "device@3.4/external/7"
  /\ Aidl.matchDeviceName 2 (Aidl.deviceNameOf LP64 "3.4" 2 "/dev/video5") (Some "") (Some "")
     = inr (true, Some "3.4", Some "/dev/video5")
  /\ "/dev/video5" <> "/dev/video" +:+ to_string (5 - 2).
Proof. repeat split; try (vm_compute; reflexivity). vm_compute. discriminate. Qed.

Lemma deviceName_roundtrip_witness :
  0 <= 2 <= 5 /\ 5 + 2 <= INT_MAX
  /\ Aidl.matchDeviceName 2 (Aidl.deviceNameOf LP64 "3.4" 2 ("/dev/video" +:+ to_string 5))
       (Some "") (Some "")
     = inr (true, Some "3.4", Some ("/dev/video" +:+ to_string 5))
  /\ Hidl.matchDeviceName 2 (Hidl.deviceNameOf ILP32 4 2 ("/dev/video" +:+ to_string 5))
       (Some "") (Some "")
     = inr (true, Some (Hidl.version_2_4 4), Some ("/dev/video" +:+ to_string 5)).
Proof.
  assert (Hv : Regex.matches Regex.re_version "3.4").
  { apply RegexFacts.matches_version. exists "3", "4". repeat split; discriminate. }
  assert (HO : 0 <= 2 <= 5) by lia.
  assert (HN : 5 + 2 <= INT_MAX) by (unfold INT_MAX; lia).
  pose proof deviceName_format_parse_roundtrip as (H1 & _ & H3 & _).
  split; [exact HO |]. split; [exact HN |]. split.
  - apply (H1 LP64 "3.4" 2 5 "" ""); [vm_compute; discriminate | exact Hv | exact HO | exact HN].
  - apply (H3 ILP32 4 2 5 "" ""); [reflexivity | vm_compute; discriminate | exact HO | exact HN].
Defined.

Lemma deviceRemoved_unknown_witness :
  Aidl.mCameraStatusMap (object Examples.present_once)
    !! Aidl.deviceNameOf LP64 "3.4" 2 "/dev/video9" = None
  /\ notifications (trace (snd (Aidl.deviceRemoved LP64 "3.4" "/dev/video9"
                                  Examples.present_once)))
     = notifications (trace Examples.present_once)
  /\ notifications (trace (snd (Hidl.deviceRemoved ILP32 "/dev/video9"
                                  Examples.present_once_2_4)))
     = notifications (trace Examples.present_once_2_4).
Proof.
  split; [vm_compute; reflexivity |]. split.
  - apply (proj1 deviceRemoved_unknown_is_logged_noop LP64 "3.4" "/dev/video9"
             Examples.present_once).
    vm_compute; reflexivity.
  - apply (proj2 deviceRemoved_unknown_is_logged_noop ILP32 "/dev/video9"
             Examples.present_once_2_4).
    vm_compute; reflexivity.
Defined.

Lemma internal_device_witness :
  "0" ∈ Aidl.t_mInternalDevices (Aidl.mHotPlugThread (object Examples.attached))
  /\ Aidl.event_loop LP64 "3.4" Examples.codec_world [Examples.video0_created]
       Examples.zero_frame Examples.attached
     = (true, {| object := object Examples.attached;
                 trace := [ALOGI "threadLoop inotify_event video0"] |})
  /\ Hidl.event_loop ILP32 Examples.codec_world [Examples.video0_created]
       Examples.zero_frame Examples.attached_2_4
     = (Some Examples.zero_frame,
        {| object := object Examples.attached_2_4;
           trace := [ALOGI "threadLoop: hot-plug event->name:video0"] |}).
Proof.
  assert (Hin : "0" ∈ ({[ "0" ]} : gset string)) by (apply elem_of_singleton; reflexivity).
  pose proof internal_device_is_skipped_before_probing as (H1 & _ & _ & H4 & _).
  split; [exact Hin |]. split.
  - rewrite (H1 LP64 "3.4" Examples.codec_world "0" Examples.video0_created []
               Examples.zero_frame Examples.attached Hin eq_refl).
    reflexivity.
  - rewrite (H4 ILP32 Examples.codec_world "0" Examples.video0_created []
               Examples.zero_frame Examples.attached_2_4 Hin eq_refl).
    reflexivity.
Defined.

Lemma getCameraDeviceInterface_init_failure_witness :
  Aidl.matchDeviceName 2 "device@3.4/external/7" (Some "") (Some "")
  = inr (true, Some "3.4", Some "/dev/video5")
  /\ fst (Aidl.getCameraDeviceInterface Examples.failing_world "device@3.4/external/7"
            (Some None) Examples.present_once)
     = inr (INTERNAL_ERROR, Some None)
  /\ fst (Hidl.getCameraDeviceInterface_V3_x Examples.failing_world "device@3.4/external/7"
            Examples.present_once_2_4)
     = inr (INTERNAL_ERROR, None).
Proof.
  pose proof getCameraDeviceInterface_init_failure_keeps_registry as [H1 H2].
  split; [vm_compute; reflexivity |]. split.
  - apply (H1 Examples.failing_world "device@3.4/external/7" None (Some "3.4") "/dev/video5"
             Examples.present_once); vm_compute; reflexivity.
  - apply (H2 Examples.failing_world "device@3.4/external/7" (Some "3.4") "/dev/video5"
             Examples.present_once_2_4); vm_compute; reflexivity.
Defined.

(** C8 does not hold of the code.  mHdmiRxNode is filled by strncpy with the
    length of the path, so no terminator is written: after the receiver
    was /dev/video10 and then /dev/video3, the array reads /dev/video30.
    The DELETE of cec0 then asks deviceRemoved for that path, whose id 32
    is unknown, and device@3.4/external/5, which the CREATE added, stays
    PRESENT with no NOT_PRESENT call. *)
Theorem cec_delete_removes_stale_path_2_4 :
  fst Examples.receiver_moves = None
  /\ map_to_list (Hidl.mCameraStatusMap (object (snd Examples.receiver_moves)))
     = [("device@3.4/external/5", PRESENT)]
  /\ notifications (trace (snd Examples.receiver_moves))
     = [cameraDeviceStatusChange 1%nat "device@3.4/external/12" PRESENT;
        cameraDeviceStatusChange 1%nat "device@3.4/external/12" NOT_PRESENT;
        cameraDeviceStatusChange 1%nat "device@3.4/external/5" PRESENT]
  /\ List.skipn 36 (trace (snd Examples.receiver_moves))
     = [ALOGE "deviceRemoved: cannot find camera device /dev/video30";
        ALOGI "threadLoop: rmv mHdmiRxNode-------:/dev/video30"]
  /\ Hidl.deviceNameOf ILP32 4 2 "/dev/video30" = "device@3.4/external/32".
Proof. repeat split; vm_compute; reflexivity. Qed.

(** When the receiver keeps its node and the array held zeros, the DELETE
    of cec0 removes what the CREATE added. *)
Lemma cec_delete_removes_receiver_2_4 :
  map_to_list (Hidl.mCameraStatusMap (object (snd Examples.receiver_stays))) = []
  /\ notifications (trace (snd Examples.receiver_stays))
     = [cameraDeviceStatusChange 1%nat "device@3.4/external/5" PRESENT;
        cameraDeviceStatusChange 1%nat "device@3.4/external/5" NOT_PRESENT].
Proof. split; vm_compute; reflexivity. Qed.

(** In the AIDL provider mHdmiRxNode is a local of threadLoop, which is
    entered anew for every poll: what the DELETE of cec0 removes depends
    on what the frame holds on entry.  With the bytes the earlier call
    left there the receiver is removed; with zeros it stays PRESENT. *)
Lemma cec_delete_depends_on_frame :
  map_to_list
    (Aidl.mCameraStatusMap
       (object (snd (Examples.aidl_create_then_delete
                       (strncpy_strlen Examples.zero_frame "/dev/video3"))))) = []
  /\ map_to_list
       (Aidl.mCameraStatusMap (object (snd (Examples.aidl_create_then_delete Examples.zero_frame))))
     = [("device@3.4/external/5", PRESENT)].
Proof. split; vm_compute; reflexivity. Qed.

End Claims.

(** * Further properties of the providers *)

Section Coverage.
Import CLib Sys ProgFacts Observer.

(** X1: from the moment a callback is attached to a provider that the
    constructor and any calls have led to, the calls it receives keep its
    own status map equal to the provider's: after setCallback and any
    further calls other than setCallback, the callback is still attached,
    every call made since goes to it, and replaying those calls from an
    empty map gives mCameraStatusMap. *)
Theorem subscriber_view_tracks_status_map :
  forall abi kDeviceVersion cfg (m : Machine Aidl.ExternalCameraProvider) cb calls,
    AidlRun.reachable abi kDeviceVersion cfg m ->
    forallb (fun c => negb (AidlSpec.is_setCallback c)) calls = true ->
    let m' := fold_left (fun m c => AidlRun.exec abi kDeviceVersion c m) calls
                (AidlRun.exec abi kDeviceVersion (AidlRun.call_setCallback (Some cb)) m) in
    Aidl.mCallback (object m') = Some cb
    /\ exists t, trace m' = (trace m ++ t)%list
         /\ Forall (addressed_to cb) t
         /\ subscriber_view t ∅ = Aidl.mCameraStatusMap (object m').
Proof.
  intros abi ver cfg m cb calls Hreach Hcalls m'.
  destruct (AidlMore.setCallback_view cb m
              (AidlFacts.reachable_no_tombstone _ _ _ _ Hreach)) as (t1 & Ht1 & Hf1 & Hv1).
  pose proof (AidlDelivery.run_delivered abi ver calls
                (AidlRun.exec abi ver (AidlRun.call_setCallback (Some cb)) m) Hcalls)
    as (_ & Hcb & t2 & Ht2 & Hd).
  fold m' in Hcb, Ht2, Hd.
  assert (Hcb1 : Aidl.mCallback
                   (object (AidlRun.exec abi ver (AidlRun.call_setCallback (Some cb)) m))
                 = Some cb).
  { cbn [AidlRun.exec]. rewrite AidlFacts.setCallback_run. reflexivity. }
  assert (Hmap1 : Aidl.mCameraStatusMap
                   (object (AidlRun.exec abi ver (AidlRun.call_setCallback (Some cb)) m))
                 = Aidl.mCameraStatusMap (object m)).
  { cbn [AidlRun.exec]. rewrite AidlFacts.setCallback_run. reflexivity. }
  rewrite Hcb1 in Hd, Hcb. destruct Hd as [Hf2 Hv2].
  split; [exact Hcb |].
  exists (t1 ++ t2)%list. split; [| split].
  - rewrite Ht2. cbn [AidlRun.exec]. rewrite Ht1. symmetry. apply List.app_assoc.
  - apply Forall_app. auto.
  - rewrite StepFacts.subscriber_view_app, Hv1, <- Hmap1. exact Hv2.
Qed.

(** X2: a provider with no callback attached delivers nothing, whatever
    happens to its devices: over any calls other than setCallback the
    callback stays null and the trace gains no cameraDeviceStatusChange. *)
Theorem detached_provider_notifies_nobody :
  forall abi kDeviceVersion (m : Machine Aidl.ExternalCameraProvider) calls,
    Aidl.mCallback (object m) = None ->
    forallb (fun c => negb (AidlSpec.is_setCallback c)) calls = true ->
    let m' := fold_left (fun m c => AidlRun.exec abi kDeviceVersion c m) calls m in
    Aidl.mCallback (object m') = None
    /\ notifications (trace m') = notifications (trace m).
Proof.
  intros abi ver m calls Hnone Hcalls m'.
  pose proof (AidlDelivery.run_delivered abi ver calls m Hcalls)
    as (_ & Hcb & t & Ht & Hd).
  fold m' in Hcb, Ht. rewrite Hnone in Hd, Hcb. split; [exact Hcb |].
  rewrite Ht, notifications_app, Hd. apply List.app_nil_r.
Qed.

(** X3: the decision of the AIDL isExternalDevice.  It returns true exactly
    when the name attribute can be read and is not a codec's, the node
    opens and answers VIDIOC_QUERYCAP, and either the driver name contains
    uvc and VIDIOC_ENUM_FMT succeeds, or it contains cap but not uvc and
    the name attribute begins with mxc_isi.6.capture.  *isHdmiRx is true
    afterwards exactly when a pointer was passed and true was returned on
    the second way; a driver name with uvc in it never counts as the
    receiver.  Both results are those of [AidlSpec.classify].  The call
    leaves the provider alone and calls no callback. *)
Theorem isExternalDevice_decision :
  forall w devName sysClassName isHdmiRx (m : Machine Aidl.ExternalCameraProvider),
    let r := Aidl.isExternalDevice w devName sysClassName isHdmiRx m in
    (fst (fst r) = true <->
       exists video_name vidCap,
         ReadFileToString w sysClassName = Some video_name
         /\ Aidl.is_codec_name video_name = false
         /\ open_ok w devName (Z.lor O_RDWR O_NONBLOCK) = true
         /\ ioctl_querycap w devName = Some vidCap
         /\ if strstr (driver vidCap) "uvc" then ioctl_enum_fmt_ok w devName = true
            else strstr (driver vidCap) "cap" = true
                 /\ compare_prefix "mxc_isi.6.capture" video_name = true)
    /\ (snd (fst r) = Some true <->
          isHdmiRx <> None /\ fst (fst r) = true
          /\ exists vidCap, ioctl_querycap w devName = Some vidCap
                            /\ strstr (driver vidCap) "uvc" = false)
    /\ (snd (fst r) = None <-> isHdmiRx = None)
    /\ fst r = (fst (AidlSpec.classify w devName sysClassName),
                match isHdmiRx with
                | Some _ => Some (snd (AidlSpec.classify w devName sysClassName))
                | None => None
                end)
    /\ object (snd r) = object m
    /\ notifications (trace (snd r)) = notifications (trace m).
Proof.
  intros w devName sysClassName isHdmiRx m r.
  destruct (AidlFacts.isExternalDevice_quiet w devName sysClassName isHdmiRx m) as [Ho Hn].
  assert (Hr : fst r = (fst (AidlSpec.classify w devName sysClassName),
                        match isHdmiRx with
                        | Some _ => Some (snd (AidlSpec.classify w devName sysClassName))
                        | None => None
                        end))
    by apply AidlMore.isExternalDevice_classify.
  rewrite Hr. cbn [fst snd].
  split; [| split; [| split; [| split; [reflexivity | split; [exact Ho | exact Hn]]]]];
    unfold AidlSpec.classify.
  - destruct (ReadFileToString w sysClassName) as [video_name |];
      [| split; [discriminate | intros (? & ? & ? & _); discriminate]].
    destruct (Aidl.is_codec_name video_name) eqn:Hcodec;
      [split; [discriminate | intros (? & ? & [= <-] & ? & _); congruence] |].
    destruct (open_ok w devName _) eqn:Hopen; cbn [negb];
      [| split; [discriminate | intros (? & ? & _ & _ & ? & _); discriminate]].
    destruct (ioctl_querycap w devName) as [vidCap |];
      [| split; [discriminate | intros (? & ? & _ & _ & _ & ? & _); discriminate]].
    destruct (strstr (driver vidCap) "uvc") eqn:Huvc; cbn [fst].
    + split.
      * intros He. exists video_name, vidCap. rewrite Huvc. repeat split; auto.
      * intros (? & vc & _ & _ & _ & [= <-] & H). rewrite Huvc in H. exact H.
    + destruct (strstr (driver vidCap) "cap") eqn:Hcap; cbn [fst].
      * split.
        -- intros He. exists video_name, vidCap. rewrite Huvc. repeat split; auto.
        -- intros (vn & vc & [= <-] & _ & _ & [= <-] & H). rewrite Huvc in H. apply H.
      * split; [discriminate |].
        intros (? & vc & _ & _ & _ & [= <-] & H). rewrite Huvc, Hcap in H.
        destruct H; discriminate.
  - destruct isHdmiRx as [b |]; [| split; [discriminate | intros [H _]; now elim H]].
    destruct (ReadFileToString w sysClassName) as [video_name |];
      [| split; [discriminate | intros (_ & ? & _); discriminate]].
    destruct (Aidl.is_codec_name video_name);
      [split; [discriminate | intros (_ & ? & _); discriminate] |].
    destruct (open_ok w devName _); cbn [negb];
      [| split; [discriminate | intros (_ & ? & _); discriminate]].
    destruct (ioctl_querycap w devName) as [vidCap |];
      [| split; [discriminate | intros (_ & ? & _); discriminate]].
    destruct (strstr (driver vidCap) "uvc") eqn:Huvc; cbn [fst snd].
    + split; [discriminate | intros (_ & _ & vc & [= <-] & H); congruence].
    + destruct (strstr (driver vidCap) "cap"); cbn [fst snd].
      * split.
        -- intros [= H]. rewrite H. repeat split; [discriminate |]. eauto.
        -- intros (_ & H & _). now rewrite H.
      * split; [discriminate | intros (_ & ? & _); discriminate].
  - destruct isHdmiRx; split; congruence.
Qed.

(** X4: the HIDL isExternalDevice accepts whatever the AIDL one accepts,
    with the same *isHdmiRx: given the same answers of the kernel, a true
    of the AIDL function is a true of the HIDL one.  (The AIDL function is
    the stricter of the two: it first reads the name attribute and turns
    codec nodes away.) *)
Theorem isExternalDevice_2_4_accepts_more :
  forall w devName sysClassName isHdmiRx
         (m : Machine Aidl.ExternalCameraProvider)
         (m' : Machine Hidl.ExternalCameraProviderImpl_2_4),
    fst (fst (Aidl.isExternalDevice w devName sysClassName isHdmiRx m)) = true ->
    fst (Hidl.isExternalDevice w devName sysClassName isHdmiRx m')
    = fst (Aidl.isExternalDevice w devName sysClassName isHdmiRx m).
Proof.
  intros w devName sysClassName isHdmiRx m m'.
  unfold Aidl.isExternalDevice, Hidl.isExternalDevice. run.
  destruct (ReadFileToString w sysClassName) as [video_name |]; [| discriminate].
  destruct (_ || _); [discriminate |].
  destruct (open_ok w devName _); cbn [negb]; [| discriminate].
  destruct (ioctl_querycap w devName) as [vidCap |]; [| discriminate].
  destruct (strstr (driver vidCap) "uvc").
  - destruct (ioctl_enum_fmt_ok w devName); [reflexivity | discriminate].
  - destruct (strstr (driver vidCap) "cap"); [| discriminate].
    cbn [fst snd]. destruct (compare_prefix _ video_name); [reflexivity | discriminate].
Qed.

(** X5: deviceAdded registers a node exactly when it is ready for capture:
    it opens with O_RDWR, answers VIDIOC_QUERYCAP with VIDEO_CAPTURE or
    VIDEO_CAPTURE_MPLANE among its device capabilities, and a device
    object initialises on it.  Then the status map gains PRESENT under the
    node's name and an attached callback is told so once; otherwise the
    provider is as before and no callback is called.  The HIDL provider
    makes the test with a 3.4 device object, whatever minor version it
    prefers; for it the name is stated where a pointer takes four
    bytes. *)
Theorem deviceAdded_registers_iff_capture_ready :
  (forall abi kDeviceVersion w devName (m : Machine Aidl.ExternalCameraProvider),
      let m' := snd (Aidl.deviceAdded abi kDeviceVersion w devName m) in
      let deviceName := Aidl.deviceNameOf abi kDeviceVersion
                          (cameraIdOffset (Aidl.mCfg (object m))) devName in
      object m' = (if capture_ready w Device_aidl devName
                   then Aidl.set_mCameraStatusMap (insert deviceName PRESENT) (object m)
                   else object m)
      /\ notifications (trace m')
         = (notifications (trace m)
            ++ match Aidl.mCallback (object m) with
               | Some cb => if capture_ready w Device_aidl devName
                            then [cameraDeviceStatusChange cb deviceName PRESENT] else []
               | None => []
               end)%list)
  /\ (forall abi w devName (m : Machine Hidl.ExternalCameraProviderImpl_2_4),
      sizeof_pointer abi = 4%nat ->
      let m' := snd (Hidl.deviceAdded abi w devName m) in
      let deviceName := Hidl.deviceNameOf abi (Hidl.mPreferredHal3MinorVersion (object m))
                          (cameraIdOffset (Hidl.mCfg (object m))) devName in
      object m' = (if capture_ready w Device_3_4 devName
                   then Hidl.set_mCameraStatusMap (insert deviceName PRESENT) (object m)
                   else object m)
      /\ notifications (trace m')
         = (notifications (trace m)
            ++ match Hidl.mCallbacks (object m) with
               | Some cb => if capture_ready w Device_3_4 devName
                            then [cameraDeviceStatusChange cb deviceName PRESENT] else []
               | None => []
               end)%list).
Proof.
  split.
  - intros abi ver w devName m m' deviceName. subst m'.
    destruct (capture_ready w Device_aidl devName) eqn:Hready.
    + rewrite AidlMore.deviceAdded_ready by exact Hready.
      rewrite AidlFacts.addExternalCamera_run. cbn [snd object trace].
      split; [reflexivity |]. rewrite !notifications_app.
      change (notifications (capture_probe Device_aidl devName)) with (@nil Effect).
      rewrite List.app_nil_r. destruct (Aidl.mCallback (object m)); reflexivity.
    + destruct (AidlMore.deviceAdded_not_ready abi ver w devName m Hready) as [Ho Hn].
      split; [exact Ho |]. rewrite Hn.
      destruct (Aidl.mCallback (object m)); now rewrite List.app_nil_r.
  - intros abi w devName m _ m' deviceName. subst m'.
    destruct (capture_ready w Device_3_4 devName) eqn:Hready.
    + rewrite HidlMore.deviceAdded_ready_2_4 by exact Hready.
      rewrite HidlFacts.addExternalCamera_run_2_4. cbn [snd object trace].
      split; [reflexivity |]. rewrite !notifications_app.
      change (notifications (capture_probe Device_3_4 devName)) with (@nil Effect).
      rewrite List.app_nil_r. destruct (Hidl.mCallbacks (object m)); reflexivity.
    + destruct (HidlMore.deviceAdded_not_ready_2_4 abi w devName m Hready) as [Ho Hn].
      split; [exact Ho |]. rewrite Hn.
      destruct (Hidl.mCallbacks (object m)); now rewrite List.app_nil_r.
Qed.

(** X6: adding a node and removing it again is a round trip.  When the
    node's name was not in the status map, addExternalCamera followed by
    deviceRemoved for the same node gives back the provider as it was,
    and an attached callback has been told PRESENT and then NOT_PRESENT
    for that name and nothing else; the removal never takes the branch
    that logs an unknown device.  For the HIDL provider this is stated
    where a pointer takes four bytes. *)
Theorem add_then_remove_restores_provider :
  (forall abi kDeviceVersion devName (m : Machine Aidl.ExternalCameraProvider),
      let deviceName := Aidl.deviceNameOf abi kDeviceVersion
                          (cameraIdOffset (Aidl.mCfg (object m))) devName in
      Aidl.mCameraStatusMap (object m) !! deviceName = None ->
      snd (Aidl.deviceRemoved abi kDeviceVersion devName
             (snd (Aidl.addExternalCamera abi kDeviceVersion devName m)))
      = {| object := object m;
           trace := trace m ++
             match Aidl.mCallback (object m) with
             | Some cb => [cameraDeviceStatusChange cb deviceName PRESENT;
                           cameraDeviceStatusChange cb deviceName NOT_PRESENT]
             | None => []
             end |})
  /\ (forall abi devName (m : Machine Hidl.ExternalCameraProviderImpl_2_4),
      sizeof_pointer abi = 4%nat ->
      let deviceName := Hidl.deviceNameOf abi (Hidl.mPreferredHal3MinorVersion (object m))
                          (cameraIdOffset (Hidl.mCfg (object m))) devName in
      Hidl.mCameraStatusMap (object m) !! deviceName = None ->
      snd (Hidl.deviceRemoved abi devName (snd (Hidl.addExternalCamera abi devName m)))
      = {| object := object m;
           trace := trace m
             ++ [ALOGI ("ExtCam: adding " +:+ devName +:+ " to External Camera HAL!")]
             ++ match Hidl.mCallbacks (object m) with
                | Some cb => [cameraDeviceStatusChange cb deviceName PRESENT;
                              cameraDeviceStatusChange cb deviceName NOT_PRESENT]
                | None => []
                end |}).
Proof.
  split.
  - intros abi ver devName m deviceName Hnone.
    rewrite AidlFacts.addExternalCamera_run. cbn [snd].
    rewrite (AidlFacts.deviceRemoved_known _ _ _ _ PRESENT).
    + cbn [snd object trace]. destruct (object m) as [cfg mp cb th].
      unfold Aidl.set_mCameraStatusMap.
      cbn [Aidl.mCfg Aidl.mCameraStatusMap Aidl.mCallback Aidl.mHotPlugThread] in *.
      fold deviceName. rewrite delete_insert_id by exact Hnone.
      destruct cb; rewrite <- List.app_assoc; reflexivity.
    + destruct (object m). cbn. apply lookup_insert_eq.
  - intros abi devName m _ deviceName Hnone.
    rewrite HidlFacts.addExternalCamera_run_2_4. cbn [snd].
    rewrite (HidlMore.deviceRemoved_known_2_4 _ _ _ PRESENT).
    + cbn [snd object trace]. destruct (object m) as [cfg mp cb v th].
      unfold Hidl.set_mCameraStatusMap.
      cbn [Hidl.mCfg Hidl.mCameraStatusMap Hidl.mCallbacks Hidl.mHotPlugThread
           Hidl.mPreferredHal3MinorVersion] in *.
      fold deviceName. rewrite delete_insert_id by exact Hnone.
      destruct cb; repeat rewrite <- List.app_assoc; reflexivity.
    + destruct (object m). cbn. apply lookup_insert_eq.
Qed.

(** X7: what the initial scan registers.  When /dev/ can be listed,
    updateAttachedCameras adds exactly the entries that are named video*,
    are not internal, classify as external and are ready for capture:
    afterwards a name is PRESENT if it is the name of such an entry, and
    otherwise has the status it had; an attached callback gets one PRESENT
    call for each such entry, in directory order; configuration, callback
    and thread state are untouched. *)
Theorem updateAttachedCameras_registers_ready_nodes :
  forall abi kDeviceVersion w entries (m : Machine Aidl.ExternalCameraProvider),
    dev_entries w = Some entries ->
    let registered := List.filter (AidlSpec.scan_registers w (Aidl.mCfg (object m))) entries in
    let deviceName d_name :=
      Aidl.deviceNameOf abi kDeviceVersion (cameraIdOffset (Aidl.mCfg (object m)))
        (Aidl.snprintf_path d_name) in
    let m' := snd (Aidl.updateAttachedCameras abi kDeviceVersion w m) in
    (forall key,
        Aidl.mCameraStatusMap (object m') !! key
        = if bool_decide (key ∈ List.map deviceName registered) then Some PRESENT
          else Aidl.mCameraStatusMap (object m) !! key)
    /\ Aidl.mCfg (object m') = Aidl.mCfg (object m)
    /\ Aidl.mCallback (object m') = Aidl.mCallback (object m)
    /\ Aidl.mHotPlugThread (object m') = Aidl.mHotPlugThread (object m)
    /\ notifications (trace m')
       = (notifications (trace m)
          ++ match Aidl.mCallback (object m) with
             | Some cb => List.map (fun d_name =>
                                      cameraDeviceStatusChange cb (deviceName d_name) PRESENT)
                            registered
             | None => []
             end)%list.
Proof.
  intros abi ver w entries m Hentries registered deviceName m'.
  assert (Hrun : m' = snd (Aidl.scan_entries abi ver w entries
                             {| object := object m;
                                trace := trace m ++ [sys_opendir kDevicePathStr] |})).
  { subst m'. unfold Aidl.updateAttachedCameras. run. rewrite Hentries. reflexivity. }
  destruct (AidlMore.scan_entries_run abi ver w entries
              {| object := object m; trace := trace m ++ [sys_opendir kDevicePathStr] |})
    as [Ho Hn].
  cbn [object trace] in Ho, Hn. rewrite <- Hrun in Ho, Hn.
  fold registered in Ho, Hn. rewrite Ho.
  repeat split; try (destruct (object m); reflexivity).
  - intros key. destruct (object m) as [cfg mp cb th]. cbn [Aidl.set_mCameraStatusMap
      Aidl.mCameraStatusMap Aidl.mCfg].
    apply (StepFacts.lookup_fold_insert_present
             (fun d_name => Aidl.deviceNameOf abi ver (cameraIdOffset cfg)
                              (Aidl.snprintf_path d_name))).
  - rewrite Hn, notifications_app. cbn [notifications List.filter is_notification].
    rewrite List.app_nil_r. reflexivity.
Qed.

(** X8: inotify records that are not the thread's business.  A record of
    another watch descriptor is passed over without a trace; a record of
    the watched directory whose name begins with neither video nor cec is
    logged and passed over.  In both cases the loop goes on with the next
    record from the same provider object and the same mHdmiRxNode. *)
Theorem unrelated_records_are_passed_over :
  forall abi kDeviceVersion w e rest buf (m : Machine Aidl.ExternalCameraProvider),
    wd e <> Aidl.mWd (Aidl.mHotPlugThread (object m))
    \/ (has_prefix "cec" (name e) = false /\ has_prefix kPrefix (name e) = false) ->
    Aidl.event_loop abi kDeviceVersion w (e :: rest) buf m
    = Aidl.event_loop abi kDeviceVersion w rest buf
        {| object := object m;
           trace := trace m ++
             if wd e =? Aidl.mWd (Aidl.mHotPlugThread (object m))
             then [ALOGI ("threadLoop inotify_event " +:+ name e)] else [] |}.
Proof.
  intros abi ver w e rest buf m H.
  destruct (Z.eqb_spec (wd e) (Aidl.mWd (Aidl.mHotPlugThread (object m)))) as [Hwd | Hwd].
  - destruct H as [H | [Hcec Hvideo]]; [contradiction |].
    now apply AidlLoop.event_loop_other_name.
  - rewrite List.app_nil_r, machine_eta. now apply AidlLoop.event_loop_other_watch.
Qed.

(** X9: the AIDL thread loop asks to be stopped in one situation only.
    threadLoop returns false only if /dev/ cannot be opened while the
    record of a created cec entry is handled; poll time-outs and errors,
    short reads, failed initialisation and everything else return true. *)
Theorem threadLoop_returns_false_only_without_dev :
  forall abi kDeviceVersion w stack (m : Machine Aidl.ExternalCameraProvider),
    fst (Aidl.threadLoop abi kDeviceVersion w stack m) = false ->
    dev_entries w = None
    /\ exists events e,
         read_events w = Some events /\ In e events
         /\ has_prefix "cec" (name e) = true /\ has_bits (mask e) IN_CREATE = true.
Proof.
  intros abi ver w stack m. unfold Aidl.threadLoop. run.
  destruct (Aidl.mIsInitialized _);
    [| destruct (Aidl.initialize abi ver w m) as [[|] m1]];
    cbn [fst snd negb]; try discriminate;
    (destruct (poll_ret w =? 0); [discriminate |]);
    (destruct (poll_ret w <? 0); [discriminate |]);
    (destruct (has_bits (poll_revents w) POLLERR); [discriminate |]);
    (destruct (has_bits (poll_revents w) POLLHUP); [discriminate |]);
    (destruct (has_bits (poll_revents w) POLLNVAL); [discriminate |]);
    (destruct (read_events w) as [events |]; [| discriminate]);
    intros H; apply AidlLoop.event_loop_false in H as (Hd & e & Hin & He);
    (split; [exact Hd |]); exists events, e; auto.
Qed.

(** X10: a failed initialisation is not final.  When the thread is not
    initialised and inotify_init or inotify_add_watch fails, threadLoop
    returns true and leaves mIsInitialized false, so that the next call
    initialises again; what updateAttachedCameras registered and announced
    before the failure stays as it is. *)
Theorem failed_initialize_is_retried :
  forall abi kDeviceVersion w stack (m : Machine Aidl.ExternalCameraProvider),
    Aidl.mIsInitialized (Aidl.mHotPlugThread (object m)) = false ->
    inotify_init_ret w < 0 \/ inotify_add_watch_ret w < 0 ->
    let r := Aidl.threadLoop abi kDeviceVersion w stack m in
    let scanned := snd (Aidl.updateAttachedCameras abi kDeviceVersion w m) in
    fst r = true
    /\ Aidl.mIsInitialized (Aidl.mHotPlugThread (object (snd r))) = false
    /\ Aidl.mCameraStatusMap (object (snd r)) = Aidl.mCameraStatusMap (object scanned)
    /\ Aidl.mCallback (object (snd r)) = Aidl.mCallback (object m)
    /\ notifications (trace (snd r)) = notifications (trace scanned)
    /\ In sys_inotify_init (trace (snd r)).
Proof.
  intros abi ver w stack m Hinit Hfail r scanned.
  destruct (AidlWatch.threadLoop_initialize_fails abi ver w stack m Hinit Hfail) as [Hr _].
  subst r. rewrite Hr. cbn [fst snd]. split; [reflexivity |].
  destruct (AidlWatch.updateAttachedCameras_keeps_watch abi ver w m) as [Hth _].
  pose proof (AidlDelivery.updateAttachedCameras_delivered abi ver w m) as (_ & Hcb & _).
  fold scanned in Hth, Hcb.
  unfold Aidl.initialize. rewrite bind_run. fold scanned. run.
  destruct (Z.ltb_spec (inotify_init_ret w) 0); cbn [fst snd object trace].
  - repeat split; try (destruct (object scanned); cbn in *; congruence).
    + rewrite !notifications_app. cbn. now rewrite !List.app_nil_r.
    + apply in_or_app. left. apply in_or_app. right. left. reflexivity.
  - destruct (Z.ltb_spec (inotify_add_watch_ret w) 0); [| lia]. cbn [fst snd object trace].
    repeat split; try (destruct (object scanned); cbn in *; congruence).
    + rewrite !notifications_app. cbn. now rewrite !List.app_nil_r.
    + apply in_or_app. left. apply in_or_app. left. apply in_or_app. right. left.
      reflexivity.
Qed.

(** X11: an initialised thread never initialises again.  From a state in
    which mIsInitialized is true, any calls whatever leave mINotifyFD, mWd
    and mIsInitialized as they are, and make neither an inotify_init nor an
    inotify_add_watch call: every later threadLoop goes straight to
    poll. *)
Theorem initialised_thread_keeps_its_watch :
  forall abi kDeviceVersion calls (m : Machine Aidl.ExternalCameraProvider),
    Aidl.mIsInitialized (Aidl.mHotPlugThread (object m)) = true ->
    let m' := fold_left (fun m c => AidlRun.exec abi kDeviceVersion c m) calls m in
    Aidl.mHotPlugThread (object m') = Aidl.mHotPlugThread (object m)
    /\ exists t, trace m' = (trace m ++ t)%list
         /\ ~ In sys_inotify_init t
         /\ forall path mask, ~ In (sys_inotify_add_watch path mask) t.
Proof.
  intros abi ver calls m Hinit m'.
  destruct (AidlWatch.run_keeps_watch abi ver calls m Hinit) as (Hth & t & Ht & Hf).
  split; [exact Hth |]. exists t. split; [exact Ht |].
  rewrite forallb_forall in Hf. split.
  - intros Hin. apply Hf in Hin. discriminate.
  - intros path mask Hin. apply Hf in Hin. discriminate.
Qed.

(** With the offset declared uint32_t, a node whose number reads as -5
    is registered, under offset 2, with the id 4294967293, and std::stoi
    throws when that name is opened; the same in both providers. *)
Lemma wrapped_id_is_registered_and_throws :
  let m := snd (Aidl.addExternalCamera LP64 "3.4" "/dev/video-5" Examples.attached) in
  let m_2_4 := snd (Hidl.addExternalCamera ILP32 "/dev/video-5" Examples.attached_2_4) in
  Aidl.mCameraStatusMap (object m) !! "device@3.4/external/4294967293" = Some PRESENT
  /\ fst (Aidl.getCameraDeviceInterface Examples.codec_world
            "device@3.4/external/4294967293" (Some None) m) = inl out_of_range
  /\ Hidl.mCameraStatusMap (object m_2_4) !! "device@3.4/external/4294967293"
     = Some PRESENT
  /\ fst (Hidl.getCameraDeviceInterface_V3_x Examples.codec_world
            "device@3.4/external/4294967293" m_2_4) = inl out_of_range.
Proof. cbv zeta. repeat split; vm_compute; reflexivity. Qed.

(** X12: how the names in the status map resolve.  In a state the
    constructor and any calls have led to, and with a device version of
    the form digits.digits, a name that has an entry in mCameraStatusMap
    ends in the decimal form of the number the provider computed for it:
    an int when cameraIdOffset is declared int, a uint32_t when it is
    declared unsigned.  When that number is at most INT_MAX, matchDeviceName
    parses the name, under the same offset, into the provider's version and
    a /dev/video path, and getCameraDeviceInterface never answers
    ILLEGAL_ARGUMENT: it returns OK with the device when a device object
    initialises on that path, and INTERNAL_ERROR otherwise.  When the
    number is above INT_MAX, std::stoi throws out_of_range, out of
    matchDeviceName and out of getCameraDeviceInterface. *)
Theorem registered_name_resolves :
  forall abi kDeviceVersion cfg w (m : Machine Aidl.ExternalCameraProvider) name st out,
    AidlRun.reachable abi kDeviceVersion cfg m ->
    Regex.matches Regex.re_version kDeviceVersion ->
    Aidl.mCameraStatusMap (object m) !! name = Some st ->
    exists n,
      INT_MIN <= n < 2 ^ 32
      /\ (cameraIdOffset_unsigned abi = false -> n <= INT_MAX)
      /\ name = "device@" +:+ kDeviceVersion +:+ "/external/" +:+ to_string n
      /\ (n <= INT_MAX ->
          let path := "/dev/video" +:+ to_string (int_sub n (cameraIdOffset cfg)) in
          Aidl.matchDeviceName (cameraIdOffset cfg) name (Some "") (Some "")
          = inr (true, Some kDeviceVersion, Some path)
          /\ fst (Aidl.getCameraDeviceInterface w name (Some out) m)
             = match make_device w Device_aidl path with
               | Some deviceImpl =>
                   if isInitFailed deviceImpl then inr (INTERNAL_ERROR, Some None)
                   else inr (OK, Some (Some deviceImpl))
               | None => inr (INTERNAL_ERROR, Some None)
               end)
      /\ (INT_MAX < n ->
          Aidl.matchDeviceName (cameraIdOffset cfg) name (Some "") (Some "")
          = inl out_of_range
          /\ fst (Aidl.getCameraDeviceInterface w name (Some out) m) = inl out_of_range).
Proof.
  intros abi ver cfg w m name st out Hreach Hver Hl.
  destruct (AidlNames.reachable_keys_int abi ver cfg m Hreach name)
    as (n & Hn & Hsigned & ->); [eauto |].
  pose proof (AidlFacts.reachable_no_tombstone _ _ _ _ Hreach _ _ Hl) as ->.
  destruct (AidlFacts.reachable_internal_devices _ _ _ _ Hreach) as [Hcfg _].
  exists n. split; [exact Hn |]. split; [exact Hsigned |]. split; [reflexivity |]. split.
  - intros Hsmall. cbv zeta.
    pose proof (NameFacts.matchDeviceName_decimal (cameraIdOffset cfg) ver n "" "" Hver
                  (conj (proj1 Hn) Hsmall)) as Hmatch.
    split; [exact Hmatch |].
    unfold Aidl.getCameraDeviceInterface. run. rewrite Hcfg, Hmatch, Hl.
    cbn [negb]. rewrite bool_decide_eq_false_2 by discriminate.
    rewrite bool_decide_eq_true_2 by reflexivity. cbn [orb negb]. run.
    unfold default, from_option, id.
    destruct (make_device w Device_aidl _) as [deviceImpl |]; [| reflexivity].
    destruct (isInitFailed deviceImpl); reflexivity.
  - intros Hlarge.
    pose proof (NameFacts.matchDeviceName_decimal_large (cameraIdOffset cfg) ver n "" ""
                  Hver Hlarge) as Hmatch.
    split; [exact Hmatch |].
    unfold Aidl.getCameraDeviceInterface. run. now rewrite Hcfg, Hmatch.
Qed.

(** X13: the rescan a created cec entry starts stops at the first
    receiver.  With entries before it that are not the HDMI receiver, the
    first entry that is named video*, classifies as external and sets
    *isHdmiRx ends the loop: the entries after it are never looked at,
    its path is copied over the front of mHdmiRxNode, and it is
    registered exactly when it is ready for capture.  The set of internal
    devices plays no part in this scan. *)
Theorem cec_scan_stops_at_first_receiver :
  forall abi kDeviceVersion w before d_name after buf
         (m : Machine Aidl.ExternalCameraProvider),
    forallb (fun d => negb (AidlSpec.is_receiver w d)) before = true ->
    AidlSpec.is_receiver w d_name = true ->
    let r := Aidl.cec_scan abi kDeviceVersion w (before ++ d_name :: after) buf m in
    let devName := Aidl.snprintf_path d_name in
    let deviceName := Aidl.deviceNameOf abi kDeviceVersion
                        (cameraIdOffset (Aidl.mCfg (object m))) devName in
    r = Aidl.cec_scan abi kDeviceVersion w (before ++ [d_name]) buf m
    /\ fst r = strncpy_strlen buf devName
    /\ object (snd r)
       = (if capture_ready w Device_aidl devName
          then Aidl.set_mCameraStatusMap (insert deviceName PRESENT) (object m)
          else object m)
    /\ notifications (trace (snd r))
       = (notifications (trace m)
          ++ match Aidl.mCallback (object m) with
             | Some cb => if capture_ready w Device_aidl devName
                          then [cameraDeviceStatusChange cb deviceName PRESENT] else []
             | None => []
             end)%list.
Proof.
  intros abi ver w before d_name after buf. cbv zeta.
  induction before as [| d before IH]; intros m Hbefore Hrecv.
  - cbn [app].
    rewrite (AidlCec.cec_scan_receiver abi ver w d_name after buf m Hrecv).
    rewrite (AidlCec.cec_scan_receiver abi ver w d_name [] buf m Hrecv).
    destruct (AidlCec.probed_quiet w d_name m) as [Ho Hn].
    set (mp := snd (Aidl.isExternalDevice w _ _ (Some false) _)) in *.
    split; [reflexivity |]. split; [reflexivity |]. cbn [fst snd object trace].
    destruct (capture_ready w Device_aidl (Aidl.snprintf_path d_name)) eqn:Hready.
    + rewrite AidlMore.deviceAdded_ready by exact Hready.
      rewrite AidlFacts.addExternalCamera_run. cbn [snd object trace]. rewrite Ho.
      split; [reflexivity |]. rewrite !notifications_app, Hn.
      change (notifications (capture_probe Device_aidl (Aidl.snprintf_path d_name)))
        with (@nil Effect).
      cbn [notifications List.filter is_notification].
      rewrite !List.app_nil_r. destruct (Aidl.mCallback (object m)); reflexivity.
    + destruct (AidlMore.deviceAdded_not_ready abi ver w (Aidl.snprintf_path d_name)
                  mp Hready) as [Ho' Hn'].
      rewrite Ho', Ho. split; [reflexivity |].
      rewrite notifications_app, Hn', Hn. cbn [notifications List.filter is_notification].
      destruct (Aidl.mCallback (object m)); now rewrite !List.app_nil_r.
  - cbn [forallb] in Hbefore. apply andb_true_iff in Hbefore as [Hd Hbefore].
    apply negb_true_iff in Hd. cbn [app].
    rewrite !(AidlCec.cec_scan_skip abi ver w d _ buf m Hd).
    set (m1 := if has_prefix kPrefix d then _ else m).
    assert (Hm1 : object m1 = object m
                  /\ notifications (trace m1) = notifications (trace m)).
    { subst m1. destruct (has_prefix kPrefix d); [apply AidlCec.probed_quiet | auto]. }
    destruct Hm1 as [Ho Hn]. rewrite <- Ho, <- Hn. now apply IH.
Qed.

(** X14: the HIDL provider keeps an attached callback in step with its
    status map.  From a state the constructor and any calls have led to,
    after setCallback and any further calls other than setCallback
    (threadLoop with its scan and its watch loop included), the callback
    is still attached, every call made since goes to it, and replaying
    those calls from an empty map gives mCameraStatusMap. *)
Theorem subscriber_view_tracks_status_map_2_4 :
  forall abi cfg v (m : Machine Hidl.ExternalCameraProviderImpl_2_4) cb calls,
    HidlRun.reachable abi cfg v m ->
    forallb (fun c => negb (HidlRun.is_setCallback c)) calls = true ->
    let m' := fold_left (fun m c => HidlRun.exec abi c m) calls
                (HidlRun.exec abi (HidlRun.call_setCallback (Some cb)) m) in
    Hidl.mCallbacks (object m') = Some cb
    /\ exists t, trace m' = (trace m ++ t)%list
         /\ Forall (addressed_to cb) t
         /\ subscriber_view t ∅ = Hidl.mCameraStatusMap (object m').
Proof.
  intros abi cfg v m cb calls Hreach Hcalls m'.
  destruct (HidlDelivery.reachable_kept abi cfg v m Hreach) as (_ & _ & _ & Hnt & _).
  pose proof (HidlDelivery.run_delivered_2_4 abi calls
                (HidlRun.exec abi (HidlRun.call_setCallback (Some cb)) m) Hcalls)
    as (_ & _ & _ & Hcb & _ & _ & t2 & Ht2 & Hd).
  fold m' in Hcb, Ht2, Hd. cbn [HidlRun.exec] in Hcb, Ht2, Hd.
  rewrite HidlDelivery.setCallback_run_2_4 in Hcb, Ht2, Hd.
  cbn [snd object trace Hidl.set_mCallbacks Hidl.mCallbacks Hidl.mCameraStatusMap]
    in Hcb, Ht2, Hd.
  destruct Hd as [Hf2 Hv2]. split; [exact Hcb |].
  eexists. split; [rewrite Ht2; symmetry; apply List.app_assoc |]. split.
  - apply Forall_app. split; [| exact Hf2].
    apply List.Forall_forall. intros e He. apply in_map_iff in He as (kv & <- & _).
    reflexivity.
  - rewrite StepFacts.subscriber_view_app, StepFacts.subscriber_view_replay.
    + rewrite StepFacts.fold_left_insert_to_list. exact Hv2.
    + intros [k st] Hin. apply (Hnt k). apply elem_of_map_to_list.
      apply list_elem_of_In. exact Hin.
Qed.

(** X15: how the names in the HIDL status map resolve.  In a state the
    constructor and any calls have led to, the preferred minor version is
    4, 5 or 6 (the default branch of the version switch is never taken); a
    name with an entry in mCameraStatusMap has the provider's version and
    ends in the decimal form of the number the provider computed for it:
    an int when cameraIdOffset is declared int, a uint32_t when it is
    declared unsigned.  When that number is at most INT_MAX,
    matchDeviceName parses the name and getCameraDeviceInterface_V3_x
    constructs the device class of that version on the parsed path: it
    never answers ILLEGAL_ARGUMENT, and INTERNAL_ERROR only when the device
    object fails to initialise.  When the number is above INT_MAX,
    std::stoi throws out_of_range, out of matchDeviceName and out of
    getCameraDeviceInterface_V3_x.  (The calls are taken to come after the
    constructor has returned.) *)
Theorem registered_name_resolves_2_4 :
  forall abi cfg v w (m : Machine Hidl.ExternalCameraProviderImpl_2_4) name st,
    HidlRun.reachable abi cfg v m ->
    Hidl.mCameraStatusMap (object m) !! name = Some st ->
    let minor := Hidl.mPreferredHal3MinorVersion (object m) in
    exists n cls,
      INT_MIN <= n < 2 ^ 32
      /\ (cameraIdOffset_unsigned abi = false -> n <= INT_MAX)
      /\ name = "device@" +:+ Hidl.version_2_4 minor +:+ "/external/" +:+ to_string n
      /\ Hidl.device_class minor = Some cls
      /\ ((minor = 4 /\ cls = Device_3_4) \/ (minor = 5 /\ cls = Device_3_5)
          \/ (minor = 6 /\ cls = Device_3_6))
      /\ (n <= INT_MAX ->
          let path := "/dev/video" +:+ to_string (int_sub n (cameraIdOffset cfg)) in
          Hidl.matchDeviceName (cameraIdOffset cfg) name (Some "") (Some "")
          = inr (true, Some (Hidl.version_2_4 minor), Some path)
          /\ fst (Hidl.getCameraDeviceInterface_V3_x w name m)
             = match make_device w cls path with
               | Some deviceImpl =>
                   if isInitFailed deviceImpl then inr (INTERNAL_ERROR, None)
                   else inr (OK, Some deviceImpl)
               | None => inr (INTERNAL_ERROR, None)
               end)
      /\ (INT_MAX < n ->
          Hidl.matchDeviceName (cameraIdOffset cfg) name (Some "") (Some "")
          = inl out_of_range
          /\ fst (Hidl.getCameraDeviceInterface_V3_x w name m) = inl out_of_range).
Proof.
  intros abi cfg v w m name st Hreach Hl minor.
  destruct (HidlDelivery.reachable_kept abi cfg v m Hreach) as (Hcfg & Hv & _ & Hnt & Hk).
  destruct (Hk name) as (n & Hn & Hsigned & Hname); [eauto |].
  pose proof (Hnt _ _ Hl) as ->. fold minor in Hname, Hv.
  assert (Hminor : (minor = 4 /\ Hidl.device_class minor = Some Device_3_4)
                   \/ (minor = 5 /\ Hidl.device_class minor = Some Device_3_5)
                   \/ (minor = 6 /\ Hidl.device_class minor = Some Device_3_6)).
  { rewrite Hv. cbn [Hidl.construct Hidl.mPreferredHal3MinorVersion].
    destruct (Z.eqb_spec v 4) as [-> | H4]; [left; split; reflexivity |].
    destruct (Z.eqb_spec v 5) as [-> | H5]; [right; left; split; reflexivity |].
    destruct (Z.eqb_spec v 6) as [-> | H6]; [right; right; split; reflexivity |].
    left; split; reflexivity. }
  assert (exists cls, Hidl.device_class minor = Some cls
                      /\ ((minor = 4 /\ cls = Device_3_4) \/ (minor = 5 /\ cls = Device_3_5)
                          \/ (minor = 6 /\ cls = Device_3_6))) as (cls & Hcls & Hpair).
  { destruct Hminor as [[? ?] | [[? ?] | [? ?]]]; eexists; split; eauto. }
  exists n, cls. split; [exact Hn |]. split; [exact Hsigned |]. split; [exact Hname |].
  split; [exact Hcls |]. split; [exact Hpair |].
  assert (Hsame : forall dv dp,
             Hidl.matchDeviceName (cameraIdOffset cfg) name dv dp
             = Aidl.matchDeviceName (cameraIdOffset cfg) name dv dp).
  { intros dv dp. rewrite NameFacts.matchDeviceName_2_4_same, Hname.
    now rewrite NameFacts.hidl_c_str_formed. }
  split.
  - intros Hsmall. cbv zeta.
    assert (Hmatch : Hidl.matchDeviceName (cameraIdOffset cfg) name (Some "") (Some "")
                     = inr (true, Some (Hidl.version_2_4 minor),
                            Some ("/dev/video"
                                  +:+ to_string (int_sub n (cameraIdOffset cfg))))).
    { rewrite Hsame, Hname.
      apply NameFacts.matchDeviceName_decimal;
        [apply NameFacts.matches_version_2_4 | exact (conj (proj1 Hn) Hsmall)]. }
    split; [exact Hmatch |].
    unfold Hidl.getCameraDeviceInterface_V3_x. run. rewrite Hcfg, Hmatch, Hl.
    cbn [negb]. rewrite bool_decide_eq_false_2 by discriminate.
    rewrite bool_decide_eq_true_2 by reflexivity. cbn [orb negb].
    fold minor. rewrite Hcls. run. unfold default, from_option, id.
    destruct (make_device w cls _) as [deviceImpl |]; [| reflexivity].
    destruct (isInitFailed deviceImpl); reflexivity.
  - intros Hlarge.
    assert (Hmatch : Hidl.matchDeviceName (cameraIdOffset cfg) name (Some "") (Some "")
                     = inl out_of_range).
    { rewrite Hsame, Hname.
      apply NameFacts.matchDeviceName_decimal_large;
        [apply NameFacts.matches_version_2_4 | exact Hlarge]. }
    split; [exact Hmatch |].
    unfold Hidl.getCameraDeviceInterface_V3_x. run. now rewrite Hcfg, Hmatch.
Qed.

(** X16: mHdmiRxNode is never overrun.  The path copied into the array
    comes from snprintf with the array's size as bound, so the strncpy of
    strlen(path) bytes stays inside it: the rescan of both providers, and
    the HIDL event loop that carries the array from one record to the
    next, return an array of kMaxDevicePathLen bytes when given one. *)
Theorem mHdmiRxNode_is_never_overrun :
  forall abi kDeviceVersion w entries events buf
         (m : Machine Aidl.ExternalCameraProvider)
         (m' : Machine Hidl.ExternalCameraProviderImpl_2_4),
    length buf = kMaxDevicePathLen ->
    length (fst (Aidl.cec_scan abi kDeviceVersion w entries buf m)) = kMaxDevicePathLen
    /\ length (fst (Hidl.cec_scan abi w entries buf m')) = kMaxDevicePathLen
    /\ forall buf', fst (Hidl.event_loop abi w events buf m') = Some buf' ->
                    length buf' = kMaxDevicePathLen.
Proof.
  intros abi ver w entries events buf m m' Hlen. split; [| split].
  - now apply AidlCec.cec_scan_length.
  - now apply HidlLoop.cec_scan_length_2_4.
  - intros buf'. now apply HidlLoop.event_loop_length_2_4.
Qed.

(** X17: how the HIDL thread loop ends.  threadLoop returns false only
    when /dev/ cannot be opened, at the start or while the record of a
    created cec entry is handled during some read; it returns true, to be
    run again from the scan, only when /dev/ was listed and inotify_init or
    inotify_add_watch failed; and it is still in its watch loop when the
    reads considered are used up only if both succeeded. *)
Theorem threadLoop_2_4_result :
  forall abi w0 ws stack (m : Machine Hidl.ExternalCameraProviderImpl_2_4),
    match fst (Hidl.threadLoop abi w0 ws stack m) with
    | Some false =>
        dev_entries w0 = None
        \/ exists w events e,
             In w ws /\ dev_entries w = None /\ read_events w = Some events /\ In e events
             /\ has_prefix "cec" (name e) = true /\ has_bits (mask e) IN_CREATE = true
    | Some true =>
        dev_entries w0 <> None
        /\ (inotify_init_ret w0 < 0 \/ inotify_add_watch_ret w0 < 0)
    | None =>
        dev_entries w0 <> None
        /\ 0 <= inotify_init_ret w0 /\ 0 <= inotify_add_watch_ret w0
    end.
Proof.
  intros abi w0 ws stack m. unfold Hidl.threadLoop. rewrite bind_run.
  unfold Hidl.threadLoop_begin at 1. rewrite bind_run.
  destruct (dev_entries w0) as [entries |] eqn:Hentries; [| left; reflexivity].
  run.
  destruct (Z.ltb_spec (inotify_init_ret w0) 0); run; [split; [discriminate | auto] |].
  destruct (Z.ltb_spec (inotify_add_watch_ret w0) 0); run; [split; [discriminate | auto] |].
  match goal with
  | |- context [Hidl.watch_loop abi ws stack ?m1] =>
      destruct (fst (Hidl.watch_loop abi ws stack m1)) as [b |] eqn:Hw;
        [apply HidlLoop.watch_loop_result in Hw as [-> Hw]; right; exact Hw |]
  end.
  split; [discriminate | split; assumption].
Qed.

(** X18: on a target with 4-byte pointers the two providers keep the same
    registry.  There the HIDL provider's kDevicePrefixLen equals the AIDL
    one, so both derive the same name from a node path; from states with
    the same configuration, status map and callback, and the HIDL version
    string as the AIDL device version, addExternalCamera and deviceRemoved
    leave equal status maps and make the same callback calls. *)
Theorem providers_agree_on_32_bit :
  forall abi devName (m : Machine Aidl.ExternalCameraProvider)
         (m' : Machine Hidl.ExternalCameraProviderImpl_2_4),
    sizeof_pointer abi = 4%nat ->
    Aidl.mCfg (object m) = Hidl.mCfg (object m') ->
    Aidl.mCameraStatusMap (object m) = Hidl.mCameraStatusMap (object m') ->
    Aidl.mCallback (object m) = Hidl.mCallbacks (object m') ->
    let minor := Hidl.mPreferredHal3MinorVersion (object m') in
    let kDeviceVersion := Hidl.version_2_4 minor in
    Hidl.deviceNameOf abi minor (cameraIdOffset (Hidl.mCfg (object m'))) devName
    = Aidl.deviceNameOf abi kDeviceVersion (cameraIdOffset (Aidl.mCfg (object m))) devName
    /\ (let a := snd (Aidl.addExternalCamera abi kDeviceVersion devName m) in
        let h := snd (Hidl.addExternalCamera abi devName m') in
        Aidl.mCameraStatusMap (object a) = Hidl.mCameraStatusMap (object h)
        /\ exists t, notifications (trace a) = (notifications (trace m) ++ t)%list
                     /\ notifications (trace h) = (notifications (trace m') ++ t)%list)
    /\ (let a := snd (Aidl.deviceRemoved abi kDeviceVersion devName m) in
        let h := snd (Hidl.deviceRemoved abi devName m') in
        Aidl.mCameraStatusMap (object a) = Hidl.mCameraStatusMap (object h)
        /\ exists t, notifications (trace a) = (notifications (trace m) ++ t)%list
                     /\ notifications (trace h) = (notifications (trace m') ++ t)%list).
Proof.
  intros abi devName m m' Hptr Hcfg Hmap Hcb minor ver.
  assert (Hname : Hidl.deviceNameOf abi minor (cameraIdOffset (Hidl.mCfg (object m'))) devName
                  = Aidl.deviceNameOf abi ver (cameraIdOffset (Aidl.mCfg (object m))) devName).
  { rewrite Hcfg. unfold Hidl.deviceNameOf, Aidl.deviceNameOf, ver, Hidl.version_2_4,
      Hidl.kDevicePrefixLen, Hidl.sizeof_kDevicePath, Aidl.kDevicePrefixLen,
      Aidl.sizeof_kDevicePath.
    rewrite Hptr. cbv zeta.
    destruct (minor =? 6); [reflexivity |]. destruct (minor =? 5); reflexivity. }
  split; [exact Hname |]. split.
  - cbv zeta. rewrite AidlFacts.addExternalCamera_run, HidlFacts.addExternalCamera_run_2_4.
    cbn [snd object trace]. fold minor. rewrite Hname. split.
    + destruct (object m), (object m'). cbn in *. now subst.
    + rewrite !notifications_app, Hcb.
      cbn [notifications List.filter is_notification]. eexists. split; reflexivity.
  - cbv zeta.
    destruct (Aidl.mCameraStatusMap (object m)
                !! Aidl.deviceNameOf abi ver (cameraIdOffset (Aidl.mCfg (object m))) devName)
      as [st |] eqn:Hl.
    + rewrite (AidlFacts.deviceRemoved_known _ _ _ _ _ Hl).
      rewrite <- Hname, Hmap in Hl.
      rewrite (HidlMore.deviceRemoved_known_2_4 _ _ _ _ Hl).
      cbn [snd object trace]. fold minor. rewrite Hname. split.
      * destruct (object m), (object m'). cbn in *. now subst.
      * rewrite !notifications_app, Hcb. eexists. split; reflexivity.
    + rewrite (AidlFacts.deviceRemoved_unknown _ _ _ _ Hl).
      rewrite <- Hname, Hmap in Hl.
      rewrite (HidlFacts.deviceRemoved_unknown_2_4 _ _ _ Hl).
      cbn [snd object trace]. split; [exact Hmap |].
      exists []. rewrite !notifications_app. split; reflexivity.
Qed.

(** X19: a node that is plugged in and pulled out again leaves no mark.
    When one read returns the CREATE record and then the DELETE record of
    the same entry video<S> in the watched directory, S is not internal,
    the node classifies as external and is ready for capture, and its
    name was not in the status map, the event loop returns true with the
    provider as it was before, and an attached callback has been told
    PRESENT and then NOT_PRESENT for that name and nothing else. *)
Theorem hotplug_create_then_delete_roundtrip :
  forall abi kDeviceVersion w d_name buf (m : Machine Aidl.ExternalCameraProvider),
    let created := {| wd := Aidl.mWd (Aidl.mHotPlugThread (object m));
                      mask := IN_CREATE; name := d_name |} in
    let deleted := {| wd := Aidl.mWd (Aidl.mHotPlugThread (object m));
                      mask := IN_DELETE; name := d_name |} in
    let devName := Aidl.snprintf_path d_name in
    let deviceName := Aidl.deviceNameOf abi kDeviceVersion
                        (cameraIdOffset (Aidl.mCfg (object m))) devName in
    has_prefix kPrefix d_name = true ->
    advance kPrefixLen d_name ∉ Aidl.t_mInternalDevices (Aidl.mHotPlugThread (object m)) ->
    fst (AidlSpec.classify w devName (Aidl.sprintf_sysclass d_name)) = true ->
    capture_ready w Device_aidl devName = true ->
    Aidl.mCameraStatusMap (object m) !! deviceName = None ->
    let r := Aidl.event_loop abi kDeviceVersion w [created; deleted] buf m in
    fst r = true
    /\ object (snd r) = object m
    /\ notifications (trace (snd r))
       = (notifications (trace m)
          ++ match Aidl.mCallback (object m) with
             | Some cb => [cameraDeviceStatusChange cb deviceName PRESENT;
                           cameraDeviceStatusChange cb deviceName NOT_PRESENT]
             | None => []
             end)%list.
Proof.
  intros abi ver w d_name buf m. cbv zeta. intros Hvideo Hint Hext Hready Hnone.
  rewrite AidlHotplug.event_loop_video by (reflexivity || exact Hvideo).
  cbn [name].
  match goal with
  | |- context [Aidl.video_event abi ver w ?e ?m0] =>
      destruct (AidlHotplug.video_event_create abi ver w e m0 eq_refl Hint Hext Hready)
        as [Ho1 Hn1];
      set (m1 := snd (Aidl.video_event abi ver w e m0)) in *
  end.
  cbn [name object trace] in Ho1, Hn1.
  assert (Hth1 : Aidl.mHotPlugThread (object m1) = Aidl.mHotPlugThread (object m))
    by (rewrite Ho1; reflexivity).
  rewrite AidlHotplug.event_loop_video;
    [| cbn [wd]; now rewrite Hth1 | exact Hvideo].
  rewrite AidlHotplug.video_event_delete;
    [| reflexivity | reflexivity | cbn [object name]; rewrite Hth1; exact Hint].
  cbn [name Aidl.event_loop]. rewrite ret_run. cbn [fst snd].
  match goal with
  | |- context [Aidl.deviceRemoved abi ver ?d ?m2] =>
      assert (Hl : Aidl.mCameraStatusMap (object m2)
                     !! Aidl.deviceNameOf abi ver (cameraIdOffset (Aidl.mCfg (object m2))) d
                   = Some PRESENT);
      [cbn [object]; rewrite Ho1; unfold Aidl.set_mCameraStatusMap;
       cbn [Aidl.mCameraStatusMap Aidl.mCfg]; apply lookup_insert_eq |];
      rewrite (AidlFacts.deviceRemoved_known abi ver d m2 PRESENT Hl)
  end.
  cbn [snd object trace]. split; [reflexivity |]. rewrite Ho1. split.
  - destruct (object m) as [cfg mp cb th]. unfold Aidl.set_mCameraStatusMap.
    cbn [Aidl.mCfg Aidl.mCameraStatusMap Aidl.mCallback Aidl.mHotPlugThread] in *.
    rewrite delete_insert_id by exact Hnone. reflexivity.
  - rewrite !notifications_app, Hn1, notifications_app.
    cbn [notifications List.filter is_notification]. rewrite List.app_nil_r.
    destruct (object m) as [cfg mp [cb |] th]; cbn; rewrite <- ?List.app_assoc;
      rewrite ?List.app_nil_r; reflexivity.
Qed.

(** X20: the decision of the HIDL isExternalDevice.  It returns true
    exactly when the node opens and answers VIDIOC_QUERYCAP, and either
    the driver name contains uvc and VIDIOC_ENUM_FMT succeeds, or it
    contains cap but not uvc and the name attribute can be read and
    begins with mxc_isi.6.capture; the name attribute is not looked at on
    the first way, and no codec name is turned away.  *isHdmiRx is true
    afterwards exactly when a pointer was passed and true was returned on
    the second way.  Both results are those of [HidlSpec.classify].  The
    call leaves the provider alone and calls no callback. *)
Theorem isExternalDevice_2_4_decision :
  forall w devName sysClassName isHdmiRx (m : Machine Hidl.ExternalCameraProviderImpl_2_4),
    let r := Hidl.isExternalDevice w devName sysClassName isHdmiRx m in
    (fst (fst r) = true <->
       exists vidCap,
         open_ok w devName (Z.lor O_RDWR O_NONBLOCK) = true
         /\ ioctl_querycap w devName = Some vidCap
         /\ if strstr (driver vidCap) "uvc" then ioctl_enum_fmt_ok w devName = true
            else strstr (driver vidCap) "cap" = true
                 /\ exists buffer, ReadFileToString w sysClassName = Some buffer
                                   /\ compare_prefix "mxc_isi.6.capture" buffer = true)
    /\ (snd (fst r) = Some true <->
          isHdmiRx <> None /\ fst (fst r) = true
          /\ exists vidCap, ioctl_querycap w devName = Some vidCap
                            /\ strstr (driver vidCap) "uvc" = false)
    /\ (snd (fst r) = None <-> isHdmiRx = None)
    /\ fst r = (fst (HidlSpec.classify w devName sysClassName),
                match isHdmiRx with
                | Some _ => Some (snd (HidlSpec.classify w devName sysClassName))
                | None => None
                end)
    /\ object (snd r) = object m
    /\ notifications (trace (snd r)) = notifications (trace m).
Proof.
  intros w devName sysClassName isHdmiRx m r.
  destruct (HidlScan.isExternalDevice_quiet_2_4 w devName sysClassName isHdmiRx m) as [Ho Hn].
  assert (Hr : fst r = (fst (HidlSpec.classify w devName sysClassName),
                        match isHdmiRx with
                        | Some _ => Some (snd (HidlSpec.classify w devName sysClassName))
                        | None => None
                        end))
    by apply HidlScan.isExternalDevice_classify_2_4.
  rewrite Hr. cbn [fst snd].
  split; [| split; [| split; [| split; [reflexivity | split; [exact Ho | exact Hn]]]]];
    unfold HidlSpec.classify.
  - destruct (open_ok w devName _) eqn:Hopen; cbn [negb];
      [| split; [discriminate | intros (? & ? & _); discriminate]].
    destruct (ioctl_querycap w devName) as [vidCap |];
      [| split; [discriminate | intros (? & _ & ? & _); discriminate]].
    destruct (strstr (driver vidCap) "uvc") eqn:Huvc; cbn [fst].
    + split.
      * intros He. exists vidCap. rewrite Huvc. auto.
      * intros (vc & _ & [= <-] & H). rewrite Huvc in H. exact H.
    + destruct (strstr (driver vidCap) "cap") eqn:Hcap; cbn [fst].
      * destruct (ReadFileToString w sysClassName) as [buffer |]; cbn [fst].
        -- split.
           ++ intros He. exists vidCap. rewrite Huvc. repeat split; auto. eauto.
           ++ intros (vc & _ & [= <-] & H). rewrite Huvc in H.
              destruct H as (_ & b & [= <-] & H). exact H.
        -- split; [discriminate |].
           intros (vc & _ & [= <-] & H). rewrite Huvc in H.
           destruct H as (_ & b & Hb & _). discriminate.
      * split; [discriminate |].
        intros (vc & _ & [= <-] & H). rewrite Huvc, Hcap in H.
        destruct H; discriminate.
  - destruct isHdmiRx as [b |]; [| split; [discriminate | intros [H _]; now elim H]].
    destruct (open_ok w devName _); cbn [negb];
      [| split; [discriminate | intros (_ & ? & _); discriminate]].
    destruct (ioctl_querycap w devName) as [vidCap |];
      [| split; [discriminate | intros (_ & ? & _); discriminate]].
    destruct (strstr (driver vidCap) "uvc") eqn:Huvc; cbn [fst snd].
    + split; [discriminate | intros (_ & _ & vc & [= <-] & H); congruence].
    + destruct (strstr (driver vidCap) "cap"); cbn [fst snd].
      * destruct (ReadFileToString w sysClassName) as [buffer |]; cbn [fst snd].
        -- split.
           ++ intros [= H]. rewrite H. repeat split; [discriminate |]. eauto.
           ++ intros (_ & H & _). now rewrite H.
        -- split; [discriminate | intros (_ & ? & _); discriminate].
      * split; [discriminate | intros (_ & ? & _); discriminate].
  - destruct isHdmiRx; split; congruence.
Qed.

(** X21: what the scan at the start of the HIDL threadLoop registers.
    When /dev/ can be listed, the part of threadLoop before the watch loop
    adds exactly the entries that are named video*, are not among the
    thread's internal devices, classify as external and are ready for
    capture: afterwards a name is PRESENT if it is the name of such an
    entry, and otherwise has the status it had; an attached callback gets
    one PRESENT call for each such entry, in directory order;
    configuration, callback and preferred version are untouched.  This
    where a pointer takes four bytes, so that the id is read from the
    digits that follow /dev/video. *)
Theorem threadLoop_begin_registers_ready_nodes :
  forall abi w entries (m : Machine Hidl.ExternalCameraProviderImpl_2_4),
    sizeof_pointer abi = 4%nat ->
    dev_entries w = Some entries ->
    let registered :=
      List.filter (HidlSpec.scan_registers w
                     (Hidl.t_mInternalDevices (Hidl.mHotPlugThread (object m)))) entries in
    let deviceName d_name :=
      Hidl.deviceNameOf abi (Hidl.mPreferredHal3MinorVersion (object m))
        (cameraIdOffset (Hidl.mCfg (object m))) (Hidl.snprintf_path d_name) in
    let m' := snd (Hidl.threadLoop_begin abi w m) in
    (forall key,
        Hidl.mCameraStatusMap (object m') !! key
        = if bool_decide (key ∈ List.map deviceName registered) then Some PRESENT
          else Hidl.mCameraStatusMap (object m) !! key)
    /\ Hidl.mCfg (object m') = Hidl.mCfg (object m)
    /\ Hidl.mCallbacks (object m') = Hidl.mCallbacks (object m)
    /\ Hidl.mPreferredHal3MinorVersion (object m')
       = Hidl.mPreferredHal3MinorVersion (object m)
    /\ notifications (trace m')
       = (notifications (trace m)
          ++ match Hidl.mCallbacks (object m) with
             | Some cb => List.map (fun d_name =>
                                      cameraDeviceStatusChange cb (deviceName d_name) PRESENT)
                            registered
             | None => []
             end)%list.
Proof.
  intros abi w entries m _ Hentries registered deviceName m'.
  destruct (HidlScan.scan_entries_run_2_4 abi w entries
              {| object := object m; trace := trace m ++ [sys_opendir kDevicePathStr] |})
    as [Ho Hn].
  cbn [object trace] in Ho, Hn. fold registered in Ho, Hn.
  set (m1 := snd (Hidl.scan_entries abi w entries _)) in *.
  assert (Hobj : Hidl.mCameraStatusMap (object m') = Hidl.mCameraStatusMap (object m1)
                 /\ Hidl.mCfg (object m') = Hidl.mCfg (object m1)
                 /\ Hidl.mCallbacks (object m') = Hidl.mCallbacks (object m1)
                 /\ Hidl.mPreferredHal3MinorVersion (object m')
                    = Hidl.mPreferredHal3MinorVersion (object m1)
                 /\ notifications (trace m') = notifications (trace m1)).
  { subst m'. unfold Hidl.threadLoop_begin. run. rewrite Hentries. run. fold m1.
    destruct (inotify_init_ret w <? 0); run.
    - repeat split. rewrite !notifications_app. cbn. now rewrite !List.app_nil_r.
    - destruct (inotify_add_watch_ret w <? 0); run;
        (repeat split; rewrite !notifications_app; cbn; now rewrite !List.app_nil_r). }
  destruct Hobj as (Hmap & Hcfg & Hcb & Hv & Hnot).
  rewrite Hmap, Hcfg, Hcb, Hv, Hnot, Ho.
  repeat split; try (destruct (object m); reflexivity).
  - intros key. destruct (object m) as [cfg mp cb v th].
    cbn [Hidl.set_mCameraStatusMap Hidl.mCameraStatusMap Hidl.mCfg
         Hidl.mPreferredHal3MinorVersion].
    apply (StepFacts.lookup_fold_insert_present
             (fun d_name => Hidl.deviceNameOf abi v (cameraIdOffset cfg)
                              (Hidl.snprintf_path d_name))).
  - rewrite Hn, notifications_app. cbn [notifications List.filter is_notification].
    rewrite List.app_nil_r. reflexivity.
Qed.

(** ** The theorems at concrete inputs *)

Lemma subscriber_view_tracks_witness :
  let m := Examples.present_once in
  let m' := fold_left (fun m c => AidlRun.exec LP64 "3.4" c m) Scenarios.plug_and_unplug
              (AidlRun.exec LP64 "3.4" (AidlRun.call_setCallback (Some 7%nat)) m) in
  AidlRun.reachable LP64 "3.4" Examples.cfg m
  /\ forallb (fun c => negb (AidlSpec.is_setCallback c)) Scenarios.plug_and_unplug = true
  /\ Aidl.mCallback (object m') = Some 7%nat
  /\ exists t, trace m' = (trace m ++ t)%list
       /\ Forall (addressed_to 7%nat) t
       /\ subscriber_view t ∅ = Aidl.mCameraStatusMap (object m').
Proof.
  cbv zeta.
  assert (Hreach : AidlRun.reachable LP64 "3.4" Examples.cfg Examples.present_once)
    by (unfold Examples.present_once, Examples.attached; repeat constructor).
  split; [exact Hreach |]. split; [reflexivity |].
  exact (subscriber_view_tracks_status_map LP64 "3.4" Examples.cfg Examples.present_once
           7%nat Scenarios.plug_and_unplug Hreach eq_refl).
Defined.

Lemma detached_provider_witness :
  let m := start (Aidl.construct Examples.cfg) in
  let m' := fold_left (fun m c => AidlRun.exec LP64 "3.4" c m) Scenarios.plug_and_unplug m in
  Aidl.mCallback (object m) = None
  /\ forallb (fun c => negb (AidlSpec.is_setCallback c)) Scenarios.plug_and_unplug = true
  /\ Aidl.mCallback (object m') = None
  /\ notifications (trace m') = notifications (trace m).
Proof.
  cbv zeta. split; [reflexivity |]. split; [reflexivity |].
  exact (detached_provider_notifies_nobody LP64 "3.4" (start (Aidl.construct Examples.cfg))
           Scenarios.plug_and_unplug eq_refl eq_refl).
Defined.

Lemma isExternalDevice_2_4_accepts_witness :
  let w := Examples.receiver_world "video3" [] in
  fst (fst (Aidl.isExternalDevice w "/dev/video3" "/sys/class/video4linux/video3/name"
              (Some false) Examples.attached)) = true
  /\ fst (Hidl.isExternalDevice w "/dev/video3" "/sys/class/video4linux/video3/name"
            (Some false) Examples.attached_2_4)
     = fst (Aidl.isExternalDevice w "/dev/video3" "/sys/class/video4linux/video3/name"
              (Some false) Examples.attached).
Proof.
  cbv zeta.
  assert (H : fst (fst (Aidl.isExternalDevice (Examples.receiver_world "video3" [])
                          "/dev/video3" "/sys/class/video4linux/video3/name"
                          (Some false) Examples.attached)) = true)
    by (vm_compute; reflexivity).
  split; [exact H |].
  exact (isExternalDevice_2_4_accepts_more (Examples.receiver_world "video3" [])
           "/dev/video3" "/sys/class/video4linux/video3/name" (Some false)
           Examples.attached Examples.attached_2_4 H).
Defined.

Lemma deviceAdded_registers_witness :
  sizeof_pointer ILP32 = 4%nat
  /\ capture_ready Examples.codec_world Device_3_4 "/dev/video5" = true
  /\ Hidl.mCameraStatusMap
       (object (snd (Hidl.deviceAdded ILP32 Examples.codec_world "/dev/video5"
                       Examples.attached_2_4)))
     !! "device@3.4/external/7" = Some PRESENT
  /\ notifications
       (trace (snd (Hidl.deviceAdded ILP32 Examples.codec_world "/dev/video5"
                      Examples.attached_2_4)))
     = [cameraDeviceStatusChange 1%nat "device@3.4/external/7" PRESENT]
  /\ capture_ready Examples.nothing Device_aidl "/dev/video5" = false
  /\ object (snd (Aidl.deviceAdded LP64 "3.4" Examples.nothing "/dev/video5"
                    Examples.attached))
     = object Examples.attached.
Proof.
  pose proof (proj2 deviceAdded_registers_iff_capture_ready ILP32 Examples.codec_world
                "/dev/video5" Examples.attached_2_4 eq_refl) as H.
  pose proof (proj1 deviceAdded_registers_iff_capture_ready LP64 "3.4" Examples.nothing
                "/dev/video5" Examples.attached) as H'.
  cbv zeta in H, H'. destruct H as [Ho Hn], H' as [Ho' _].
  split; [reflexivity |]. split; [vm_compute; reflexivity |].
  split; [rewrite Ho; vm_compute; reflexivity |].
  split; [rewrite Hn; vm_compute; reflexivity |].
  split; [vm_compute; reflexivity |].
  rewrite Ho'. vm_compute. reflexivity.
Defined.

Lemma add_then_remove_witness :
  (Aidl.mCameraStatusMap (object Examples.attached)
     !! Aidl.deviceNameOf LP64 "3.4" 2 "/dev/video5" = None
   /\ snd (Aidl.deviceRemoved LP64 "3.4" "/dev/video5"
             (snd (Aidl.addExternalCamera LP64 "3.4" "/dev/video5" Examples.attached)))
      = {| object := object Examples.attached;
           trace := [cameraDeviceStatusChange 1%nat "device@3.4/external/7" PRESENT;
                     cameraDeviceStatusChange 1%nat "device@3.4/external/7" NOT_PRESENT] |})
  /\ (sizeof_pointer ILP32 = 4%nat
      /\ Hidl.mCameraStatusMap (object Examples.attached_2_4)
           !! Hidl.deviceNameOf ILP32 4 2 "/dev/video5" = None
      /\ object (snd (Hidl.deviceRemoved ILP32 "/dev/video5"
                        (snd (Hidl.addExternalCamera ILP32 "/dev/video5"
                                Examples.attached_2_4))))
         = object Examples.attached_2_4
      /\ notifications
           (trace (snd (Hidl.deviceRemoved ILP32 "/dev/video5"
                          (snd (Hidl.addExternalCamera ILP32 "/dev/video5"
                                  Examples.attached_2_4)))))
         = [cameraDeviceStatusChange 1%nat "device@3.4/external/7" PRESENT;
            cameraDeviceStatusChange 1%nat "device@3.4/external/7" NOT_PRESENT]).
Proof.
  assert (H : Aidl.mCameraStatusMap (object Examples.attached)
                !! Aidl.deviceNameOf LP64 "3.4" 2 "/dev/video5" = None)
    by (vm_compute; reflexivity).
  assert (H' : Hidl.mCameraStatusMap (object Examples.attached_2_4)
                 !! Hidl.deviceNameOf ILP32 4 2 "/dev/video5" = None)
    by (vm_compute; reflexivity).
  split; [split; [exact H |] | split; [reflexivity | split; [exact H' |]]].
  - rewrite (proj1 add_then_remove_restores_provider LP64 "3.4" "/dev/video5"
               Examples.attached H).
    reflexivity.
  - rewrite (proj2 add_then_remove_restores_provider ILP32 "/dev/video5"
               Examples.attached_2_4 eq_refl H').
    split; reflexivity.
Defined.

Lemma updateAttachedCameras_witness :
  dev_entries Scenarios.no_inotify_world = Some ["video3"]
  /\ notifications (trace (snd (Aidl.updateAttachedCameras LP64 "3.4"
                                  Scenarios.no_inotify_world Examples.attached)))
     = [cameraDeviceStatusChange 1%nat "device@3.4/external/5" PRESENT].
Proof.
  split; [reflexivity |].
  pose proof (updateAttachedCameras_registers_ready_nodes LP64 "3.4"
                Scenarios.no_inotify_world ["video3"] Examples.attached eq_refl) as H.
  cbv zeta in H. destruct H as (_ & _ & _ & _ & H). rewrite H. vm_compute. reflexivity.
Defined.

Lemma unrelated_records_witness :
  let e := {| wd := 1; mask := IN_CREATE; name := "tty0" |} in
  (wd e <> Aidl.mWd (Aidl.mHotPlugThread (object Scenarios.watching))
   \/ (has_prefix "cec" (name e) = false /\ has_prefix kPrefix (name e) = false))
  /\ Aidl.event_loop LP64 "3.4" Examples.codec_world [e] Examples.zero_frame
       Scenarios.watching
     = (true, {| object := object Scenarios.watching;
                 trace := trace Scenarios.watching
                          ++ [ALOGI "threadLoop inotify_event tty0"] |}).
Proof.
  cbv zeta.
  assert (H : wd {| wd := 1; mask := IN_CREATE; name := "tty0" |}
              <> Aidl.mWd (Aidl.mHotPlugThread (object Scenarios.watching))
              \/ (has_prefix "cec" "tty0" = false /\ has_prefix kPrefix "tty0" = false))
    by (right; split; reflexivity).
  split; [exact H |].
  rewrite (unrelated_records_are_passed_over LP64 "3.4" Examples.codec_world
             {| wd := 1; mask := IN_CREATE; name := "tty0" |} [] Examples.zero_frame
             Scenarios.watching H).
  reflexivity.
Defined.

Lemma threadLoop_returns_false_witness :
  let w := Scenarios.no_dev_world [Examples.cec_created] in
  fst (Aidl.threadLoop LP64 "3.4" w Examples.zero_frame Scenarios.watching) = false
  /\ dev_entries w = None
  /\ exists events e,
       read_events w = Some events /\ In e events
       /\ has_prefix "cec" (name e) = true /\ has_bits (mask e) IN_CREATE = true.
Proof.
  cbv zeta.
  assert (H : fst (Aidl.threadLoop LP64 "3.4" (Scenarios.no_dev_world [Examples.cec_created])
                     Examples.zero_frame Scenarios.watching) = false)
    by (vm_compute; reflexivity).
  split; [exact H |].
  exact (threadLoop_returns_false_only_without_dev LP64 "3.4"
           (Scenarios.no_dev_world [Examples.cec_created]) Examples.zero_frame
           Scenarios.watching H).
Defined.

Lemma failed_initialize_witness :
  let r := Aidl.threadLoop LP64 "3.4" Scenarios.no_inotify_world Examples.zero_frame
             Examples.attached in
  Aidl.mIsInitialized (Aidl.mHotPlugThread (object Examples.attached)) = false
  /\ (inotify_init_ret Scenarios.no_inotify_world < 0
      \/ inotify_add_watch_ret Scenarios.no_inotify_world < 0)
  /\ fst r = true
  /\ Aidl.mIsInitialized (Aidl.mHotPlugThread (object (snd r))) = false.
Proof.
  cbv zeta.
  assert (H : inotify_init_ret Scenarios.no_inotify_world < 0
              \/ inotify_add_watch_ret Scenarios.no_inotify_world < 0)
    by (left; reflexivity).
  split; [reflexivity |]. split; [exact H |].
  pose proof (failed_initialize_is_retried LP64 "3.4" Scenarios.no_inotify_world
                Examples.zero_frame Examples.attached eq_refl H) as Hr.
  cbv zeta in Hr. destruct Hr as (H1 & H2 & _). split; [exact H1 | exact H2].
Defined.

Lemma initialised_thread_witness :
  let m' := fold_left (fun m c => AidlRun.exec LP64 "3.4" c m) Scenarios.plug_and_unplug
              Scenarios.watching in
  Aidl.mIsInitialized (Aidl.mHotPlugThread (object Scenarios.watching)) = true
  /\ Aidl.mHotPlugThread (object m') = Aidl.mHotPlugThread (object Scenarios.watching)
  /\ exists t, trace m' = (trace Scenarios.watching ++ t)%list
       /\ ~ In sys_inotify_init t
       /\ forall path mask, ~ In (sys_inotify_add_watch path mask) t.
Proof.
  cbv zeta.
  assert (H : Aidl.mIsInitialized (Aidl.mHotPlugThread (object Scenarios.watching)) = true)
    by (vm_compute; reflexivity).
  split; [exact H |].
  exact (initialised_thread_keeps_its_watch LP64 "3.4" Scenarios.plug_and_unplug
           Scenarios.watching H).
Defined.

Lemma registered_name_witness :
  AidlRun.reachable LP64 "3.4" Examples.cfg Examples.present_once
  /\ Regex.matches Regex.re_version "3.4"
  /\ Aidl.mCameraStatusMap (object Examples.present_once) !! "device@3.4/external/7"
     = Some PRESENT
  /\ Aidl.matchDeviceName 2 "device@3.4/external/7" (Some "") (Some "")
     = inr (true, Some "3.4", Some "/dev/video5")
  /\ fst (Aidl.getCameraDeviceInterface Examples.codec_world "device@3.4/external/7"
            (Some None) Examples.present_once)
     = match make_device Examples.codec_world Device_aidl "/dev/video5" with
       | Some deviceImpl =>
           if isInitFailed deviceImpl then inr (INTERNAL_ERROR, Some None)
           else inr (OK, Some (Some deviceImpl))
       | None => inr (INTERNAL_ERROR, Some None)
       end.
Proof.
  assert (Hreach : AidlRun.reachable LP64 "3.4" Examples.cfg Examples.present_once)
    by (unfold Examples.present_once, Examples.attached; repeat constructor).
  assert (Hv : Regex.matches Regex.re_version "3.4").
  { apply RegexFacts.matches_version. exists "3", "4". repeat split; discriminate. }
  assert (Hl : Aidl.mCameraStatusMap (object Examples.present_once)
                 !! "device@3.4/external/7" = Some PRESENT)
    by (vm_compute; reflexivity).
  split; [exact Hreach |]. split; [exact Hv |]. split; [exact Hl |].
  destruct (registered_name_resolves LP64 "3.4" Examples.cfg Examples.codec_world
              Examples.present_once "device@3.4/external/7" PRESENT None Hreach Hv Hl)
    as (n & Hn & _ & Hname & Hsmall & _).
  assert (Hseven : n = 7).
  { apply (f_equal (fun s => CLib.strtol_exact (CLib.advance 20 s))) in Hname.
    cbv [CLib.advance String.append] in Hname.
    rewrite CLibFacts.strtol_exact_to_string in Hname.
    vm_compute in Hname. congruence. }
  subst n. apply Hsmall. vm_compute. discriminate.
Defined.

Lemma cec_scan_first_receiver_witness :
  let w := Examples.receiver_world "video3" [] in
  forallb (fun d => negb (AidlSpec.is_receiver w d)) ["null"; "video9"] = true
  /\ AidlSpec.is_receiver w "video3" = true
  /\ Aidl.cec_scan LP64 "3.4" w ["null"; "video9"; "video3"; "video4"] Examples.zero_frame
       Examples.attached
     = Aidl.cec_scan LP64 "3.4" w ["null"; "video9"; "video3"] Examples.zero_frame
         Examples.attached.
Proof.
  cbv zeta.
  assert (H1 : forallb (fun d => negb (AidlSpec.is_receiver
                                         (Examples.receiver_world "video3" []) d))
                 ["null"; "video9"] = true) by (vm_compute; reflexivity).
  assert (H2 : AidlSpec.is_receiver (Examples.receiver_world "video3" []) "video3" = true)
    by (vm_compute; reflexivity).
  split; [exact H1 |]. split; [exact H2 |].
  pose proof (cec_scan_stops_at_first_receiver LP64 "3.4"
                (Examples.receiver_world "video3" []) ["null"; "video9"] "video3" ["video4"]
                Examples.zero_frame Examples.attached H1 H2) as H.
  cbv zeta in H. exact (proj1 H).
Defined.

Lemma subscriber_view_tracks_witness_2_4 :
  let m := Examples.present_once_2_4 in
  let m' := fold_left (fun m c => HidlRun.exec ILP32 c m) Scenarios.plug_and_unplug_2_4
              (HidlRun.exec ILP32 (HidlRun.call_setCallback (Some 7%nat)) m) in
  HidlRun.reachable ILP32 Examples.cfg 4 m
  /\ forallb (fun c => negb (HidlRun.is_setCallback c)) Scenarios.plug_and_unplug_2_4 = true
  /\ Hidl.mCallbacks (object m') = Some 7%nat
  /\ exists t, trace m' = (trace m ++ t)%list
       /\ Forall (addressed_to 7%nat) t
       /\ subscriber_view t ∅ = Hidl.mCameraStatusMap (object m').
Proof.
  cbv zeta.
  assert (Hreach : HidlRun.reachable ILP32 Examples.cfg 4 Examples.present_once_2_4).
  { exact (HidlRun.reach_call ILP32 Examples.cfg 4 _
             (HidlRun.call_addExternalCamera "/dev/video5")
             (HidlRun.reach_call ILP32 Examples.cfg 4 _
                (HidlRun.call_setCallback (Some 1%nat))
                (HidlRun.reach_construct ILP32 Examples.cfg 4))). }
  split; [exact Hreach |]. split; [reflexivity |].
  exact (subscriber_view_tracks_status_map_2_4 ILP32 Examples.cfg 4
           Examples.present_once_2_4 7%nat Scenarios.plug_and_unplug_2_4 Hreach eq_refl).
Defined.

Lemma registered_name_witness_2_4 :
  HidlRun.reachable ILP32 Examples.cfg 4 Examples.present_once_2_4
  /\ Hidl.mCameraStatusMap (object Examples.present_once_2_4) !! "device@3.4/external/7"
     = Some PRESENT
  /\ Hidl.matchDeviceName 2 "device@3.4/external/7" (Some "") (Some "")
     = inr (true, Some "3.4", Some "/dev/video5")
  /\ fst (Hidl.getCameraDeviceInterface_V3_x Examples.codec_world "device@3.4/external/7"
            Examples.present_once_2_4)
     = match make_device Examples.codec_world Device_3_4 "/dev/video5" with
       | Some deviceImpl =>
           if isInitFailed deviceImpl then inr (INTERNAL_ERROR, None)
           else inr (OK, Some deviceImpl)
       | None => inr (INTERNAL_ERROR, None)
       end.
Proof.
  assert (Hreach : HidlRun.reachable ILP32 Examples.cfg 4 Examples.present_once_2_4).
  { exact (HidlRun.reach_call ILP32 Examples.cfg 4 _
             (HidlRun.call_addExternalCamera "/dev/video5")
             (HidlRun.reach_call ILP32 Examples.cfg 4 _
                (HidlRun.call_setCallback (Some 1%nat))
                (HidlRun.reach_construct ILP32 Examples.cfg 4))). }
  assert (Hl : Hidl.mCameraStatusMap (object Examples.present_once_2_4)
                 !! "device@3.4/external/7" = Some PRESENT)
    by (vm_compute; reflexivity).
  split; [exact Hreach |]. split; [exact Hl |].
  destruct (registered_name_resolves_2_4 ILP32 Examples.cfg 4 Examples.codec_world
              Examples.present_once_2_4 "device@3.4/external/7" PRESENT Hreach Hl)
    as (n & cls & Hn & _ & Hname & Hcls & _ & Hsmall & _).
  assert (Hseven : n = 7).
  { apply (f_equal (fun s => CLib.strtol_exact (CLib.advance 20 s))) in Hname.
    change (Hidl.version_2_4 _) with "3.4" in Hname.
    cbv [CLib.advance String.append] in Hname.
    rewrite CLibFacts.strtol_exact_to_string in Hname.
    vm_compute in Hname. congruence. }
  assert (Hfour : cls = Device_3_4) by (vm_compute in Hcls; congruence).
  subst n cls. apply Hsmall. vm_compute. discriminate.
Defined.

Lemma mHdmiRxNode_witness :
  let w := Examples.receiver_world "video3" [] in
  length Examples.zero_frame = kMaxDevicePathLen
  /\ length (fst (Aidl.cec_scan LP64 "3.4" w ["video3"] Examples.zero_frame
                    Examples.attached)) = kMaxDevicePathLen
  /\ length (fst (Hidl.cec_scan LP64 w ["video3"] Examples.zero_frame
                    Examples.attached_2_4)) = kMaxDevicePathLen.
Proof.
  cbv zeta.
  assert (H : length Examples.zero_frame = kMaxDevicePathLen) by reflexivity.
  split; [exact H |].
  destruct (mHdmiRxNode_is_never_overrun LP64 "3.4" (Examples.receiver_world "video3" [])
              ["video3"] [] Examples.zero_frame Examples.attached Examples.attached_2_4 H)
    as (H1 & H2 & _).
  split; [exact H1 | exact H2].
Defined.

Lemma providers_agree_witness :
  sizeof_pointer ILP32 = 4%nat
  /\ Aidl.mCfg (object Examples.attached) = Hidl.mCfg (object Examples.attached_2_4)
  /\ Aidl.mCameraStatusMap (object Examples.attached)
     = Hidl.mCameraStatusMap (object Examples.attached_2_4)
  /\ Aidl.mCallback (object Examples.attached) = Hidl.mCallbacks (object Examples.attached_2_4)
  /\ Hidl.deviceNameOf ILP32 4 2 "/dev/video5" = Aidl.deviceNameOf ILP32 "3.4" 2 "/dev/video5".
Proof.
  split; [reflexivity |]. split; [reflexivity |]. split; [reflexivity |].
  split; [reflexivity |].
  exact (proj1 (providers_agree_on_32_bit ILP32 "/dev/video5" Examples.attached
                  Examples.attached_2_4 eq_refl eq_refl eq_refl eq_refl)).
Defined.
Lemma hotplug_roundtrip_witness :
  let w := Scenarios.no_inotify_world in
  let m := Scenarios.watching in
  let r := Aidl.event_loop LP64 "3.4" w
             [{| wd := Aidl.mWd (Aidl.mHotPlugThread (object m));
                 mask := IN_CREATE; name := "video3" |};
              {| wd := Aidl.mWd (Aidl.mHotPlugThread (object m));
                 mask := IN_DELETE; name := "video3" |}]
             Examples.zero_frame m in
  has_prefix kPrefix "video3" = true
  /\ (advance kPrefixLen "video3"
      ∉ Aidl.t_mInternalDevices (Aidl.mHotPlugThread (object m)))
  /\ fst (AidlSpec.classify w (Aidl.snprintf_path "video3")
            (Aidl.sprintf_sysclass "video3")) = true
  /\ capture_ready w Device_aidl (Aidl.snprintf_path "video3") = true
  /\ Aidl.mCameraStatusMap (object m)
       !! Aidl.deviceNameOf LP64 "3.4" (cameraIdOffset (Aidl.mCfg (object m)))
            (Aidl.snprintf_path "video3") = None
  /\ fst r = true
  /\ object (snd r) = object m.
Proof.
  cbv zeta.
  assert (Hin : advance kPrefixLen "video3"
                ∉ Aidl.t_mInternalDevices (Aidl.mHotPlugThread (object Scenarios.watching))).
  { change ("3" ∉ ({[ "0" ]} : gset string)). intros H.
    apply elem_of_singleton in H. discriminate. }
  assert (Hext : fst (AidlSpec.classify Scenarios.no_inotify_world
                        (Aidl.snprintf_path "video3") (Aidl.sprintf_sysclass "video3")) = true)
    by (vm_compute; reflexivity).
  assert (Hready : capture_ready Scenarios.no_inotify_world Device_aidl
                     (Aidl.snprintf_path "video3") = true)
    by (vm_compute; reflexivity).
  assert (Hnone : Aidl.mCameraStatusMap (object Scenarios.watching)
                    !! Aidl.deviceNameOf LP64 "3.4"
                         (cameraIdOffset (Aidl.mCfg (object Scenarios.watching)))
                         (Aidl.snprintf_path "video3") = None)
    by (vm_compute; reflexivity).
  split; [reflexivity |]. split; [exact Hin |]. split; [exact Hext |].
  split; [exact Hready |]. split; [exact Hnone |].
  pose proof (hotplug_create_then_delete_roundtrip LP64 "3.4" Scenarios.no_inotify_world
                "video3" Examples.zero_frame Scenarios.watching
                eq_refl Hin Hext Hready Hnone) as H.
  cbv zeta in H. destruct H as (H1 & H2 & _). split; [exact H1 | exact H2].
Defined.

Lemma threadLoop_begin_witness :
  sizeof_pointer ILP32 = 4%nat
  /\ dev_entries Scenarios.no_inotify_world = Some ["video3"]
  /\ notifications (trace (snd (Hidl.threadLoop_begin ILP32 Scenarios.no_inotify_world
                                  Examples.attached_2_4)))
     = [cameraDeviceStatusChange 1%nat "device@3.4/external/5" PRESENT].
Proof.
  split; [reflexivity |]. split; [reflexivity |].
  pose proof (threadLoop_begin_registers_ready_nodes ILP32 Scenarios.no_inotify_world
                ["video3"] Examples.attached_2_4 eq_refl eq_refl) as H.
  cbv zeta in H. destruct H as (_ & _ & _ & _ & H). rewrite H. vm_compute. reflexivity.
Defined.
End Coverage.
